(** * coolX: the detection pipelines of the mining CV system and of the
      smart security monitor

    A shallow embedding of the decision logic of
    - [Computer Vision 1/Mining CV System/main.py]  (class MiningCVSystem),
    - [Computer Vision 1/Mining CV System/utils.py] (calculate_ore_value),
    - [Computer Vision 1/main.py]                   (class SmartSecurityMonitor),
    and the properties of that logic.

    Images are lists of rows of pixels, Python floats are IEEE-754 binary64
    values (Rocq's [spec_float] at precision 53), Python ints are [Z].  The
    OpenCV primitives whose result is fixed pixel by pixel ([inRange],
    [countNonZero], [absdiff], [threshold], erosion and dilation,
    [contourArea], [boundingRect]) are written out; the others (colour
    conversion, blur, contour tracing, face detection, drawing) are fields of
    the interface record [OpenCV]. *)

From Stdlib Require Import ZArith List Bool Lia String.
From Stdlib Require Import Floats.SpecFloat.
From stdpp Require Import gmap strings list sorting.

Open Scope Z_scope.

(** ** Python floats: IEEE-754 binary64 *)

Module Binary64.

Definition prec : Z := 53.
Definition emax : Z := 1024.

Abbreviation float := spec_float.

(** [float(n)] for a Python int: the nearest double. *)
Definition of_Z (n : Z) : float := binary_normalize prec emax n 0 false.

Definition mul : float -> float -> float := SFmul prec emax.
Definition div : float -> float -> float := SFdiv prec emax.
Definition add : float -> float -> float := SFadd prec emax.
Definition ltb : float -> float -> bool := SFltb.
Definition leb : float -> float -> bool := SFleb.

(** The literals [0.1], [0.2] and [0.0] of the sources. *)
Definition lit_0_1 : float := S754_finite false 7205759403792794 (-56).
Definition lit_0_2 : float := S754_finite false 7205759403792794 (-55).
Definition lit_0_0 : float := S754_zero false.

(** [n > y] for a Python int [n] and a float [y]: Python compares the two
    numbers exactly, without rounding [n]. *)
Definition Z_gtb (n : Z) (y : float) : bool :=
  match y with
  | S754_nan => false
  | S754_infinity s => s
  | S754_zero _ => 0 <? n
  | S754_finite s m e =>
      let sm := if s then Z.neg m else Z.pos m in
      if 0 <=? e then sm * 2 ^ e <? n else sm <? n * 2 ^ (- e)
  end.

(** [x > n] for a float [x] and a small Python int [n] (the thresholds of
    the sources: 20, 50, 100, 500, 1000, the slider values). *)
Definition gtb_Z (x : float) (n : Z) : bool := ltb (of_Z n) x.
Definition ltb_Z (x : float) (n : Z) : bool := ltb x (of_Z n).

(** [min(x, y)] of two floats: [y] when it is smaller, else [x]. *)
Definition min (x y : float) : float := if ltb y x then y else x.

(** [int(x)]: the float truncated towards zero; [None]: the error raised
    on an infinity or a NaN. *)
Definition to_int (x : float) : option Z :=
  match x with
  | S754_zero _ => Some 0
  | S754_finite s m e =>
      let magnitude := if 0 <=? e then Z.pos m * 2 ^ e else Z.pos m / 2 ^ (- e) in
      Some (if s then - magnitude else magnitude)
  | _ => None
  end.

(** [float(n)] where it may raise: [None] is the [OverflowError] on an
    int too large for a double. *)
Definition of_int (n : Z) : option float :=
  match of_Z n with
  | S754_infinity _ => None
  | x => Some x
  end.

Definition sqrt : float -> float := SFsqrt prec emax.

End Binary64.

(** ** numpy's float32: IEEE-754 binary32 *)

Module Binary32.

Definition prec : Z := 24.
Definition emax : Z := 128.

Definition add : spec_float -> spec_float -> spec_float := SFadd prec emax.
Definition div : spec_float -> spec_float -> spec_float := SFdiv prec emax.

Definition zero : spec_float := S754_zero false.
Definition one : spec_float := S754_finite false 8388608 (-23).

End Binary32.

Import Binary64.

(** ** Images *)

(** A pixel of a 3-channel 8-bit image: (B, G, R) or (H, S, V). *)
Definition Pixel : Type := Z * Z * Z.

(** [numpy] arrays of shape (rows, cols, 3) and (rows, cols). *)
Definition Image : Type := list (list Pixel).
Definition Gray : Type := list (list Z).

Definition shape0 {A} (img : list (list A)) : Z := Z.of_nat (length img).

Definition shape1 {A} (img : list (list A)) : Z :=
  match img with
  | [] => 0
  | row :: _ => Z.of_nat (length row)
  end.

(** [roi.size] of a 3-channel image. *)
Definition size (img : Image) : Z := shape0 img * shape1 img * 3.

(** Python's slice [l[i:j]]: negative bounds count from the end, bounds are
    clipped to the length. *)
Definition slice_index (len i : Z) : Z :=
  if i <? 0 then Z.max (i + len) 0 else Z.min i len.

Definition py_slice {A} (l : list A) (i j : Z) : list A :=
  let n := Z.of_nat (length l) in
  let a := slice_index n i in
  let b := slice_index n j in
  take (Z.to_nat (b - a)) (drop (Z.to_nat a) l).

(** [img[r0:r1, c0:c1]] *)
Definition slice2 {A} (img : list (list A)) (r0 r1 c0 c1 : Z) : list (list A) :=
  map (fun row => py_slice row c0 c1) (py_slice img r0 r1).

(** [cv2.inRange(hsv, lower, upper)]: 255 where every channel lies within the
    inclusive bounds, 0 elsewhere. *)
Definition in_range (lower upper p : Pixel) : bool :=
  let '(l0, l1, l2) := lower in
  let '(u0, u1, u2) := upper in
  let '(p0, p1, p2) := p in
  (l0 <=? p0) && (p0 <=? u0) && (l1 <=? p1) && (p1 <=? u1) &&
  (l2 <=? p2) && (p2 <=? u2).

Definition inRange (hsv : Image) (lower upper : Pixel) : Gray :=
  map (map (fun p => if in_range lower upper p then 255 else 0)) hsv.

(** [cv2.countNonZero(mask)] *)
Definition countNonZero (mask : Gray) : Z :=
  Z.of_nat (length (List.filter (fun v => negb (v =? 0)) (concat mask))).

(** The colour ranges of [assess_equipment_health]. *)
Definition rust_lower : Pixel := (0, 50, 50).
Definition rust_upper : Pixel := (20, 255, 255).
Definition oil_lower : Pixel := (0, 0, 0).
Definition oil_upper : Pixel := (180, 255, 50).

(** [cv2.absdiff(a, b)] on 8-bit single-channel images. *)
Definition absdiff (a b : Gray) : Gray :=
  zip_with (zip_with (fun x y => Z.abs (x - y))) a b.

(** [cv2.threshold(src, thresh, 255, cv2.THRESH_BINARY)[1]] *)
Definition threshold (src : Gray) (thresh : Z) : Gray :=
  map (map (fun v => if thresh <? v then 255 else 0)) src.

(** [cv2.getStructuringElement(cv2.MORPH_ELLIPSE, (3, 3))]: the 3x3 ellipse
    is the cross [[0,1,0],[1,1,1],[0,1,0]]; given as (row, column) offsets
    from the anchor. *)
Definition MORPH_ELLIPSE_3x3 : list (Z * Z) :=
  [(-1, 0); (0, -1); (0, 0); (0, 1); (1, 0)].

Definition pixel_at (img : Gray) (r c : Z) : option Z :=
  if (0 <=? r) && (0 <=? c)
  then row ← img !! Z.to_nat r; row !! Z.to_nat c
  else None.

(** The values under the kernel that fall inside the image: the default
    border of erosion and dilation never wins the minimum or the maximum. *)
Definition under_kernel (kernel : list (Z * Z)) (img : Gray) (r c : Z) : list Z :=
  omap (fun d : Z * Z => pixel_at img (r + fst d) (c + snd d)) kernel.

Definition morph (combine : Z -> Z -> Z) (border : Z)
    (kernel : list (Z * Z)) (img : Gray) : Gray :=
  imap (fun r row =>
    imap (fun c (_ : Z) =>
      foldr combine border (under_kernel kernel img (Z.of_nat r) (Z.of_nat c)))
      row) img.

Definition erode : list (Z * Z) -> Gray -> Gray := morph Z.min 255.
Definition dilate : list (Z * Z) -> Gray -> Gray := morph Z.max 0.

Inductive MorphOp := MORPH_OPEN | MORPH_CLOSE.

(** [cv2.morphologyEx(src, op, kernel)] *)
Definition morphologyEx (src : Gray) (op : MorphOp) (kernel : list (Z * Z)) : Gray :=
  match op with
  | MORPH_OPEN => dilate kernel (erode kernel src)
  | MORPH_CLOSE => erode kernel (dilate kernel src)
  end.

(** ** Contours *)

(** A contour as [cv2.findContours] returns it: the sequence of its points
    (x, y). *)
Definition Contour : Type := list (Z * Z).

Definition Rect : Type := Z * Z * Z * Z.

(** Twice the signed area by Green's formula, summed over consecutive
    points starting from the closing edge (last point, first point). *)
Fixpoint green_sum (prev : Z * Z) (pts : list (Z * Z)) : Z :=
  match pts with
  | [] => 0
  | p :: rest => fst prev * snd p - snd prev * fst p + green_sum p rest
  end.

(** [cv2.contourArea(contour)]: half the absolute Green sum, a double. *)
Definition contourArea (contour : Contour) : float :=
  match contour with
  | [] => lit_0_0
  | p :: _ =>
      binary_normalize prec emax (Z.abs (green_sum (List.last contour p) contour)) (-1) false
  end.

(** [cv2.boundingRect(contour)]: (x, y, w, h) of the upright rectangle
    that contains every point. *)
Definition boundingRect (contour : Contour) : Rect :=
  match contour with
  | [] => (0, 0, 0, 0)
  | p :: rest =>
      let xmin := foldr Z.min (fst p) (map fst rest) in
      let xmax := foldr Z.max (fst p) (map fst rest) in
      let ymin := foldr Z.min (snd p) (map snd rest) in
      let ymax := foldr Z.max (snd p) (map snd rest) in
      (xmin, ymin, xmax - xmin + 1, ymax - ymin + 1)
  end.

(** ** Drawing and the library interface *)

Definition Timestamp : Type := string.

Inductive Health := Unknown | Rust_Detected | Oil_Leak | Good.

(** The texts the programs write on a frame, before formatting. *)
Inductive Label :=
| OreLabel (ore_type : string) (value : Z)
| PPE_Compliant
| SAFETY_VIOLATION
| Equipment_OK
| AlertLabel (health : Health)
| DustLevel (dust_level : Z)
| GAS_DETECTED
| MotionLabel (area : float)
| TimestampLabel (now : Timestamp)
| DetectionsLabel (total_detections : Z)
| MOTION_DETECTED
| SECURE.

Definition Color : Type := Z * Z * Z.
Definition green : Color := (0, 255, 0).
Definition red : Color := (0, 0, 255).
Definition white : Color := (255, 255, 255).

(** One call of [cv2.rectangle] or [cv2.putText]. *)
Inductive Draw :=
| Rectangle (pt1 pt2 : Z * Z) (color : Color) (thickness : Z)
| PutText (text : Label) (org : Z * Z) (color : Color).

(** The OpenCV primitives the model does not look into. *)
Record OpenCV := {
  BGR2HSV : Image -> Image;
  BGR2GRAY : Image -> Gray;
  flip_horizontal : Image -> Image;
  GaussianBlur_21 : Gray -> Gray;
  Canny_50_150 : Gray -> Gray;
  findContours : Gray -> list Contour;
  detectMultiScale : Gray -> list Rect;
  draw : Image -> Draw -> Image
}.

(** [cv2.cvtColor] raises on an empty image; [None] is the raised error. *)
Definition cvtColor_HSV (cv : OpenCV) (img : Image) : option Image :=
  if size img =? 0 then None else Some (BGR2HSV cv img).

Definition cvtColor_GRAY (cv : OpenCV) (img : Image) : option Gray :=
  if size img =? 0 then None else Some (BGR2GRAY cv img).

(** A frame under annotation: the captured pixels and the drawing calls made
    on it so far, oldest first.  Reading the frame reads the drawn pixels. *)
Record Frame := {
  captured : Image;
  drawn : list Draw
}.

Definition new_frame (img : Image) : Frame := {| captured := img; drawn := [] |}.

Definition annotate (f : Frame) (d : Draw) : Frame :=
  {| captured := captured f; drawn := drawn f ++ [d] |}.

Definition pixels (cv : OpenCV) (f : Frame) : Image :=
  fold_left (draw cv) (drawn f) (captured f).

(** [collections.deque(maxlen=n).append(x)]: the oldest entries leave from
    the left once the length would exceed [n]. *)
Definition deque_append {A} (maxlen : nat) (d : list A) (x : A) : list A :=
  drop (length (d ++ [x]) - maxlen)%nat (d ++ [x]).

(** A [for] loop whose body may raise. *)
Definition for_each {A B} (body : A -> B -> option A) (items : list B) (a : A) : option A :=
  fold_left (fun acc item => a' ← acc; body a' item) items (Some a).

(** ** Mining CV System/config.py *)

Module config.

Definition MIN_ORE_AREA : Z := 500.
Definition MIN_EQUIPMENT_AREA : Z := 1000.
Definition MAX_DETECTION_HISTORY : Z := 1000.
Definition MAX_VIOLATIONS : Z := 500.
Definition MAX_ALERTS : Z := 500.

(** One entry of an ore table: the ['color_range'] and ['value'] keys. *)
Record OreParams := {
  color_range : Pixel * Pixel;
  value : Z
}.

Definition ORE_TYPES : gmap string OreParams :=
  list_to_map
    [("iron"%string, {| color_range := ((0, 50, 50), (20, 255, 255)); value := 100 |});
     ("copper"%string, {| color_range := ((10, 100, 100), (30, 255, 255)); value := 150 |});
     ("gold"%string, {| color_range := ((20, 100, 100), (40, 255, 255)); value := 500 |});
     ("silver"%string, {| color_range := ((0, 0, 100), (180, 30, 255)); value := 200 |});
     ("coal"%string, {| color_range := ((0, 0, 0), (180, 255, 50)); value := 80 |})].

End config.

(** ** Mining CV System/utils.py *)

Module utils.

Import config.

(** [calculate_ore_value(ore_type, area, ore_types_config)]; [base_value] is
    an int below 2^53, so that [base_value / 1000] is the double quotient of
    the two converted ints. *)
Definition calculate_ore_value (ore_type : string) (area : float)
    (ore_types_config : gmap string OreParams) : float :=
  match ore_types_config !! ore_type with
  | None => lit_0_0
  | Some params =>
      let base_value := value params in
      let value_per_pixel := div (of_Z base_value) (of_Z 1000) in
      mul area value_per_pixel
  end.

(** [is_contour_valid(contour, min_area)] *)
Definition is_contour_valid (contour : Contour) (min_area : Z) : bool :=
  let area := contourArea contour in
  leb (of_Z min_area) area.

(** Python's [max(iterable, key=key)] on a non-empty sequence: the running
    maximum is replaced by an item whose key is strictly greater. *)
Fixpoint max_by_key {A} (key : A -> float) (best : A) (rest : list A) : A :=
  match rest with
  | [] => best
  | item :: rest' =>
      if ltb (key best) (key item) then max_by_key key item rest'
      else max_by_key key best rest'
  end.

(** [find_largest_contour(contours)] *)
Definition find_largest_contour (contours : list Contour) : option Contour :=
  match contours with
  | [] => None
  | first :: rest => Some (max_by_key contourArea first rest)
  end.

(** [calculate_distance(point1, point2)] on points with int coordinates;
    [math.sqrt] converts its int argument to a double first. *)
Definition calculate_distance (point1 point2 : Z * Z) : option float :=
  x ← of_int ((fst point1 - fst point2) ^ 2 + (snd point1 - snd point2) ^ 2);
  Some (sqrt x).

(** The new size that [resize_image] computes for an image that does not
    fit; [None]: a raised [ZeroDivisionError]. *)
Definition scaled_size (width height max_width max_height : Z) : option (Z * Z) :=
  if (width =? 0) || (height =? 0) then None
  else
    let scale := min (div (of_Z max_width) (of_Z width))
                     (div (of_Z max_height) (of_Z height)) in
    new_width ← to_int (mul (of_Z width) scale);
    new_height ← to_int (mul (of_Z height) scale);
    Some (new_width, new_height).

(** [resize_image(image, max_width, max_height)], over [cv2.resize], which
    raises on a size that is not positive. *)
Definition resize_image (cv2_resize : Image -> Z * Z -> Image)
    (image : Image) (max_width max_height : Z) : option Image :=
  let height := shape0 image in
  let width := shape1 image in
  if (width <=? max_width) && (height <=? max_height) then Some image
  else
    '(new_width, new_height) ← scaled_size width height max_width max_height;
    if (0 <? new_width) && (0 <? new_height)
    then Some (cv2_resize image (new_width, new_height))
    else None.

(** [np.max(a)] of a two-dimensional array without NaN; [None]: the
    [ValueError] on an array without elements. *)
Definition np_max (a : list (list spec_float)) : option spec_float :=
  match concat a with
  | [] => None
  | v :: vs => Some (fold_left (fun m u => if SFltb m u then u else m) vs v)
  end.

(** [heatmap[y, x] += 1] for indices inside the array. *)
Definition heatmap_increment (heatmap : list (list spec_float)) (x y : Z)
    : list (list spec_float) :=
  alter (alter (fun v => Binary32.add v Binary32.one) (Z.to_nat x)) (Z.to_nat y) heatmap.

(** [create_heatmap(data, image_shape)], with [image_shape[:2] = (rows, cols)];
    [None]: a raised [ValueError]. *)
Definition create_heatmap (data : list (Z * Z)) (image_shape : Z * Z)
    : option (list (list spec_float)) :=
  let '(rows, cols) := image_shape in
  if (rows <? 0) || (cols <? 0) then None           (* np.zeros *)
  else
    let heatmap := replicate (Z.to_nat rows) (replicate (Z.to_nat cols) Binary32.zero) in
    let heatmap :=
      fold_left (fun heatmap (point : Z * Z) =>
                   let '(x, y) := point in
                   if (0 <=? x) && (x <? cols) && ((0 <=? y) && (y <? rows))
                   then heatmap_increment heatmap x y
                   else heatmap)
                data heatmap in
    largest ← np_max heatmap;
    if SFltb Binary32.zero largest
    then Some (map (map (fun v => Binary32.div v largest)) heatmap)
    else Some heatmap.

(** The file system as [cleanup_old_files] sees it; [None] and [false] stand
    for a raised [OSError]. *)
Record FileSystem := {
  listdir : string -> option (list string);
  path_join : string -> string -> string;
  isfile : string -> bool;
  getmtime : string -> option float;
  remove : string -> bool
}.

(** [list.sort(key=lambda x: x[1], reverse=True)]: the stable sort by
    decreasing key; an item goes behind the items whose key is not smaller. *)
Fixpoint insert_newest_first (item : string * float) (sorted : list (string * float))
    : list (string * float) :=
  match sorted with
  | [] => [item]
  | other :: rest =>
      if ltb (snd other) (snd item) then item :: other :: rest
      else other :: insert_newest_first item rest
  end.

Definition sort_newest_first (files : list (string * float)) : list (string * float) :=
  fold_left (fun sorted item => insert_newest_first item sorted) files [].

(** The first loop of [cleanup_old_files]: the regular files of the
    directory with their modification times. *)
Definition list_files (fs : FileSystem) (directory : string)
    : option (list (string * float)) :=
  names ← listdir fs directory;
  for_each (fun files filename =>
              let filepath := path_join fs directory filename in
              if isfile fs filepath then
                mtime ← getmtime fs filepath;
                Some (files ++ [(filepath, mtime)])
              else Some files)
           names [].

(** [cleanup_old_files(directory, max_files)]: the paths removed, in order,
    and the count returned. *)
Definition cleanup_old_files (fs : FileSystem) (directory : string) (max_files : Z)
    : list string * Z :=
  match list_files fs directory with
  | None => ([], 0)                                          (* except: return 0 *)
  | Some files =>
      let files := sort_newest_first files in
      fold_left (fun acc (file : string * float) =>
                   let '(removed, removed_count) := acc in
                   let filepath := fst file in
                   if remove fs filepath
                   then (removed ++ [filepath], removed_count + 1)
                   else acc)
                (py_slice files max_files (Z.of_nat (length files)))
                ([], 0)
  end.

End utils.

(** ** Mining CV System/main.py: class MiningCVSystem *)

Module MiningCVSystem.

Import config.

Record Detection := {
  d_timestamp : Timestamp;
  d_ore_type : string;
  d_value : Z;
  d_area : float;
  d_position : Rect
}.

Record Violation := {
  v_timestamp : Timestamp;
  v_type : string;
  v_position : Rect
}.

Record Alert := {
  a_timestamp : Timestamp;
  a_type : Health;
  a_position : Rect
}.

Record EnvAlert := {
  e_timestamp : Timestamp;
  e_type : string;
  e_dust_level : Z
}.

Inductive ModuleName :=
| ore_detection | safety_monitoring | equipment_monitoring
| environmental_monitoring | other_module.

(** The fields of [self] that the processing thread reads and writes. *)
Record state := {
  current_module : ModuleName;
  detection_history : list Detection;     (* deque(maxlen=1000) *)
  safety_violations : list Violation;     (* [] *)
  equipment_alerts : list Alert;          (* [] *)
  environmental_data : list EnvAlert;     (* [] *)
  video_label : option Frame              (* the frame on display *)
}.

(** [__init__] *)
Definition init : state := {|
  current_module := ore_detection;
  detection_history := [];
  safety_violations := [];
  equipment_alerts := [];
  environmental_data := [];
  video_label := None
|}.

(** [self.ore_types], in insertion order. *)
Definition ore_types : list (string * OreParams) :=
  [("iron"%string, {| color_range := ((0, 50, 50), (20, 255, 255)); value := 100 |});
   ("copper"%string, {| color_range := ((10, 100, 100), (30, 255, 255)); value := 150 |});
   ("gold"%string, {| color_range := ((20, 100, 100), (40, 255, 255)); value := 500 |});
   ("silver"%string, {| color_range := ((0, 0, 100), (180, 30, 255)); value := 200 |})].

Definition append_detection (st : state) (d : Detection) : state := {|
  current_module := current_module st;
  detection_history := deque_append 1000 (detection_history st) d;
  safety_violations := safety_violations st;
  equipment_alerts := equipment_alerts st;
  environmental_data := environmental_data st;
  video_label := video_label st
|}.

Definition append_violation (st : state) (v : Violation) : state := {|
  current_module := current_module st;
  detection_history := detection_history st;
  safety_violations := safety_violations st ++ [v];
  equipment_alerts := equipment_alerts st;
  environmental_data := environmental_data st;
  video_label := video_label st
|}.

Definition append_alert (st : state) (a : Alert) : state := {|
  current_module := current_module st;
  detection_history := detection_history st;
  safety_violations := safety_violations st;
  equipment_alerts := equipment_alerts st ++ [a];
  environmental_data := environmental_data st;
  video_label := video_label st
|}.

Definition append_env (st : state) (e : EnvAlert) : state := {|
  current_module := current_module st;
  detection_history := detection_history st;
  safety_violations := safety_violations st;
  equipment_alerts := equipment_alerts st;
  environmental_data := environmental_data st ++ [e];
  video_label := video_label st
|}.

(** The body of [for contour in contours] in [detect_ore]. *)
Definition ore_contour (now : Timestamp) (ore_type : string) (params : OreParams)
    (acc : state * Frame) (contour : Contour) : state * Frame :=
  let '(st, frame) := acc in
  let area := contourArea contour in
  if gtb_Z area 500 then
    let '(x, y, w, h) := boundingRect contour in
    let frame := annotate frame (Rectangle (x, y) (x + w, y + h) green 2) in
    let frame := annotate frame (PutText (OreLabel ore_type (value params)) (x, y - 10) green) in
    let detection := {|
      d_timestamp := now;
      d_ore_type := ore_type;
      d_value := value params;
      d_area := area;
      d_position := (x, y, w, h)
    |} in
    (append_detection st detection, frame)
  else acc.

(** [detect_ore(self, frame)] *)
Definition detect_ore (cv : OpenCV) (now : Timestamp) (st : state) (frame : Frame)
    : option (state * Frame) :=
  hsv ← cvtColor_HSV cv (pixels cv frame);
  Some (fold_left
    (fun acc (entry : string * OreParams) =>
       let '(ore_type, params) := entry in
       let mask := inRange hsv (fst (color_range params)) (snd (color_range params)) in
       let contours := findContours cv mask in
       fold_left (ore_contour now ore_type params) contours acc)
    ore_types (st, frame)).

(** [detect_helmet(self, roi)] *)
Definition detect_helmet (cv : OpenCV) (roi : Image) : option bool :=
  if size roi =? 0 then Some false
  else
    hsv ← cvtColor_HSV cv roi;
    let bright_mask := inRange hsv (0, 0, 200) (180, 30, 255) in
    let bright_pixels := countNonZero bright_mask in
    Some (Z_gtb bright_pixels (mul (of_Z (shape0 roi * shape1 roi)) lit_0_1)).

(** The body of [for (x, y, w, h) in faces] in [monitor_safety]. *)
Definition face_step (cv : OpenCV) (now : Timestamp)
    (acc : state * Frame) (face : Rect) : option (state * Frame) :=
  let '(st, frame) := acc in
  let '(x, y, w, h) := face in
  let roi := if 20 <? y then Some (slice2 (pixels cv frame) (y - 20) y x (x + w)) else None in
  match roi with
  | Some roi =>
      helmet_detected ← detect_helmet cv roi;
      if helmet_detected : bool then
        let frame := annotate frame (Rectangle (x, y) (x + w, y + h) green 2) in
        let frame := annotate frame (PutText PPE_Compliant (x, y - 10) green) in
        Some (st, frame)
      else
        let frame := annotate frame (Rectangle (x, y) (x + w, y + h) red 2) in
        let frame := annotate frame (PutText SAFETY_VIOLATION (x, y - 10) red) in
        let violation := {|
          v_timestamp := now;
          v_type := "No Helmet";
          v_position := (x, y, w, h)
        |} in
        Some (append_violation st violation, frame)
  | None => Some (st, frame)
  end.

(** [monitor_safety(self, frame)] *)
Definition monitor_safety (cv : OpenCV) (now : Timestamp) (st : state) (frame : Frame)
    : option (state * Frame) :=
  gray ← cvtColor_GRAY cv (pixels cv frame);
  let faces := detectMultiScale cv gray in
  for_each (face_step cv now) faces (st, frame).

(** [assess_equipment_health(self, roi)] *)
Definition assess_equipment_health (cv : OpenCV) (roi : Image) : option Health :=
  if size roi =? 0 then Some Unknown
  else
    hsv ← cvtColor_HSV cv roi;
    let rust_mask := inRange hsv rust_lower rust_upper in
    let rust_pixels := countNonZero rust_mask in
    let oil_mask := inRange hsv oil_lower oil_upper in
    let oil_pixels := countNonZero oil_mask in
    let total_pixels := shape0 roi * shape1 roi in
    if Z_gtb rust_pixels (mul (of_Z total_pixels) lit_0_1) then Some Rust_Detected
    else if Z_gtb oil_pixels (mul (of_Z total_pixels) lit_0_2) then Some Oil_Leak
    else Some Good.

(** The body of [for contour in contours] in [monitor_equipment]. *)
Definition equipment_contour (cv : OpenCV) (now : Timestamp)
    (acc : state * Frame) (contour : Contour) : option (state * Frame) :=
  let '(st, frame) := acc in
  let area := contourArea contour in
  if gtb_Z area 1000 then
    let '(x, y, w, h) := boundingRect contour in
    equipment_health ← assess_equipment_health cv (slice2 (pixels cv frame) y (y + h) x (x + w));
    match equipment_health with
    | Good =>
        let frame := annotate frame (Rectangle (x, y) (x + w, y + h) green 2) in
        let frame := annotate frame (PutText Equipment_OK (x, y - 10) green) in
        Some (st, frame)
    | _ =>
        let frame := annotate frame (Rectangle (x, y) (x + w, y + h) red 2) in
        let frame := annotate frame (PutText (AlertLabel equipment_health) (x, y - 10) red) in
        let alert := {|
          a_timestamp := now;
          a_type := equipment_health;
          a_position := (x, y, w, h)
        |} in
        Some (append_alert st alert, frame)
    end
  else Some acc.

(** [monitor_equipment(self, frame)] *)
Definition monitor_equipment (cv : OpenCV) (now : Timestamp) (st : state) (frame : Frame)
    : option (state * Frame) :=
  gray ← cvtColor_GRAY cv (pixels cv frame);
  let edges := Canny_50_150 cv gray in
  let contours := findContours cv edges in
  for_each (equipment_contour cv now) contours (st, frame).

(** [np.mean(hsv, axis=(0, 1))[k]]: the channel sum, exact in a double,
    divided by the number of pixels. *)
Definition channel_mean (channel : Pixel -> Z) (hsv : Image) : float :=
  div (of_Z (foldr Z.add 0 (map channel (concat hsv))))
      (of_Z (shape0 hsv * shape1 hsv)).

(** [detect_gas(self, frame)] *)
Definition detect_gas (cv : OpenCV) (frame : Image) : option bool :=
  hsv ← cvtColor_HSV cv frame;
  let mean_color_0 := channel_mean (fun p => fst (fst p)) hsv in
  let mean_color_1 := channel_mean (fun p => snd (fst p)) hsv in
  if gtb_Z mean_color_0 100 || ltb_Z mean_color_1 50 then Some true
  else Some false.

(** [monitor_environment(self, frame)] *)
Definition monitor_environment (cv : OpenCV) (now : Timestamp) (st : state) (frame : Frame)
    : option (state * Frame) :=
  hsv ← cvtColor_HSV cv (pixels cv frame);
  let dust_mask := inRange hsv (0, 0, 100) (180, 30, 200) in
  let dust_level := countNonZero dust_mask in
  gas_detected ← detect_gas cv (pixels cv frame);
  let info_y := 30 in
  let frame := annotate frame (PutText (DustLevel dust_level) (10, info_y) white) in
  if gas_detected : bool then
    let frame := annotate frame (PutText GAS_DETECTED (10, info_y + 30) red) in
    let env_alert := {|
      e_timestamp := now;
      e_type := "Gas Detected";
      e_dust_level := dust_level
    |} in
    Some (append_env st env_alert, frame)
  else Some (st, frame).

(** [on_module_change(self, event)], with the selected module. *)
Definition on_module_change (st : state) (selected : ModuleName) : state := {|
  current_module := selected;
  detection_history := detection_history st;
  safety_violations := safety_violations st;
  equipment_alerts := equipment_alerts st;
  environmental_data := environmental_data st;
  video_label := video_label st
|}.

(** [process_frame(self, frame)] *)
Definition process_frame (cv : OpenCV) (now : Timestamp) (st : state) (frame : Frame)
    : option (state * Frame) :=
  match current_module st with
  | ore_detection => detect_ore cv now st frame
  | safety_monitoring => monitor_safety cv now st frame
  | equipment_monitoring => monitor_equipment cv now st frame
  | environmental_monitoring => monitor_environment cv now st frame
  | other_module => Some (st, frame)
  end.

(** [display_frame(self, frame)] *)
Definition display_frame (st : state) (frame : Frame) : state := {|
  current_module := current_module st;
  detection_history := detection_history st;
  safety_violations := safety_violations st;
  equipment_alerts := equipment_alerts st;
  environmental_data := environmental_data st;
  video_label := Some frame
|}.

(** One result of [self.camera.read()]: the clock at that iteration and
    [(ret, frame)], [None] when [ret] is false. *)
Definition Read : Type := Timestamp * option Image.

(** [process_frames(self)]: the iterations of [while self.is_running] over
    the reads made before the flag is cleared.  [None]: an error escaped the
    loop. *)
Fixpoint process_frames (cv : OpenCV) (reads : list Read) (st : state) : option state :=
  match reads with
  | [] => Some st
  | (now, None) :: rest => process_frames cv rest st            (* continue *)
  | (now, Some frame) :: rest =>
      '(st, processed_frame) ← process_frame cv now st (new_frame frame);
      process_frames cv rest (display_frame st processed_frame)
  end.

(** The values of the dictionary [generate_report] builds. *)
Inductive ReportValue :=
| RStr (s : string)
| RInt (n : Z)
| RDetections (l : list Detection)
| RViolations (l : list Violation)
| RAlerts (l : list Alert)
| REnvironment (l : list EnvAlert).

(** [d[k] = v] on a dictionary kept in insertion order: a key that is
    present keeps its place and takes the new value. *)
Fixpoint dict_setitem {V} (d : list (string * V)) (k : string) (v : V) : list (string * V) :=
  match d with
  | [] => [(k, v)]
  | (k', v') :: rest =>
      if String.eqb k' k then (k', v) :: rest else (k', v') :: dict_setitem rest k v
  end.

(** A dictionary display [{k1: v1, k2: v2, ...}]: the items are stored from
    left to right. *)
Definition dict_display {V} (items : list (string * V)) : list (string * V) :=
  fold_left (fun d item => dict_setitem d (fst item) (snd item)) items [].

(** [d.get(k)] *)
Fixpoint dict_get {V} (d : list (string * V)) (k : string) : option V :=
  match d with
  | [] => None
  | (k', v) :: rest => if String.eqb k' k then Some v else dict_get rest k
  end.

(** [generate_report(self)], with the clock in ISO format and in the format
    of the file name: the name of the file written and the dictionary dumped
    into it. *)
Definition generate_report (now : Timestamp) (strftime : string) (st : state)
    : string * list (string * ReportValue) :=
  let report := dict_display
    [("timestamp"%string, RStr now);
     ("total_detections"%string, RInt (Z.of_nat (length (detection_history st))));
     ("safety_violations"%string, RInt (Z.of_nat (length (safety_violations st))));
     ("equipment_alerts"%string, RInt (Z.of_nat (length (equipment_alerts st))));
     ("environmental_alerts"%string, RInt (Z.of_nat (length (environmental_data st))));
     ("ore_value_estimate"%string,
        RInt (fold_left Z.add (map d_value (detection_history st)) 0));
     ("detections"%string, RDetections (detection_history st));
     ("violations"%string, RViolations (safety_violations st));
     ("equipment_alerts"%string, RAlerts (equipment_alerts st));
     ("environmental_data"%string, REnvironment (environmental_data st))] in
  let filename := ("mining_report_" ++ strftime ++ ".json")%string in
  (filename, report).


End MiningCVSystem.

(** ** Computer Vision 1/main.py: class SmartSecurityMonitor *)

Module SmartSecurityMonitor.

Record Event := {
  ev_timestamp : Timestamp;
  ev_type : string;
  ev_description : Z          (* the number in "Detection #n" *)
}.

(** The fields of [self] that the video thread reads and writes.  The frames
    of one camera share one non-empty shape, so no library call of the loop
    raises. *)
Record state := {
  background_frame : option Gray;
  frame_count : Z;
  motion_detected : bool;
  detection_count : Z;
  total_detections : Z;
  sensitivity : Z;
  min_area : Z;
  alert_var : bool;
  events_log : list Event;
  alerts_played : Z;              (* calls of play_alert *)
  video_label : option Frame;     (* the frame on display *)
  motion_label : bool             (* "Motion: DETECTED" / "Motion: None" *)
}.

(** [__init__] and [setup_video_processing] *)
Definition init : state := {|
  background_frame := None;
  frame_count := 0;
  motion_detected := false;
  detection_count := 0;
  total_detections := 0;
  sensitivity := 50;
  min_area := 1000;
  alert_var := true;
  events_log := [];
  alerts_played := 0;
  video_label := None;
  motion_label := false
|}.

(** [update_sensitivity(self, value)] *)
Definition update_sensitivity (st : state) (value : Z) : state := {|
  background_frame := None;
  frame_count := frame_count st;
  motion_detected := motion_detected st;
  detection_count := detection_count st;
  total_detections := total_detections st;
  sensitivity := value;
  min_area := min_area st;
  alert_var := alert_var st;
  events_log := events_log st;
  alerts_played := alerts_played st;
  video_label := video_label st;
  motion_label := motion_label st
|}.

(** [update_min_area(self, value)] *)
Definition update_min_area (st : state) (value : Z) : state := {|
  background_frame := background_frame st;
  frame_count := frame_count st;
  motion_detected := motion_detected st;
  detection_count := detection_count st;
  total_detections := total_detections st;
  sensitivity := sensitivity st;
  min_area := value;
  alert_var := alert_var st;
  events_log := events_log st;
  alerts_played := alerts_played st;
  video_label := video_label st;
  motion_label := motion_label st
|}.

(** The body of [for contour in contours] in [process_video]. *)
Definition motion_contour (min_area : Z) (acc : bool * Frame) (contour : Contour)
    : bool * Frame :=
  let '(motion_detected, frame) := acc in
  let area := contourArea contour in
  if gtb_Z area min_area then
    let '(x, y, w, h) := boundingRect contour in
    let frame := annotate frame (Rectangle (x, y) (x + w, y + h) green 2) in
    let frame := annotate frame (PutText (MotionLabel area) (x, y - 10) green) in
    (true, frame)
  else acc.

(** [add_status_overlay(self, frame)], with the fields of [self] it reads. *)
Definition add_status_overlay (now : Timestamp) (total_detections : Z)
    (motion_detected : bool) (frame : Frame) : Frame :=
  let width := shape1 (captured frame) in
  let frame := annotate frame (PutText (TimestampLabel now) (10, 30) white) in
  let frame := annotate frame (PutText (DetectionsLabel total_detections) (10, 60) white) in
  let status_color := if motion_detected then green else red in
  let status_text := if motion_detected then MOTION_DETECTED else SECURE in
  annotate frame (PutText status_text (width - 200, 30) status_color).

(** The grayscale, blurred version of a captured frame. *)
Definition blurred_gray (cv : OpenCV) (img : Image) : Gray :=
  GaussianBlur_21 cv (BGR2GRAY cv (flip_horizontal cv img)).

(** The mask of changed pixels: difference with the background, threshold,
    opening, closing. *)
Definition motion_mask (background gray : Gray) (sensitivity : Z) : Gray :=
  let frame_delta := absdiff background gray in
  let thresh := threshold frame_delta sensitivity in
  let kernel := MORPH_ELLIPSE_3x3 in
  let thresh := morphologyEx thresh MORPH_OPEN kernel in
  morphologyEx thresh MORPH_CLOSE kernel.

(** The contour loop of one frame: the motion flag and the annotated frame. *)
Definition detect_motion (cv : OpenCV) (st : state) (background gray : Gray)
    (frame : Frame) : bool * Frame :=
  let thresh := motion_mask background gray (sensitivity st) in
  let contours := findContours cv thresh in
  fold_left (motion_contour (min_area st)) contours (false, frame).

(** One iteration of [while self.is_running] in [process_video] on a frame
    that was read. *)
Definition process_one (cv : OpenCV) (now : Timestamp) (st : state) (img : Image) : state :=
  let frame := new_frame (flip_horizontal cv img) in
  let gray := blurred_gray cv img in
  match background_frame st with
  | None => {|                                   (* initialise, continue *)
      background_frame := Some gray;
      frame_count := frame_count st;
      motion_detected := motion_detected st;
      detection_count := detection_count st;
      total_detections := total_detections st;
      sensitivity := sensitivity st;
      min_area := min_area st;
      alert_var := alert_var st;
      events_log := events_log st;
      alerts_played := alerts_played st;
      video_label := video_label st;
      motion_label := motion_label st
    |}
  | Some background =>
      let '(motion, frame) := detect_motion cv st background gray frame in
      let frame_count' := frame_count st + 1 in
      let background' := if frame_count' mod 30 =? 0 then gray else background in
      let rising := motion && negb (motion_detected st) in
      let total_detections' :=
        if rising then total_detections st + 1 else total_detections st in
      let detection_count' :=
        if rising then detection_count st + 1 else detection_count st in
      let events_log' :=
        if rising then
          events_log st ++ [{| ev_timestamp := now;
                               ev_type := "Motion Detected";
                               ev_description := detection_count' |}]
        else events_log st in
      let alerts_played' :=
        if rising && alert_var st then alerts_played st + 1 else alerts_played st in
      let frame := add_status_overlay now total_detections' motion frame in
      {|
        background_frame := Some background';
        frame_count := frame_count';
        motion_detected := motion;
        detection_count := detection_count';
        total_detections := total_detections';
        sensitivity := sensitivity st;
        min_area := min_area st;
        alert_var := alert_var st;
        events_log := events_log';
        alerts_played := alerts_played';
        video_label := Some frame;
        motion_label := motion
      |}
  end.

(** One result of [self.cap.read()]. *)
Definition Read : Type := Timestamp * option Image.

(** [process_video(self)]: the iterations of [while self.is_running] over the
    reads made before the flag is cleared. *)
Fixpoint process_video (cv : OpenCV) (reads : list Read) (st : state) : state :=
  match reads with
  | [] => st
  | (now, None) :: _ => st                                   (* break *)
  | (now, Some frame) :: rest => process_video cv rest (process_one cv now st frame)
  end.

(** [log_event(self, event_type, description)]; the description of the one
    caller is "Detection #n", kept as [n]. *)
Definition log_event (now : Timestamp) (st : state) (event_type : string)
    (description : Z) : state := {|
  background_frame := background_frame st;
  frame_count := frame_count st;
  motion_detected := motion_detected st;
  detection_count := detection_count st;
  total_detections := total_detections st;
  sensitivity := sensitivity st;
  min_area := min_area st;
  alert_var := alert_var st;
  events_log := events_log st ++ [{| ev_timestamp := now;
                                     ev_type := event_type;
                                     ev_description := description |}];
  alerts_played := alerts_played st;
  video_label := video_label st;
  motion_label := motion_label st
|}.

(** [clear_log(self)], with the answer to its confirmation dialog. *)
Definition clear_log (st : state) (askyesno : bool) : state :=
  if askyesno then {|
    background_frame := background_frame st;
    frame_count := frame_count st;
    motion_detected := motion_detected st;
    detection_count := 0;
    total_detections := 0;
    sensitivity := sensitivity st;
    min_area := min_area st;
    alert_var := alert_var st;
    events_log := [];
    alerts_played := alerts_played st;
    video_label := video_label st;
    motion_label := motion_label st
  |}
  else st.

(** The dictionary [save_report] writes. *)
Record Report := {
  r_session_start : Timestamp;
  r_total_detections : Z;
  r_events : list Event
}.

(** [save_report(self)], with the start of the session and the file name the
    dialog returns (empty when it is cancelled): the file written and its
    content, [None] when nothing is written. *)
Definition save_report (session_start : Timestamp) (asksaveasfilename : string)
    (st : state) : option (string * Report) :=
  match events_log st with
  | [] => None
  | _ :: _ =>
      let filename := asksaveasfilename in
      if String.eqb filename "" then None
      else
        let report := {|
          r_session_start := session_start;
          r_total_detections := total_detections st;
          r_events := events_log st
        |} in
        Some (filename, report)
  end.

End SmartSecurityMonitor.

(** ** A plain instance of the library interface

    Identity colour conversion, green channel as gray level, no blur, no
    drawing on the pixels, and one contour per mask: the corners of the
    rectangle that spans its non-zero pixels. *)

Definition nonzero_columns (row : list Z) : list Z :=
  omap (fun cv : nat * Z => if snd cv =? 0 then None else Some (Z.of_nat (fst cv)))
       (imap (fun c v => (c, v)) row).

Definition nonzero_points (mask : Gray) : list (Z * Z) :=
  concat (imap (fun r row => map (fun c => (c, Z.of_nat r)) (nonzero_columns row)) mask).

Definition span_contour (mask : Gray) : list Contour :=
  match nonzero_points mask with
  | [] => []
  | p :: rest =>
      let '(x, y, w, h) := boundingRect (p :: rest) in
      [[(x, y); (x, y + h - 1); (x + w - 1, y + h - 1); (x + w - 1, y)]]
  end.

Definition plain_cv : OpenCV := {|
  BGR2HSV := fun img => img;
  BGR2GRAY := map (map (fun p : Pixel => snd (fst p)));
  flip_horizontal := map (@rev Pixel);
  GaussianBlur_21 := fun g => g;
  Canny_50_150 := fun g => g;
  findContours := span_contour;
  detectMultiScale := fun _ => [];
  draw := fun img _ => img
|}.

(** ** Observations on annotated frames *)

(** The corner pairs of the [cv2.rectangle] calls among drawing calls. *)
Definition rectangles (ds : list Draw) : list ((Z * Z) * (Z * Z)) :=
  omap (fun d => match d with
                 | Rectangle pt1 pt2 _ _ => Some (pt1, pt2)
                 | PutText _ _ _ => None
                 end) ds.

(** The corner pair the loops draw for a contour. *)
Definition corners (contour : Contour) : (Z * Z) * (Z * Z) :=
  let '(x, y, w, h) := boundingRect contour in ((x, y), (x + w, y + h)).

(** The contours a loop with minimum [min_area] lets through. *)
Definition above (min_area : Z) (contours : list Contour) : list Contour :=
  List.filter (fun c => gtb_Z (contourArea c) min_area) contours.

(** The points of [data] that lie inside an array of the given shape. *)
Definition inside (image_shape : Z * Z) (point : Z * Z) : bool :=
  (0 <=? fst point) && (fst point <? snd image_shape) &&
  ((0 <=? snd point) && (snd point <? fst image_shape)).


(** A 25 by 20 rectangle: its contour area is exactly 500.0. *)
Definition contour_500 : Contour := [(0, 0); (0, 20); (25, 20); (25, 0)].

(** A frame of [rows] rows and [cols] columns filled with one colour. *)
Definition filled (rows cols : nat) (p : Pixel) : Image :=
  replicate rows (replicate cols p).

(** The record [detect_ore] logs for a contour of an ore type. *)
Definition detection_of (now : Timestamp) (entry : string * config.OreParams)
    (contour : Contour) : MiningCVSystem.Detection := {|
  MiningCVSystem.d_timestamp := now;
  MiningCVSystem.d_ore_type := fst entry;
  MiningCVSystem.d_value := config.value (snd entry);
  MiningCVSystem.d_area := contourArea contour;
  MiningCVSystem.d_position := boundingRect contour
|}.

(** The contours [detect_ore] traces for one ore type. *)
Definition ore_contours (cv : OpenCV) (hsv : Image) (entry : string * config.OreParams)
    : list Contour :=
  findContours cv (inRange hsv (fst (config.color_range (snd entry)))
                               (snd (config.color_range (snd entry)))).

(** The plain instance with a face detector that reports one face, 21 rows
    below the top of the frame. *)
Definition one_face_cv : OpenCV := {|
  BGR2HSV := BGR2HSV plain_cv;
  BGR2GRAY := BGR2GRAY plain_cv;
  flip_horizontal := flip_horizontal plain_cv;
  GaussianBlur_21 := GaussianBlur_21 plain_cv;
  Canny_50_150 := Canny_50_150 plain_cv;
  findContours := findContours plain_cv;
  detectMultiScale := fun _ => [(0, 21, 1, 1)];
  draw := draw plain_cv
|}.

(** Reads that all deliver a frame. *)
Definition successful (frames : list (Timestamp * Image)) : list (Timestamp * option Image) :=
  map (fun r => (fst r, Some (snd r))) frames.

(** The motion flag [process_video] computes for a frame; [None] for a frame
    that only initialises the background. *)
Definition frame_motion (cv : OpenCV) (st : SmartSecurityMonitor.state) (img : Image)
    : option bool :=
  match SmartSecurityMonitor.background_frame st with
  | Some background =>
      Some (fst (SmartSecurityMonitor.detect_motion cv st background
                   (SmartSecurityMonitor.blurred_gray cv img)
                   (new_frame (flip_horizontal cv img))))
  | None => None
  end.

(** Every frame of a run is processed and shows motion. *)
Fixpoint unbroken_motion (cv : OpenCV) (st : SmartSecurityMonitor.state)
    (frames : list (Timestamp * Image)) : bool :=
  match frames with
  | [] => true
  | (now, img) :: rest =>
      match frame_motion cv st img with
      | Some true => unbroken_motion cv (SmartSecurityMonitor.process_one cv now st img) rest
      | _ => false
      end
  end.

(** The states of the mining system: the initial one, and those that a
    change of module, the processing of a frame or its display lead to. *)
Inductive reachable (cv : OpenCV) : MiningCVSystem.state -> Prop :=
| reach_init : reachable cv MiningCVSystem.init
| reach_module_change st selected :
    reachable cv st -> reachable cv (MiningCVSystem.on_module_change st selected)
| reach_process_frame st now img st' frame' :
    reachable cv st ->
    MiningCVSystem.process_frame cv now st (new_frame img) = Some (st', frame') ->
    reachable cv st'
| reach_display_frame st frame :
    reachable cv st -> reachable cv (MiningCVSystem.display_frame st frame).

(** What happens to the security monitor, in order: an iteration of the
    video loop on a frame that was read, or a callback of the window, run
    between two iterations. *)
Inductive Happening :=
| frame_read (now : Timestamp) (img : Image)
| sensitivity_moved (value : Z)
| min_area_moved (value : Z)
| clear_log_clicked (askyesno : bool).

Definition happen (cv : OpenCV) (st : SmartSecurityMonitor.state) (h : Happening)
    : SmartSecurityMonitor.state :=
  match h with
  | frame_read now img => SmartSecurityMonitor.process_one cv now st img
  | sensitivity_moved value => SmartSecurityMonitor.update_sensitivity st value
  | min_area_moved value => SmartSecurityMonitor.update_min_area st value
  | clear_log_clicked askyesno => SmartSecurityMonitor.clear_log st askyesno
  end.

(** A session of the security monitor from its initial state. *)
Definition session (cv : OpenCV) (hs : list Happening) : SmartSecurityMonitor.state :=
  fold_left (happen cv) hs SmartSecurityMonitor.init.

(** A mask without a non-zero pixel. *)
Definition all_zero (mask : Gray) : Prop := Forall (Forall (fun v => v = 0)) mask.

(** ** Rounding to nearest, ties to even *)

(** What [k] steps of [shr_1] keep of a mantissa [m]: the quotient by 2^k,
    the bit below it and whether any lower bit is set. *)
Definition shifted (m : Z) (k : Z) (mrs : shr_record) : Prop :=
  exists t : Z,
    m = (2 * shr_m mrs + Z.b2z (shr_r mrs)) * 2 ^ (k - 1) + t /\
    0 <= t < 2 ^ (k - 1) /\
    shr_s mrs = negb (t =? 0).

(** [m / 2^n] rounded to the nearest integer, ties to the even one. *)
Definition rne (m n : Z) : Z :=
  let q := m / 2 ^ n in
  let rem := m mod 2 ^ n in
  match 2 * rem ?= 2 ^ n with
  | Lt => q
  | Eq => if Z.even q then q else q + 1
  | Gt => q + 1
  end.

(** The exponent of the doubles of magnitude [mu]: [fexp] at precision 53
    with the smallest exponent -1074. *)
Definition fexp64 (mu : Z) : Z := Z.max (mu - 53) (-1074).

(** The double of value [rho * 2^E] for an integer [rho] of at most 53
    digits, or exactly 2^53: the second half of [binary_round_aux]. *)
Definition rounded (rho E : Z) : float :=
  let '(mrs, e) := shr_fexp prec emax rho E loc_Exact in
  match shr_m mrs with
  | Z0 => S754_zero false
  | Zpos m => if e <=? emax - prec then S754_finite false m e else S754_infinity false
  | Zneg _ => S754_nan
  end.

(** The non-negative doubles in canonical form, with the zeros and
    +infinity. *)
Definition nonneg_valid (x : float) : bool :=
  match x with
  | S754_zero _ => true
  | S754_infinity s => negb s
  | S754_nan => false
  | S754_finite s m e => negb s && bounded prec emax m e
  end.

(** The finite ones among them. *)
Definition nonneg_finite (x : float) : bool :=
  match x with
  | S754_infinity _ => false
  | _ => nonneg_valid x
  end.

(** The rank of +infinity: 2^1024 in units of 2^-1074. *)
Definition ord_infinity : Z := 2 ^ 2098.

(** The rank of a non-negative double: its value in units of 2^-1074. *)
Definition ord (x : float) : Z :=
  match x with
  | S754_zero _ => 0
  | S754_infinity _ => ord_infinity
  | S754_nan => 0
  | S754_finite _ m e => Z.pos m * 2 ^ (e + 1074)
  end.

(** The rank of the double nearest to [P * 2^e], were there no overflow. *)
Definition rank_rounded (P : positive) (e : Z) : Z :=
  let E := fexp64 (Z.pos (digits2_pos P) + e) in
  rne (Z.pos P) (E - e) * 2 ^ (E + 1074).

(** The counters and the log agree, and the events are numbered from 1. *)
Definition log_consistent (st : SmartSecurityMonitor.state) : Prop :=
  SmartSecurityMonitor.total_detections st
    = Z.of_nat (length (SmartSecurityMonitor.events_log st)) /\
  SmartSecurityMonitor.detection_count st = SmartSecurityMonitor.total_detections st /\
  map SmartSecurityMonitor.ev_description (SmartSecurityMonitor.events_log st)
    = map Z.of_nat (seq 1 (length (SmartSecurityMonitor.events_log st))) /\
  Forall (fun e => SmartSecurityMonitor.ev_type e = "Motion Detected"%string)
         (SmartSecurityMonitor.events_log st).

(** A mask whose pixels are 0 or 255. *)
Definition binary_mask (mask : Gray) : Prop :=
  Forall (Forall (fun v => v = 0 \/ v = 255)) mask.

(** Two masks of one shape, the first below the second at every pixel. *)
Definition mask_le (a b : Gray) : Prop := Forall2 (Forall2 Z.le) a b.


(** A mask without a plus: every pixel has, among itself and its four
    neighbours inside the mask, one that is 0. *)
Definition no_plus (mask : Gray) : Prop :=
  forall r c v, pixel_at mask r c = Some v ->
    exists d, d ∈ MORPH_ELLIPSE_3x3 /\ pixel_at mask (r + fst d) (c + snd d) = Some 0.

(** The plain instance on gray levels: the frame with gray levels [g]. *)
Definition gray_image (g : Gray) : Image := map (map (fun v => (0, v, 0))) g.

(** A frame with the same captured pixels and further drawing calls. *)
Definition drawn_over (frame frame' : Frame) : Prop :=
  captured frame' = captured frame /\ drawn frame `prefix_of` drawn frame'.

(** What one processing step does to the state and the frame: the module
    and the frame on display stay, the frame is drawn over, and only the
    history of the selected module may change, by records of this step
    appended to it (the ore history is a deque and may lose old records). *)
Definition step_effect (now : Timestamp) (st : MiningCVSystem.state) (frame : Frame)
    (st' : MiningCVSystem.state) (frame' : Frame) : Prop :=
  MiningCVSystem.current_module st' = MiningCVSystem.current_module st /\
  MiningCVSystem.video_label st' = MiningCVSystem.video_label st /\
  drawn_over frame frame' /\
  match MiningCVSystem.current_module st with
  | MiningCVSystem.ore_detection =>
      MiningCVSystem.safety_violations st' = MiningCVSystem.safety_violations st /\
      MiningCVSystem.equipment_alerts st' = MiningCVSystem.equipment_alerts st /\
      MiningCVSystem.environmental_data st' = MiningCVSystem.environmental_data st
  | MiningCVSystem.safety_monitoring =>
      MiningCVSystem.detection_history st' = MiningCVSystem.detection_history st /\
      MiningCVSystem.equipment_alerts st' = MiningCVSystem.equipment_alerts st /\
      MiningCVSystem.environmental_data st' = MiningCVSystem.environmental_data st /\
      exists new,
        MiningCVSystem.safety_violations st' = MiningCVSystem.safety_violations st ++ new /\
        Forall (fun v => MiningCVSystem.v_timestamp v = now /\
                         MiningCVSystem.v_type v = "No Helmet"%string) new
  | MiningCVSystem.equipment_monitoring =>
      MiningCVSystem.detection_history st' = MiningCVSystem.detection_history st /\
      MiningCVSystem.safety_violations st' = MiningCVSystem.safety_violations st /\
      MiningCVSystem.environmental_data st' = MiningCVSystem.environmental_data st /\
      exists new,
        MiningCVSystem.equipment_alerts st' = MiningCVSystem.equipment_alerts st ++ new /\
        Forall (fun a => MiningCVSystem.a_timestamp a = now /\
                         MiningCVSystem.a_type a <> Good) new
  | MiningCVSystem.environmental_monitoring =>
      MiningCVSystem.detection_history st' = MiningCVSystem.detection_history st /\
      MiningCVSystem.safety_violations st' = MiningCVSystem.safety_violations st /\
      MiningCVSystem.equipment_alerts st' = MiningCVSystem.equipment_alerts st /\
      exists new,
        MiningCVSystem.environmental_data st' = MiningCVSystem.environmental_data st ++ new /\
        (length new <= 1)%nat /\
        Forall (fun e => MiningCVSystem.e_timestamp e = now /\
                         MiningCVSystem.e_type e = "Gas Detected"%string) new
  | MiningCVSystem.other_module => st' = st /\ frame' = frame
  end.

(** A record as [detect_ore] logs it: one of the four ore types with its
    value, for a contour above the minimum area. *)
Definition ore_record (d : MiningCVSystem.Detection) : Prop :=
  (exists params, (MiningCVSystem.d_ore_type d, params) ∈ MiningCVSystem.ore_types /\
                  MiningCVSystem.d_value d = config.value params) /\
  gtb_Z (MiningCVSystem.d_area d) 500 = true.

(** An array of shape (rows, cols). *)
Definition has_shape {A} (rows cols : Z) (a : list (list A)) : Prop :=
  length a = Z.to_nat rows /\ Forall (fun row => length row = Z.to_nat cols) a.

(** The counting loop of [create_heatmap]. *)
Definition heatmap_counts (data : list (Z * Z)) (rows cols : Z)
    : list (list spec_float) :=
  fold_left (fun heatmap (point : Z * Z) =>
               let '(x, y) := point in
               if (0 <=? x) && (x <? cols) && ((0 <=? y) && (y <? rows))
               then utils.heatmap_increment heatmap x y
               else heatmap)
            data
            (replicate (Z.to_nat rows) (replicate (Z.to_nat cols) Binary32.zero)).

(** A file at least as new as another one. *)
Definition newer_or_equal (a b : string * float) : Prop := ord (snd b) <= ord (snd a).

(** A directory [logs] with three files, the second of which cannot be
    removed. *)
Definition three_files : utils.FileSystem := {|
  utils.listdir := fun directory =>
    if String.eqb directory "logs" then Some ["a"; "b"; "c"]%string else None;
  utils.path_join := fun directory filename => (directory ++ "/" ++ filename)%string;
  utils.isfile := fun _ => true;
  utils.getmtime := fun filepath =>
    if String.eqb filepath "logs/a" then Some (of_Z 3)
    else if String.eqb filepath "logs/b" then Some (of_Z 1)
    else Some (of_Z 2);
  utils.remove := fun filepath => negb (String.eqb filepath "logs/b")
|}.

(** The two bits below a mantissa that stand for a location: nothing, less
    than a half, a half, more than a half. *)
Definition loc_code (l : location) : Z :=
  match l with
  | loc_Exact => 0
  | loc_Inexact Lt => 1
  | loc_Inexact Eq => 2
  | loc_Inexact Gt => 3
  end.

(** The sum of one channel over an image. *)
Definition channel_sum (channel : Pixel -> Z) (hsv : Image) : Z :=
  foldr Z.add 0 (map channel (concat hsv)).

(** An image of [rows] rows of [cols] pixels each. *)
Definition rectangular (rows cols : Z) (img : Image) : Prop :=
  Z.of_nat (length img) = rows /\ Forall (fun row => Z.of_nat (length row) = cols) img.

(* ===================================================================== *)
(** * Properties *)
(* ===================================================================== *)

(** ** Colour ranges of the equipment classifier *)

Lemma in_range_spec (l0 l1 l2 u0 u1 u2 p0 p1 p2 : Z) :
  in_range (l0, l1, l2) (u0, u1, u2) (p0, p1, p2) = true <->
  l0 <= p0 <= u0 /\ l1 <= p1 <= u1 /\ l2 <= p2 <= u2.
Proof.
  unfold in_range. rewrite !andb_true_iff, !Z.leb_le. lia.
Qed.

(** C4, as stated, fails: the pixel (0, 50, 50) lies in the rust range and
    in the dark range. *)
Lemma rust_oil_ranges_overlap :
  in_range rust_lower rust_upper (0, 50, 50) = true /\
  in_range oil_lower oil_upper (0, 50, 50) = true.
Proof. split; reflexivity. Qed.

(** C4, amended: a pixel lies in both the rust range and the dark range
    exactly when 0 <= h <= 20, 50 <= s <= 255 and v = 50; a pixel with
    v <> 50 lies in at most one of them. *)
Theorem rust_oil_ranges_meet_at_v50 (h s v : Z) :
  (in_range rust_lower rust_upper (h, s, v) = true /\
   in_range oil_lower oil_upper (h, s, v) = true)
  <-> (0 <= h <= 20 /\ 50 <= s <= 255 /\ v = 50).
Proof.
  unfold rust_lower, rust_upper, oil_lower, oil_upper.
  rewrite !in_range_spec. lia.
Qed.

(** ** The contour loops let through the contours above the minimum *)

Lemma rectangles_app (ds1 ds2 : list Draw) :
  rectangles (ds1 ++ ds2) = rectangles ds1 ++ rectangles ds2.
Proof. unfold rectangles. apply omap_app. Qed.

Lemma above_cons (min_area : Z) (c : Contour) (cs : list Contour) :
  above min_area (c :: cs) =
  if gtb_Z (contourArea c) min_area then c :: above min_area cs else above min_area cs.
Proof. reflexivity. Qed.

Lemma ore_contour_step (now : Timestamp) (entry : string * config.OreParams)
    (st : MiningCVSystem.state) (frame : Frame) (c : Contour) :
  exists text org,
  MiningCVSystem.ore_contour now (fst entry) (snd entry) (st, frame) c =
  if gtb_Z (contourArea c) 500 then
    (MiningCVSystem.append_detection st (detection_of now entry c),
     annotate (annotate frame (Rectangle (fst (corners c)) (snd (corners c)) green 2))
              (PutText text org green))
  else (st, frame).
Proof.
  unfold MiningCVSystem.ore_contour, corners, detection_of.
  destruct (boundingRect c) as [[[x y] w] h].
  eexists _, _. reflexivity.
Qed.

Lemma rectangles_annotate2 (frame : Frame) (pt1 pt2 : Z * Z) (color1 color2 : Color)
    (thickness : Z) (text : Label) (org : Z * Z) :
  rectangles (drawn (annotate (annotate frame (Rectangle pt1 pt2 color1 thickness))
                              (PutText text org color2))) =
  rectangles (drawn frame) ++ [(pt1, pt2)].
Proof.
  simpl. rewrite !rectangles_app. simpl. rewrite app_nil_r. reflexivity.
Qed.

Lemma ore_contour_loop (now : Timestamp) (entry : string * config.OreParams)
    (contours : list Contour) (st : MiningCVSystem.state) (frame : Frame) :
  let r := fold_left (MiningCVSystem.ore_contour now (fst entry) (snd entry))
                     contours (st, frame) in
  rectangles (drawn (snd r)) =
    rectangles (drawn frame) ++ map corners (above 500 contours) /\
  MiningCVSystem.detection_history (fst r) =
    fold_left (deque_append 1000) (map (detection_of now entry) (above 500 contours))
              (MiningCVSystem.detection_history st).
Proof.
  revert st frame. induction contours as [|c cs IH]; intros st frame; cbv zeta in *.
  - simpl. rewrite app_nil_r. auto.
  - rewrite above_cons. cbn [fold_left].
    destruct (ore_contour_step now entry st frame c) as (text & org & ->).
    destruct (gtb_Z (contourArea c) 500) eqn:Hc; [|apply IH].
    edestruct IH as [IH1 IH2]. rewrite IH1, IH2. clear IH IH1 IH2.
    rewrite rectangles_annotate2, <- app_assoc.
    cbn [map app]. rewrite <- surjective_pairing. split; reflexivity.
Qed.

Lemma ore_types_loop (cv : OpenCV) (now : Timestamp) (hsv : Image)
    (entries : list (string * config.OreParams))
    (st : MiningCVSystem.state) (frame : Frame) :
  let r := fold_left
    (fun acc (entry : string * config.OreParams) =>
       let '(ore_type, params) := entry in
       let mask := inRange hsv (fst (config.color_range params))
                               (snd (config.color_range params)) in
       let contours := findContours cv mask in
       fold_left (MiningCVSystem.ore_contour now ore_type params) contours acc)
    entries (st, frame) in
  rectangles (drawn (snd r)) =
    rectangles (drawn frame) ++
    flat_map (fun entry => map corners (above 500 (ore_contours cv hsv entry))) entries /\
  MiningCVSystem.detection_history (fst r) =
    fold_left (deque_append 1000)
      (flat_map (fun entry => map (detection_of now entry)
                                  (above 500 (ore_contours cv hsv entry))) entries)
      (MiningCVSystem.detection_history st).
Proof.
  revert st frame. induction entries as [|entry entries IH]; intros st frame; cbv zeta in *.
  - simpl. rewrite app_nil_r. auto.
  - cbn [fold_left flat_map].
    pose proof (ore_contour_loop now entry (ore_contours cv hsv entry) st frame) as H.
    cbv zeta in H. unfold ore_contours in H at 1 2. destruct entry as [ore_type params].
    cbn [fst snd] in H |- *.
    destruct (fold_left (MiningCVSystem.ore_contour now ore_type params) _ (st, frame))
      as [st1 frame1].
    cbn [fst snd] in H. destruct H as [H1 H2].
    destruct (IH st1 frame1) as [IH1 IH2].
    rewrite IH1, IH2, H1, H2, fold_left_app, <- app_assoc. auto.
Qed.

Lemma for_each_nil {A B} (body : A -> B -> option A) (a : A) :
  for_each body [] a = Some a.
Proof. reflexivity. Qed.

Lemma for_each_cons {A B} (body : A -> B -> option A) (x : B) (xs : list B) (a : A) :
  for_each body (x :: xs) a =
  match body a x with
  | Some a' => for_each body xs a'
  | None => None
  end.
Proof.
  unfold for_each. cbn [fold_left mbind option_bind].
  destruct (body a x) as [a'|]; [reflexivity|].
  induction xs as [|y ys IH]; [reflexivity|exact IH].
Qed.

Lemma assess_equipment_health_returns (cv : OpenCV) (roi : Image) :
  exists health, MiningCVSystem.assess_equipment_health cv roi = Some health.
Proof.
  unfold MiningCVSystem.assess_equipment_health, cvtColor_HSV.
  destruct (size roi =? 0); [eauto|]. cbn [mbind option_bind].
  repeat match goal with |- context [if ?b then _ else _] => destruct b end; eauto.
Qed.

Lemma equipment_contour_step (cv : OpenCV) (now : Timestamp)
    (st : MiningCVSystem.state) (frame : Frame) (c : Contour) :
  exists st1 color1 color2 text org,
  MiningCVSystem.equipment_contour cv now (st, frame) c =
  Some (if gtb_Z (contourArea c) 1000 then
          (st1, annotate (annotate frame (Rectangle (fst (corners c)) (snd (corners c))
                                                     color1 2))
                         (PutText text org color2))
        else (st, frame)).
Proof.
  unfold MiningCVSystem.equipment_contour, corners.
  destruct (boundingRect c) as [[[x y] w] h].
  destruct (gtb_Z (contourArea c) 1000).
  - destruct (assess_equipment_health_returns cv (slice2 (pixels cv frame) y (y + h) x (x + w)))
      as [health ->].
    cbn [mbind option_bind]. destruct health; eexists _, _, _, _, _; reflexivity.
  - exists st, green, green, SECURE, (0, 0). reflexivity.
Qed.

Lemma equipment_contour_loop (cv : OpenCV) (now : Timestamp)
    (contours : list Contour) (st : MiningCVSystem.state) (frame : Frame) :
  exists st' frame',
    for_each (MiningCVSystem.equipment_contour cv now) contours (st, frame)
      = Some (st', frame') /\
    rectangles (drawn frame') =
      rectangles (drawn frame) ++ map corners (above 1000 contours).
Proof.
  revert st frame. induction contours as [|c cs IH]; intros st frame.
  - exists st, frame. rewrite for_each_nil. simpl. rewrite app_nil_r. auto.
  - rewrite for_each_cons, above_cons.
    destruct (equipment_contour_step cv now st frame c)
      as (st1 & color1 & color2 & text & org & ->).
    destruct (gtb_Z (contourArea c) 1000); [|apply IH].
    edestruct IH as (st' & frame' & -> & Hr). exists st', frame'. split; [reflexivity|].
    rewrite Hr, rectangles_annotate2, <- app_assoc.
    cbn [map app]. rewrite <- surjective_pairing. reflexivity.
Qed.

Lemma motion_contour_step (min_area : Z) (motion : bool) (frame : Frame) (c : Contour) :
  exists text org,
  SmartSecurityMonitor.motion_contour min_area (motion, frame) c =
  if gtb_Z (contourArea c) min_area then
    (true, annotate (annotate frame (Rectangle (fst (corners c)) (snd (corners c)) green 2))
                    (PutText text org green))
  else (motion, frame).
Proof.
  unfold SmartSecurityMonitor.motion_contour, corners.
  destruct (boundingRect c) as [[[x y] w] h].
  eexists _, _. reflexivity.
Qed.

Lemma motion_contour_loop (min_area : Z) (contours : list Contour)
    (motion : bool) (frame : Frame) :
  let r := fold_left (SmartSecurityMonitor.motion_contour min_area) contours (motion, frame) in
  fst r = motion || negb (forallb (fun _ => false) (above min_area contours)) /\
  rectangles (drawn (snd r)) =
    rectangles (drawn frame) ++ map corners (above min_area contours).
Proof.
  revert motion frame. induction contours as [|c cs IH]; intros motion frame; cbv zeta in *.
  - simpl. rewrite app_nil_r, orb_false_r. auto.
  - rewrite above_cons. cbn [fold_left].
    destruct (motion_contour_step min_area motion frame c) as (text & org & ->).
    destruct (gtb_Z (contourArea c) min_area); [|apply IH].
    edestruct IH as [IH1 IH2]. rewrite IH1, IH2. clear IH IH1 IH2.
    rewrite rectangles_annotate2, <- app_assoc. cbn [map app forallb].
    rewrite <- surjective_pairing, orb_true_r. auto.
Qed.

(** C1, as stated, fails: a frame whose ore contour has area exactly 500.0
    (the minimum, which [is_contour_valid] would accept) yields no detection
    and no annotation. *)
Lemma area_equal_to_minimum_not_emitted :
  let img := filled 21 26 (10, 200, 200) in
  findContours plain_cv (inRange (BGR2HSV plain_cv img) (0, 50, 50) (20, 255, 255))
    = [contour_500] /\
  contourArea contour_500 = of_Z 500 /\
  leb (of_Z 500) (contourArea contour_500) = true /\
  utils.is_contour_valid contour_500 500 = true /\
  above 500 [contour_500] = [] /\
  MiningCVSystem.detect_ore plain_cv "12:00"%string MiningCVSystem.init (new_frame img)
    = Some (MiningCVSystem.init, new_frame img).
Proof. vm_compute. repeat split; reflexivity. Qed.

(** C1, amended: every contour loop lets through exactly the contours whose
    area is strictly greater than its minimum (500 for ore, 1000 for
    equipment, [min_area] for motion), each once and in the order of
    extraction: the rectangles drawn on the frame are those of these
    contours, the ore history receives their records, and motion is
    reported exactly when there is one.  An ore or equipment frame that is
    empty raises instead. *)
Theorem contour_loops_emit_above_minimum (cv : OpenCV) (now : Timestamp) (img : Image) :
  (forall st : MiningCVSystem.state,
     match MiningCVSystem.detect_ore cv now st (new_frame img) with
     | Some (st', frame') =>
         rectangles (drawn frame') =
           flat_map (fun entry => map corners (above 500 (ore_contours cv (BGR2HSV cv img) entry)))
                    MiningCVSystem.ore_types /\
         MiningCVSystem.detection_history st' =
           fold_left (deque_append 1000)
             (flat_map (fun entry => map (detection_of now entry)
                                         (above 500 (ore_contours cv (BGR2HSV cv img) entry)))
                       MiningCVSystem.ore_types)
             (MiningCVSystem.detection_history st)
     | None => size img = 0
     end) /\
  (forall st : MiningCVSystem.state,
     match MiningCVSystem.monitor_equipment cv now st (new_frame img) with
     | Some (st', frame') =>
         rectangles (drawn frame') =
           map corners (above 1000 (findContours cv (Canny_50_150 cv (BGR2GRAY cv img))))
     | None => size img = 0
     end) /\
  (forall st : SmartSecurityMonitor.state,
     let st' := SmartSecurityMonitor.process_one cv now st img in
     match SmartSecurityMonitor.background_frame st with
     | Some background =>
         let emitted :=
           above (SmartSecurityMonitor.min_area st)
             (findContours cv
                (SmartSecurityMonitor.motion_mask background
                   (SmartSecurityMonitor.blurred_gray cv img)
                   (SmartSecurityMonitor.sensitivity st))) in
         SmartSecurityMonitor.motion_detected st' = negb (forallb (fun _ => false) emitted) /\
         exists frame',
           SmartSecurityMonitor.video_label st' = Some frame' /\
           rectangles (drawn frame') = map corners emitted
     | None =>
         SmartSecurityMonitor.video_label st' = SmartSecurityMonitor.video_label st /\
         SmartSecurityMonitor.motion_detected st' = SmartSecurityMonitor.motion_detected st
     end).
Proof.
  split; [|split]; intros st.
  - unfold MiningCVSystem.detect_ore, cvtColor_HSV, pixels. cbn [new_frame drawn captured fold_left].
    destruct (size img =? 0) eqn:Hs; cbn [mbind option_bind]; [lia|].
    pose proof (ore_types_loop cv now (BGR2HSV cv img) MiningCVSystem.ore_types st
                  (new_frame img)) as H.
    cbv zeta in H.
    destruct (fold_left _ MiningCVSystem.ore_types (st, new_frame img)) as [st' frame'].
    exact H.
  - unfold MiningCVSystem.monitor_equipment, cvtColor_GRAY, pixels.
    cbn [new_frame drawn captured fold_left].
    destruct (size img =? 0) eqn:Hs; cbn [mbind option_bind]; [lia|].
    destruct (equipment_contour_loop cv now
                (findContours cv (Canny_50_150 cv (BGR2GRAY cv img))) st (new_frame img))
      as (st' & frame' & -> & Hr).
    exact Hr.
  - cbv zeta. unfold SmartSecurityMonitor.process_one.
    destruct (SmartSecurityMonitor.background_frame st) as [background|]; [|split; reflexivity].
    unfold SmartSecurityMonitor.detect_motion.
    pose proof (motion_contour_loop (SmartSecurityMonitor.min_area st)
                  (findContours cv
                     (SmartSecurityMonitor.motion_mask background
                        (SmartSecurityMonitor.blurred_gray cv img)
                        (SmartSecurityMonitor.sensitivity st)))
                  false (new_frame (flip_horizontal cv img))) as H.
    cbv zeta in H.
    destruct (fold_left _ _ (false, new_frame (flip_horizontal cv img))) as [motion frame'].
    cbn [fst snd] in H. destruct H as [H1 H2].
    cbn [SmartSecurityMonitor.motion_detected SmartSecurityMonitor.video_label].
    split; [exact H1|]. eexists. split; [reflexivity|].
    unfold SmartSecurityMonitor.add_status_overlay. cbn [annotate drawn captured].
    rewrite !rectangles_app, H2. cbn. rewrite !app_nil_r. reflexivity.
Qed.

(** ** Failed camera reads *)

(** C2, as stated, fails for the security monitor: after a failed read its
    loop has ended, and the frame that follows is never processed. *)
Lemma security_loop_ends_at_failed_read :
  let img := filled 2 2 (1, 2, 3) in
  SmartSecurityMonitor.process_video plain_cv
    [("t0"%string, None); ("t1"%string, Some img)] SmartSecurityMonitor.init
    = SmartSecurityMonitor.init /\
  SmartSecurityMonitor.process_video plain_cv
    [("t1"%string, Some img)] SmartSecurityMonitor.init
    <> SmartSecurityMonitor.init.
Proof. split; [reflexivity|discriminate]. Qed.

(** C2, amended: in the mining system's processing loop a failed read is
    skipped and the loop goes on with the reads that follow; in the security
    monitor's video loop a failed read ends the loop, whatever follows. *)
Theorem failed_read_skipped_or_final (cv : OpenCV) (now : Timestamp)
    (before after : list (Timestamp * option Image)) :
  (forall st : MiningCVSystem.state,
     MiningCVSystem.process_frames cv (before ++ (now, None) :: after) st =
     MiningCVSystem.process_frames cv (before ++ after) st) /\
  (forall st : SmartSecurityMonitor.state,
     SmartSecurityMonitor.process_video cv (before ++ (now, None) :: after) st =
     SmartSecurityMonitor.process_video cv before st).
Proof.
  split; induction before as [|[t [frame|]] before IH]; intros st; cbn; auto.
  - destruct (MiningCVSystem.process_frame cv t st (new_frame frame)) as [[st1 processed]|];
      cbn; auto.
Qed.

(** ** Histories *)

Lemma deque_append_length {A} (maxlen : nat) (d : list A) (x : A) :
  length (deque_append maxlen d x) = Nat.min (S (length d)) maxlen.
Proof.
  unfold deque_append. rewrite length_drop, !length_app. cbn [length]. lia.
Qed.

(** Appending to a full deque drops its oldest entry. *)
Lemma deque_append_full {A} (maxlen : nat) (oldest : A) (d : list A) (x : A) :
  length (oldest :: d) = maxlen ->
  deque_append maxlen (oldest :: d) x = d ++ [x].
Proof.
  intros H. unfold deque_append. rewrite length_app, H. simpl length.
  replace (maxlen + 1 - maxlen)%nat with 1%nat by lia. reflexivity.
Qed.

Lemma deque_fold_bounded {A} (maxlen : nat) (xs d : list A) :
  (length d <= maxlen)%nat ->
  (length (fold_left (deque_append maxlen) xs d) <= maxlen)%nat.
Proof.
  revert d. induction xs as [|x xs IH]; intros d Hd; simpl; [exact Hd|].
  apply IH. rewrite deque_append_length. lia.
Qed.

Lemma for_each_invariant {A B} (P : A -> Prop) (body : A -> B -> option A)
    (items : list B) (a a' : A) :
  (forall a x a', P a -> body a x = Some a' -> P a') ->
  P a -> for_each body items a = Some a' -> P a'.
Proof.
  intros Hbody. revert a. induction items as [|x xs IH]; intros a Ha.
  - rewrite for_each_nil. congruence.
  - rewrite for_each_cons. destruct (body a x) as [a1|] eqn:Hb; [|discriminate].
    apply IH. eapply Hbody; eauto.
Qed.

Lemma face_step_detection_history (cv : OpenCV) (now : Timestamp)
    (acc acc' : MiningCVSystem.state * Frame) (face : Rect) :
  MiningCVSystem.face_step cv now acc face = Some acc' ->
  MiningCVSystem.detection_history (fst acc') = MiningCVSystem.detection_history (fst acc).
Proof.
  destruct acc as [st frame], face as [[[x y] w] h]. unfold MiningCVSystem.face_step.
  destruct (20 <? y); [|intros [= <-]; reflexivity].
  destruct (MiningCVSystem.detect_helmet cv _) as [[|]|]; cbn; intros [= <-]; reflexivity.
Qed.

Lemma equipment_contour_detection_history (cv : OpenCV) (now : Timestamp)
    (acc acc' : MiningCVSystem.state * Frame) (c : Contour) :
  MiningCVSystem.equipment_contour cv now acc c = Some acc' ->
  MiningCVSystem.detection_history (fst acc') = MiningCVSystem.detection_history (fst acc).
Proof.
  destruct acc as [st frame]. unfold MiningCVSystem.equipment_contour.
  destruct (gtb_Z (contourArea c) 1000); [|intros [= <-]; reflexivity].
  destruct (boundingRect c) as [[[x y] w] h].
  destruct (MiningCVSystem.assess_equipment_health cv _) as [[| | |]|]; cbn;
    intros [= <-]; reflexivity.
Qed.

Lemma process_frame_detection_history (cv : OpenCV) (now : Timestamp)
    (st st' : MiningCVSystem.state) (frame frame' : Frame) :
  MiningCVSystem.process_frame cv now st frame = Some (st', frame') ->
  (length (MiningCVSystem.detection_history st) <= 1000)%nat ->
  (length (MiningCVSystem.detection_history st') <= 1000)%nat.
Proof.
  unfold MiningCVSystem.process_frame. intros H Hlen.
  destruct (MiningCVSystem.current_module st).
  - unfold MiningCVSystem.detect_ore in H.
    destruct (cvtColor_HSV cv (pixels cv frame)) as [hsv|]; [|discriminate].
    cbn [mbind option_bind] in H.
    pose proof (ore_types_loop cv now hsv MiningCVSystem.ore_types st frame) as Hl.
    cbv zeta in Hl.
    destruct (fold_left _ MiningCVSystem.ore_types (st, frame)) as [st1 frame1].
    destruct Hl as [_ Hh]. injection H as <- _. cbn [fst] in Hh. rewrite Hh.
    apply deque_fold_bounded, Hlen.
  - unfold MiningCVSystem.monitor_safety in H.
    destruct (cvtColor_GRAY cv (pixels cv frame)) as [gray|]; [|discriminate].
    cbn [mbind option_bind] in H.
    eapply (for_each_invariant
              (fun a => length (MiningCVSystem.detection_history (fst a)) <= 1000)%nat)
      in H; [exact H| |exact Hlen].
    intros a x a' Ha Hb. rewrite (face_step_detection_history _ _ _ _ _ Hb). exact Ha.
  - unfold MiningCVSystem.monitor_equipment in H.
    destruct (cvtColor_GRAY cv (pixels cv frame)) as [gray|]; [|discriminate].
    cbn [mbind option_bind] in H.
    eapply (for_each_invariant
              (fun a => length (MiningCVSystem.detection_history (fst a)) <= 1000)%nat)
      in H; [exact H| |exact Hlen].
    intros a x a' Ha Hb. rewrite (equipment_contour_detection_history _ _ _ _ _ Hb). exact Ha.
  - unfold MiningCVSystem.monitor_environment in H.
    destruct (cvtColor_HSV cv (pixels cv frame)) as [hsv|]; [|discriminate].
    cbn [mbind option_bind] in H.
    destruct (MiningCVSystem.detect_gas cv (pixels cv frame)) as [[|]|]; [| |discriminate];
      cbn [mbind option_bind] in H; injection H as <- _; exact Hlen.
  - injection H as <- _. exact Hlen.
Qed.

(** The ore history never holds more than 1000 records. *)
Lemma process_frames_detection_history (cv : OpenCV) (reads : list MiningCVSystem.Read)
    (st st' : MiningCVSystem.state) :
  MiningCVSystem.process_frames cv reads st = Some st' ->
  (length (MiningCVSystem.detection_history st) <= 1000)%nat ->
  (length (MiningCVSystem.detection_history st') <= 1000)%nat.
Proof.
  revert st. induction reads as [|[now [img|]] reads IH]; intros st H Hlen; cbn in H.
  - congruence.
  - destruct (MiningCVSystem.process_frame cv now st (new_frame img))
      as [[st1 processed]|] eqn:Hp; [|discriminate].
    cbn in H. apply IH in H; [exact H|]. cbn.
    eapply process_frame_detection_history; eauto.
  - eauto.
Qed.

Lemma helmetless_frame_logs_violation (now : Timestamp) (st : MiningCVSystem.state) :
  MiningCVSystem.current_module st = MiningCVSystem.safety_monitoring ->
  exists v frame',
    MiningCVSystem.process_frame one_face_cv now st (new_frame (filled 22 1 (0, 0, 0)))
    = Some (MiningCVSystem.append_violation st v, frame').
Proof.
  intros Hm. unfold MiningCVSystem.process_frame. rewrite Hm.
  eexists _, _. vm_compute. reflexivity.
Qed.

Lemma rusty_frame_logs_alert (now : Timestamp) (st : MiningCVSystem.state) :
  MiningCVSystem.current_module st = MiningCVSystem.equipment_monitoring ->
  exists a frame',
    MiningCVSystem.process_frame plain_cv now st (new_frame (filled 27 41 (10, 200, 200)))
    = Some (MiningCVSystem.append_alert st a, frame').
Proof.
  intros Hm. unfold MiningCVSystem.process_frame. rewrite Hm.
  eexists _, _. vm_compute. reflexivity.
Qed.

Lemma gray_frame_logs_gas (now : Timestamp) (st : MiningCVSystem.state) :
  MiningCVSystem.current_module st = MiningCVSystem.environmental_monitoring ->
  exists e frame',
    MiningCVSystem.process_frame plain_cv now st (new_frame (filled 1 1 (0, 0, 0)))
    = Some (MiningCVSystem.append_env st e, frame').
Proof.
  intros Hm. unfold MiningCVSystem.process_frame. rewrite Hm.
  eexists _, _. vm_compute. reflexivity.
Qed.

Lemma process_frames_grows {X} (cv : OpenCV) (img : Image)
    (history : MiningCVSystem.state -> list X)
    (append : MiningCVSystem.state -> X -> MiningCVSystem.state)
    (selected : MiningCVSystem.ModuleName) :
  (forall now st, MiningCVSystem.current_module st = selected ->
     exists x frame',
       MiningCVSystem.process_frame cv now st (new_frame img) = Some (append st x, frame')) ->
  (forall st x, MiningCVSystem.current_module (append st x) = MiningCVSystem.current_module st) ->
  (forall st x, length (history (append st x)) = S (length (history st))) ->
  (forall st frame, history (MiningCVSystem.display_frame st frame) = history st) ->
  forall (n : nat) (now : Timestamp) (st : MiningCVSystem.state),
    MiningCVSystem.current_module st = selected ->
    exists st',
      MiningCVSystem.process_frames cv (replicate n (now, Some img)) st = Some st' /\
      length (history st') = (length (history st) + n)%nat.
Proof.
  intros Hstep Hmod Hlen Hdisp n now. induction n as [|n IH]; intros st Hm.
  - exists st. split; [reflexivity|lia].
  - destruct (Hstep now st Hm) as (x & frame' & Hp).
    cbn [replicate MiningCVSystem.process_frames]. rewrite Hp. cbn [mbind option_bind].
    destruct (IH (MiningCVSystem.display_frame (append st x) frame')) as (st' & Hr & Hl).
    + cbn. rewrite Hmod. exact Hm.
    + exists st'. split; [exact Hr|]. rewrite Hl, Hdisp, Hlen. lia.
Qed.

(** C3: the ore history is a deque of at most 1000 records, whatever the
    loop reads, and appending to it at capacity drops the oldest record; the
    safety-violation, equipment-alert and environmental
    histories are plain lists, and each holds [n] records after [n] frames
    that show a bare head, a rusty machine or a gray scene: no record is
    ever evicted from them. *)
Theorem only_ore_history_is_bounded :
  (forall (oldest : MiningCVSystem.Detection) (d : list MiningCVSystem.Detection)
          (x : MiningCVSystem.Detection),
     length (oldest :: d) = 1000%nat -> deque_append 1000 (oldest :: d) x = d ++ [x]) /\
  (forall (cv : OpenCV) (reads : list MiningCVSystem.Read)
          (selected : MiningCVSystem.ModuleName),
     match MiningCVSystem.process_frames cv reads
             (MiningCVSystem.on_module_change MiningCVSystem.init selected) with
     | Some st' => (length (MiningCVSystem.detection_history st') <= 1000)%nat
     | None => True
     end) /\
  (forall (n : nat) (now : Timestamp),
     exists st',
       MiningCVSystem.process_frames one_face_cv
         (replicate n (now, Some (filled 22 1 (0, 0, 0))))
         (MiningCVSystem.on_module_change MiningCVSystem.init
            MiningCVSystem.safety_monitoring) = Some st' /\
       length (MiningCVSystem.safety_violations st') = n) /\
  (forall (n : nat) (now : Timestamp),
     exists st',
       MiningCVSystem.process_frames plain_cv
         (replicate n (now, Some (filled 27 41 (10, 200, 200))))
         (MiningCVSystem.on_module_change MiningCVSystem.init
            MiningCVSystem.equipment_monitoring) = Some st' /\
       length (MiningCVSystem.equipment_alerts st') = n) /\
  (forall (n : nat) (now : Timestamp),
     exists st',
       MiningCVSystem.process_frames plain_cv
         (replicate n (now, Some (filled 1 1 (0, 0, 0))))
         (MiningCVSystem.on_module_change MiningCVSystem.init
            MiningCVSystem.environmental_monitoring) = Some st' /\
       length (MiningCVSystem.environmental_data st') = n).
Proof.
  split; [|split; [|split; [|split]]].
  - intros oldest d x. apply deque_append_full.
  - intros cv reads selected.
    destruct (MiningCVSystem.process_frames cv reads _) as [st'|] eqn:H; [|exact I].
    eapply process_frames_detection_history; [exact H|]. cbn. lia.
  - intros n now.
    apply (process_frames_grows one_face_cv _ MiningCVSystem.safety_violations
             MiningCVSystem.append_violation MiningCVSystem.safety_monitoring);
      try reflexivity.
    + intros; apply helmetless_frame_logs_violation; assumption.
    + intros st x. cbn. rewrite length_app. cbn. lia.
  - intros n now.
    apply (process_frames_grows plain_cv _ MiningCVSystem.equipment_alerts
             MiningCVSystem.append_alert MiningCVSystem.equipment_monitoring);
      try reflexivity.
    + intros; apply rusty_frame_logs_alert; assumption.
    + intros st x. cbn. rewrite length_app. cbn. lia.
  - intros n now.
    apply (process_frames_grows plain_cv _ MiningCVSystem.environmental_data
             MiningCVSystem.append_env MiningCVSystem.environmental_monitoring);
      try reflexivity.
    + intros; apply gray_frame_logs_gas; assumption.
    + intros st x. cbn. rewrite length_app. cbn. lia.
Qed.

(** ** The background reference *)

Lemma process_video_snoc (cv : OpenCV) (frames : list (Timestamp * Image))
    (now : Timestamp) (img : Image) (st : SmartSecurityMonitor.state) :
  SmartSecurityMonitor.process_video cv (successful (frames ++ [(now, img)])) st =
  SmartSecurityMonitor.process_one cv now
    (SmartSecurityMonitor.process_video cv (successful frames) st) img.
Proof.
  revert st. induction frames as [|[t i] frames IH]; intros st; cbn; [reflexivity|].
  apply IH.
Qed.

Lemma process_one_background (cv : OpenCV) (now : Timestamp)
    (st : SmartSecurityMonitor.state) (img : Image) :
  let st' := SmartSecurityMonitor.process_one cv now st img in
  match SmartSecurityMonitor.background_frame st with
  | Some background =>
      SmartSecurityMonitor.frame_count st' = SmartSecurityMonitor.frame_count st + 1 /\
      SmartSecurityMonitor.background_frame st' =
        Some (if (SmartSecurityMonitor.frame_count st + 1) mod 30 =? 0
              then SmartSecurityMonitor.blurred_gray cv img else background)
  | None =>
      SmartSecurityMonitor.frame_count st' = SmartSecurityMonitor.frame_count st /\
      SmartSecurityMonitor.background_frame st' =
        Some (SmartSecurityMonitor.blurred_gray cv img)
  end.
Proof.
  cbv zeta. unfold SmartSecurityMonitor.process_one.
  destruct (SmartSecurityMonitor.background_frame st) as [background|]; [|split; reflexivity].
  destruct (SmartSecurityMonitor.detect_motion cv st background _ _) as [motion frame].
  split; reflexivity.
Qed.

Lemma last_multiple_of_30 (k : Z) :
  0 <= k ->
  30 * ((k + 1) / 30) = if (k + 1) mod 30 =? 0 then k + 1 else 30 * (k / 30).
Proof.
  intros Hk. destruct ((k + 1) mod 30 =? 0) eqn:E.
  - apply Z.eqb_eq in E. pose proof (Z.div_mod (k + 1) 30). lia.
  - apply Z.eqb_neq in E.
    pose proof (Z.div_mod (k + 1) 30). pose proof (Z.div_mod k 30).
    pose proof (Z.mod_pos_bound (k + 1) 30). pose proof (Z.mod_pos_bound k 30).
    assert (k / 30 = (k + 1) / 30); [|lia].
    assert (30 * (k / 30) <= k + 1 < 30 * (k / 30) + 30) by lia.
    assert (30 * ((k + 1) / 30) <= k < 30 * ((k + 1) / 30) + 30) by lia.
    lia.
Qed.

(** C5: a processed frame replaces the background reference exactly when
    the frame counter, once incremented, is a multiple of 30, and leaves it
    unchanged otherwise; starting from the initial state, after the frame
    that initialises the reference and [k] further frames the reference is
    the blurred gray version of frame number [30 * (k / 30)] of the run (the
    initialising frame has number 0): the frame processed at the last
    30-frame boundary. *)
Theorem background_replaced_every_30th_frame (cv : OpenCV)
    (st : SmartSecurityMonitor.state)
    (first : Timestamp * Image) (rest : list (Timestamp * Image)) :
  SmartSecurityMonitor.background_frame st = None ->
  SmartSecurityMonitor.frame_count st = 0 ->
  (forall now st0 img background,
     SmartSecurityMonitor.background_frame st0 = Some background ->
     SmartSecurityMonitor.background_frame (SmartSecurityMonitor.process_one cv now st0 img) =
       Some (if (SmartSecurityMonitor.frame_count st0 + 1) mod 30 =? 0
             then SmartSecurityMonitor.blurred_gray cv img else background)) /\
  let st' := SmartSecurityMonitor.process_video cv (successful (first :: rest)) st in
  let k := Z.of_nat (length rest) in
  SmartSecurityMonitor.frame_count st' = k /\
  SmartSecurityMonitor.background_frame st' =
    (fun r => SmartSecurityMonitor.blurred_gray cv (snd r)) <$>
      ((first :: rest) !! Z.to_nat (30 * (k / 30))).
Proof.
  intros Hbg Hcount. split.
  - intros now st0 img background H0.
    pose proof (process_one_background cv now st0 img) as H. cbv zeta in H.
    rewrite H0 in H. apply H.
  - cbv zeta. induction rest as [|[now img] rest IH] using rev_ind.
    + destruct first as [now img]. cbn.
      pose proof (process_one_background cv now st img) as H. cbv zeta in H.
      rewrite Hbg in H. destruct H as [H1 H2]. rewrite H1, H2. auto.
    + destruct IH as [IHc IHb].
      rewrite app_comm_cons, process_video_snoc.
      set (st1 := SmartSecurityMonitor.process_video cv (successful (first :: rest)) st) in *.
      pose proof (process_one_background cv now st1 img) as H. cbv zeta in H.
      rewrite IHb in H.
      assert (Hk : (Z.to_nat (30 * (Z.of_nat (length rest) / 30)) < length (first :: rest))%nat).
      { pose proof (Z.div_mod (Z.of_nat (length rest)) 30).
        pose proof (Z.mod_pos_bound (Z.of_nat (length rest)) 30). cbn [length]. lia. }
      destruct (lookup_lt_is_Some_2 _ _ Hk) as [r Hr]. rewrite Hr in H.
      cbn [fmap option_fmap option_map] in H. destruct H as [H1 H2].
      rewrite H1, H2, IHc, length_app. cbn [length].
      replace (Z.of_nat (length rest + 1)) with (Z.of_nat (length rest) + 1) by lia.
      split; [reflexivity|].
      rewrite last_multiple_of_30 by lia.
      destruct ((Z.of_nat (length rest) + 1) mod 30 =? 0).
      * replace (Z.to_nat (Z.of_nat (length rest) + 1)) with (length (first :: rest))
          by (cbn [length]; lia).
        rewrite list_lookup_middle by reflexivity. reflexivity.
      * rewrite lookup_app_l by exact Hk. rewrite Hr. reflexivity.
Qed.

(** 31 frames, numbered by their green level: the reference ends as frame
    number 30. *)
Lemma background_after_30_frames_example :
  let frame := fun i : nat => ("t"%string, filled 1 1 (0, Z.of_nat i, 0)) in
  let st' := SmartSecurityMonitor.process_video plain_cv
               (successful (frame 0%nat :: map frame (seq 1 30)))
               SmartSecurityMonitor.init in
  SmartSecurityMonitor.background_frame SmartSecurityMonitor.init = None /\
  SmartSecurityMonitor.frame_count SmartSecurityMonitor.init = 0 /\
  SmartSecurityMonitor.frame_count st' = 30 /\
  SmartSecurityMonitor.background_frame st' = Some [[30]].
Proof.
  intros frame st'.
  split; [reflexivity|]. split; [reflexivity|].
  exact (proj2 (background_replaced_every_30th_frame plain_cv SmartSecurityMonitor.init
                  (frame 0%nat) (map frame (seq 1 30)) eq_refl eq_refl)).
Defined.

(** ** Motion events *)

Lemma process_one_motion (cv : OpenCV) (now : Timestamp)
    (st : SmartSecurityMonitor.state) (img : Image) :
  let st' := SmartSecurityMonitor.process_one cv now st img in
  match frame_motion cv st img with
  | Some motion =>
      let rising := motion && negb (SmartSecurityMonitor.motion_detected st) in
      SmartSecurityMonitor.motion_detected st' = motion /\
      SmartSecurityMonitor.total_detections st' =
        SmartSecurityMonitor.total_detections st + (if rising then 1 else 0) /\
      SmartSecurityMonitor.events_log st' =
        SmartSecurityMonitor.events_log st ++
        (if rising then
           [{| SmartSecurityMonitor.ev_timestamp := now;
               SmartSecurityMonitor.ev_type := "Motion Detected";
               SmartSecurityMonitor.ev_description :=
                 SmartSecurityMonitor.detection_count st + 1 |}]
         else [])
  | None =>
      SmartSecurityMonitor.motion_detected st' = SmartSecurityMonitor.motion_detected st /\
      SmartSecurityMonitor.total_detections st' = SmartSecurityMonitor.total_detections st /\
      SmartSecurityMonitor.events_log st' = SmartSecurityMonitor.events_log st
  end.
Proof.
  cbv zeta. unfold frame_motion, SmartSecurityMonitor.process_one.
  destruct (SmartSecurityMonitor.background_frame st) as [background|]; [|auto].
  destruct (SmartSecurityMonitor.detect_motion cv st background _ _) as [motion frame].
  cbn [fst SmartSecurityMonitor.motion_detected SmartSecurityMonitor.total_detections
       SmartSecurityMonitor.events_log].
  destruct (motion && negb (SmartSecurityMonitor.motion_detected st));
    rewrite ?Z.add_0_r, ?app_nil_r; auto.
Qed.

Lemma process_video_cons (cv : OpenCV) (now : Timestamp) (img : Image)
    (frames : list (Timestamp * Image)) (st : SmartSecurityMonitor.state) :
  SmartSecurityMonitor.process_video cv (successful ((now, img) :: frames)) st =
  SmartSecurityMonitor.process_video cv (successful frames)
    (SmartSecurityMonitor.process_one cv now st img).
Proof. reflexivity. Qed.

Lemma unbroken_motion_cons (cv : OpenCV) (now : Timestamp) (img : Image)
    (frames : list (Timestamp * Image)) (st : SmartSecurityMonitor.state) :
  unbroken_motion cv st ((now, img) :: frames) =
  match frame_motion cv st img with
  | Some true => unbroken_motion cv (SmartSecurityMonitor.process_one cv now st img) frames
  | _ => false
  end.
Proof. reflexivity. Qed.

(** Once motion is on, further frames with motion add no event. *)
Lemma motion_continues (cv : OpenCV) (frames : list (Timestamp * Image))
    (st : SmartSecurityMonitor.state) :
  SmartSecurityMonitor.motion_detected st = true ->
  unbroken_motion cv st frames = true ->
  let st' := SmartSecurityMonitor.process_video cv (successful frames) st in
  SmartSecurityMonitor.total_detections st' = SmartSecurityMonitor.total_detections st /\
  SmartSecurityMonitor.events_log st' = SmartSecurityMonitor.events_log st.
Proof.
  revert st. induction frames as [|[now img] frames IH]; intros st Hm Hrun; [cbn; auto|].
  cbv zeta. rewrite process_video_cons. rewrite unbroken_motion_cons in Hrun.
  pose proof (process_one_motion cv now st img) as H. cbv zeta in H.
  destruct (frame_motion cv st img) as [[|]|]; try discriminate.
  destruct H as (H1 & H2 & H3). rewrite Hm in H2, H3. cbn in H2, H3.
  destruct (IH _ H1 Hrun) as [IH1 IH2]. cbv zeta in IH1, IH2.
  rewrite IH1, IH2, H2, H3, Z.add_0_r, app_nil_r. auto.
Qed.

(** C8: a processed frame increments the detection counter, and logs one
    event, exactly when it shows motion and the previous processed frame did
    not; a run of consecutive frames with motion that starts without motion
    adds exactly one to the counter and exactly one event to the log. *)
Theorem detections_count_rising_edges (cv : OpenCV) (st : SmartSecurityMonitor.state)
    (first : Timestamp * Image) (rest : list (Timestamp * Image)) :
  SmartSecurityMonitor.motion_detected st = false ->
  unbroken_motion cv st (first :: rest) = true ->
  (forall now st0 img motion,
     frame_motion cv st0 img = Some motion ->
     let st1 := SmartSecurityMonitor.process_one cv now st0 img in
     let rising := motion && negb (SmartSecurityMonitor.motion_detected st0) in
     SmartSecurityMonitor.motion_detected st1 = motion /\
     SmartSecurityMonitor.total_detections st1 =
       SmartSecurityMonitor.total_detections st0 + (if rising then 1 else 0) /\
     length (SmartSecurityMonitor.events_log st1) =
       (length (SmartSecurityMonitor.events_log st0) + (if rising then 1 else 0))%nat) /\
  let st' := SmartSecurityMonitor.process_video cv (successful (first :: rest)) st in
  SmartSecurityMonitor.total_detections st' = SmartSecurityMonitor.total_detections st + 1 /\
  exists event, SmartSecurityMonitor.events_log st' =
                SmartSecurityMonitor.events_log st ++ [event].
Proof.
  intros Hm Hrun. split.
  - intros now st0 img motion H0.
    pose proof (process_one_motion cv now st0 img) as H. cbv zeta in H |- *.
    rewrite H0 in H. destruct H as (H1 & H2 & H3). rewrite H1, H2, H3, length_app.
    destruct (motion && negb (SmartSecurityMonitor.motion_detected st0)); auto.
  - destruct first as [now img]. cbv zeta.
    rewrite process_video_cons. rewrite unbroken_motion_cons in Hrun.
    pose proof (process_one_motion cv now st img) as H. cbv zeta in H.
    destruct (frame_motion cv st img) as [[|]|]; try discriminate.
    destruct H as (H1 & H2 & H3). rewrite Hm in H2, H3. cbn in H2, H3.
    destruct (motion_continues cv rest _ H1 Hrun) as [R1 R2]. cbv zeta in R1, R2.
    rewrite R1, R2, H2, H3. eauto.
Qed.

(** A dark background, then two bright frames: one detection, one event. *)
Lemma two_frames_of_motion_example :
  let dark := filled 40 40 (0, 0, 0) in
  let bright := filled 40 40 (0, 200, 0) in
  let st := SmartSecurityMonitor.process_one plain_cv "t0" SmartSecurityMonitor.init dark in
  let st' := SmartSecurityMonitor.process_video plain_cv
               (successful [("t1"%string, bright); ("t2"%string, bright)]) st in
  SmartSecurityMonitor.motion_detected st = false /\
  unbroken_motion plain_cv st [("t1"%string, bright); ("t2"%string, bright)] = true /\
  SmartSecurityMonitor.total_detections st' = SmartSecurityMonitor.total_detections st + 1 /\
  exists event, SmartSecurityMonitor.events_log st' =
                SmartSecurityMonitor.events_log st ++ [event].
Proof.
  intros dark bright st st'.
  assert (Hrun : unbroken_motion plain_cv st [("t1"%string, bright); ("t2"%string, bright)]
                 = true) by (vm_compute; reflexivity).
  split; [reflexivity|]. split; [exact Hrun|].
  exact (proj2 (detections_count_rising_edges plain_cv st ("t1"%string, bright)
                  [("t2"%string, bright)] eq_refl Hrun)).
Defined.

(** ** Identical frames *)

Lemma absdiff_self (g : Gray) : all_zero (absdiff g g).
Proof.
  unfold all_zero, absdiff. induction g as [|row g IH]; cbn; constructor; [|exact IH].
  clear. induction row as [|v row IH]; cbn; constructor; [lia|exact IH].
Qed.

Lemma threshold_all_zero (src : Gray) (thresh : Z) :
  0 <= thresh -> all_zero src -> all_zero (threshold src thresh).
Proof.
  intros Ht Hz. unfold all_zero, threshold.
  apply Forall_fmap. eapply Forall_impl; [exact Hz|]. intros row Hrow. cbn.
  apply Forall_fmap. eapply Forall_impl; [exact Hrow|]. intros v ->. cbn.
  destruct (thresh <? 0) eqn:E; [lia|reflexivity].
Qed.

Lemma pixel_at_all_zero (img : Gray) (r c v : Z) :
  all_zero img -> pixel_at img r c = Some v -> v = 0.
Proof.
  intros Hz. unfold pixel_at. destruct ((0 <=? r) && (0 <=? c)); [|discriminate].
  destruct (img !! Z.to_nat r) as [row|] eqn:Hr; [|discriminate]. cbn.
  intros Hc. unfold all_zero in Hz. rewrite Forall_lookup in Hz.
  specialize (Hz _ _ Hr). rewrite Forall_lookup in Hz. exact (Hz _ _ Hc).
Qed.

Lemma under_kernel_all_zero (kernel : list (Z * Z)) (img : Gray) (r c : Z) :
  all_zero img -> Forall (fun v => v = 0) (under_kernel kernel img r c).
Proof.
  intros Hz. apply Forall_forall. intros v Hv. unfold under_kernel in Hv.
  apply list_elem_of_omap in Hv as (d & _ & Hd). eapply pixel_at_all_zero; eauto.
Qed.

(** The anchor of the 3x3 ellipse lies under the kernel. *)
Lemma under_ellipse_nonempty (img : Gray) (r c : nat) (row : list Z) (v : Z) :
  img !! r = Some row -> row !! c = Some v ->
  v ∈ under_kernel MORPH_ELLIPSE_3x3 img (Z.of_nat r) (Z.of_nat c).
Proof.
  intros Hr Hc. unfold under_kernel. apply list_elem_of_omap.
  exists (0, 0). split; [unfold MORPH_ELLIPSE_3x3; set_solver|].
  unfold pixel_at. cbn [fst snd]. rewrite !Z.add_0_r.
  replace ((0 <=? Z.of_nat r) && (0 <=? Z.of_nat c)) with true
    by (symmetry; apply andb_true_iff; split; apply Z.leb_le; lia).
  rewrite !Nat2Z.id, Hr. cbn. exact Hc.
Qed.

Lemma foldr_max_zeros (l : list Z) : Forall (fun v => v = 0) l -> foldr Z.max 0 l = 0.
Proof. induction 1 as [|v l -> _ IH]; cbn; [reflexivity|]. rewrite IH. reflexivity. Qed.

Lemma foldr_min_zeros (l : list Z) (v : Z) :
  v ∈ l -> Forall (fun v => v = 0) l -> foldr Z.min 255 l = 0.
Proof.
  intros Hin Hz. destruct Hz as [|w l -> Hl]; [inversion Hin|]. cbn.
  assert (0 <= foldr Z.min 255 l); [|lia].
  clear Hin. induction Hl as [|u l -> _ IH]; cbn; lia.
Qed.

Lemma morph_all_zero (combine : Z -> Z -> Z) (border : Z) (kernel : list (Z * Z))
    (img : Gray) :
  (forall (r c : nat) row v, img !! r = Some row -> row !! c = Some v ->
     foldr combine border (under_kernel kernel img (Z.of_nat r) (Z.of_nat c)) = 0) ->
  all_zero (morph combine border kernel img).
Proof.
  intros H. unfold all_zero, morph. apply Forall_lookup. intros r out Hout.
  rewrite list_lookup_imap in Hout. apply fmap_Some in Hout as (row & Hr & ->).
  apply Forall_lookup. intros c v Hv. rewrite list_lookup_imap in Hv.
  apply fmap_Some in Hv as (w & Hc & ->).
  eapply H; eauto.
Qed.

Lemma dilate_all_zero (kernel : list (Z * Z)) (img : Gray) :
  all_zero img -> all_zero (dilate kernel img).
Proof.
  intros Hz. apply morph_all_zero. intros r c row v _ _.
  apply foldr_max_zeros, under_kernel_all_zero, Hz.
Qed.

Lemma erode_all_zero (img : Gray) :
  all_zero img -> all_zero (erode MORPH_ELLIPSE_3x3 img).
Proof.
  intros Hz. apply morph_all_zero. intros r c row v Hr Hc.
  eapply foldr_min_zeros; [eapply under_ellipse_nonempty; eauto|].
  apply under_kernel_all_zero, Hz.
Qed.

Lemma morphologyEx_all_zero (src : Gray) (op : MorphOp) :
  all_zero src -> all_zero (morphologyEx src op MORPH_ELLIPSE_3x3).
Proof.
  intros Hz. destruct op; cbn.
  - apply dilate_all_zero, erode_all_zero, Hz.
  - apply erode_all_zero, dilate_all_zero, Hz.
Qed.

(** C6: when the blurred gray version of a frame equals the background
    reference, the absolute difference, the thresholded mask (for every
    sensitivity from 0 up, so for the slider's 10 to 100), the opened mask
    and the closed mask are all zero; as the contour finder returns no
    contour on an all-zero mask, no motion region is drawn and no motion is
    reported. *)
Theorem identical_frame_yields_no_motion (cv : OpenCV) (now : Timestamp)
    (st : SmartSecurityMonitor.state) (img : Image) (background : Gray) :
  SmartSecurityMonitor.background_frame st = Some background ->
  SmartSecurityMonitor.blurred_gray cv img = background ->
  0 <= SmartSecurityMonitor.sensitivity st ->
  (forall mask, all_zero mask -> findContours cv mask = []) ->
  let frame_delta := absdiff background (SmartSecurityMonitor.blurred_gray cv img) in
  let thresh := threshold frame_delta (SmartSecurityMonitor.sensitivity st) in
  let opened := morphologyEx thresh MORPH_OPEN MORPH_ELLIPSE_3x3 in
  let closed := morphologyEx opened MORPH_CLOSE MORPH_ELLIPSE_3x3 in
  let st' := SmartSecurityMonitor.process_one cv now st img in
  all_zero frame_delta /\ all_zero thresh /\ all_zero opened /\ all_zero closed /\
  closed = SmartSecurityMonitor.motion_mask background
             (SmartSecurityMonitor.blurred_gray cv img)
             (SmartSecurityMonitor.sensitivity st) /\
  findContours cv closed = [] /\
  frame_motion cv st img = Some false /\
  SmartSecurityMonitor.motion_detected st' = false /\
  exists frame', SmartSecurityMonitor.video_label st' = Some frame' /\
                 rectangles (drawn frame') = [].
Proof.
  intros Hbg Hsame Hs Hfc. cbv zeta.
  assert (H1 : all_zero (absdiff background (SmartSecurityMonitor.blurred_gray cv img)))
    by (rewrite Hsame; apply absdiff_self).
  pose proof (threshold_all_zero _ _ Hs H1) as H2.
  pose proof (morphologyEx_all_zero _ MORPH_OPEN H2) as H3.
  pose proof (morphologyEx_all_zero _ MORPH_CLOSE H3) as H4.
  pose proof (Hfc _ H4) as H5.
  repeat (split; [assumption || reflexivity|]).
  unfold frame_motion, SmartSecurityMonitor.process_one. rewrite Hbg.
  unfold SmartSecurityMonitor.detect_motion, SmartSecurityMonitor.motion_mask.
  rewrite H5. cbn [fold_left fst]. split; [reflexivity|]. split; [reflexivity|].
  eexists. split; [reflexivity|]. reflexivity.
Qed.

Lemma span_contour_all_zero (mask : Gray) : all_zero mask -> span_contour mask = [].
Proof.
  intros Hz. unfold span_contour.
  replace (nonzero_points mask) with (@nil (Z * Z)); [reflexivity|].
  symmetry. apply elem_of_nil_inv. intros p Hp. unfold nonzero_points in Hp.
  apply list_elem_of_In, in_concat in Hp as (ps & Hps & Hp).
  apply list_elem_of_In, elem_of_lookup_imap in Hps as (r & row & -> & Hr).
  apply in_map_iff in Hp as (c & <- & Hc). apply list_elem_of_In in Hc.
  unfold nonzero_columns in Hc. apply list_elem_of_omap in Hc as ([i v] & Hiv & Hsome).
  apply elem_of_lookup_imap in Hiv as (i' & v' & [= -> ->] & Hi).
  unfold all_zero in Hz. rewrite Forall_lookup in Hz. specialize (Hz _ _ Hr).
  rewrite Forall_lookup in Hz. specialize (Hz _ _ Hi). subst v'. discriminate.
Qed.

(** The same frame read twice: the second read shows no motion. *)
Lemma same_frame_twice_example :
  let img := filled 3 3 (0, 120, 0) in
  let st := SmartSecurityMonitor.process_one plain_cv "t0" SmartSecurityMonitor.init img in
  let st' := SmartSecurityMonitor.process_one plain_cv "t1" st img in
  SmartSecurityMonitor.background_frame st
    = Some (SmartSecurityMonitor.blurred_gray plain_cv img) /\
  0 <= SmartSecurityMonitor.sensitivity st /\
  (forall mask, all_zero mask -> findContours plain_cv mask = []) /\
  frame_motion plain_cv st img = Some false /\
  SmartSecurityMonitor.motion_detected st' = false.
Proof.
  intros img st st'.
  split; [reflexivity|]. split; [cbn; lia|]. split; [exact span_contour_all_zero|].
  pose proof (identical_frame_yields_no_motion plain_cv "t1" st img
                (SmartSecurityMonitor.blurred_gray plain_cv img)
                eq_refl eq_refl ltac:(cbn; lia) span_contour_all_zero) as H.
  cbv zeta in H. split; apply H.
Defined.

(** ** Faces near the top of the frame *)

(** C9: a face whose top edge has y <= 20 leaves the frame and the state as
    they are (no helmet check decides anything, nothing is drawn, no
    violation is logged), also for a whole frame of such faces; and the
    helmet check answers [False] on a region of size zero, on which the
    colour conversion would raise. *)
Theorem face_near_top_is_skipped (cv : OpenCV) (now : Timestamp)
    (st : MiningCVSystem.state) (frame : Frame) (x y w h : Z)
    (faces : list Rect) (roi : Image) :
  y <= 20 ->
  Forall (fun face : Rect => snd (fst (fst face)) <= 20) faces ->
  size roi = 0 ->
  MiningCVSystem.face_step cv now (st, frame) (x, y, w, h) = Some (st, frame) /\
  for_each (MiningCVSystem.face_step cv now) faces (st, frame) = Some (st, frame) /\
  MiningCVSystem.detect_helmet cv roi = Some false /\
  cvtColor_HSV cv roi = None.
Proof.
  intros Hy Hfaces Hroi.
  assert (Hstep : forall x y w h, y <= 20 ->
            MiningCVSystem.face_step cv now (st, frame) (x, y, w, h) = Some (st, frame)).
  { clear. intros x y w h Hy. unfold MiningCVSystem.face_step.
    destruct (20 <? y) eqn:E; [lia|reflexivity]. }
  split; [apply Hstep, Hy|]. split.
  - induction Hfaces as [|[[[fx fy] fw] fh] faces Hf _ IH]; [reflexivity|].
    rewrite for_each_cons, Hstep by exact Hf. exact IH.
  - unfold MiningCVSystem.detect_helmet, cvtColor_HSV. rewrite Hroi. auto.
Qed.

(** A face at y = 20, and the empty region above a face of width 0. *)
Lemma face_at_row_20_example :
  let frame := new_frame (filled 40 10 (0, 0, 0)) in
  20 <= 20 /\
  size (slice2 (filled 40 10 (0, 0, 0)) 0 20 5 5) = 0 /\
  MiningCVSystem.face_step plain_cv "t" (MiningCVSystem.init, frame) (2, 20, 5, 5)
    = Some (MiningCVSystem.init, frame) /\
  MiningCVSystem.detect_helmet plain_cv (slice2 (filled 40 10 (0, 0, 0)) 0 20 5 5)
    = Some false.
Proof.
  intros frame.
  pose proof (face_near_top_is_skipped plain_cv "t" MiningCVSystem.init frame 2 20 5 5
                [(2, 20, 5, 5); (0, 3, 4, 4)] (slice2 (filled 40 10 (0, 0, 0)) 0 20 5 5)
                ltac:(lia) ltac:(repeat constructor; cbn; lia) eq_refl) as H.
  split; [lia|]. split; [reflexivity|]. split; apply H.
Defined.

(** ** Rounding to binary64 *)

Lemma digits2_pos_size (p : positive) : digits2_pos p = Pos.size p.
Proof. induction p; cbn; congruence. Qed.

Lemma digits2_bounds (p : positive) :
  2 ^ (Z.pos (digits2_pos p) - 1) <= Z.pos p < 2 ^ Z.pos (digits2_pos p).
Proof.
  rewrite digits2_pos_size. split.
  - pose proof (Pos.size_le p) as H.
    assert (H' : 2 ^ Z.pos (Pos.size p) <= 2 * Z.pos p).
    { change 2 with (Z.pos 2) at 1. rewrite <- Pos2Z.inj_pow. lia. }
    replace (Z.pos (Pos.size p)) with (Z.succ (Z.pos (Pos.size p) - 1)) in H' by lia.
    rewrite Z.pow_succ_r in H' by lia. lia.
  - pose proof (Pos.size_gt p) as H.
    change 2 with (Z.pos 2). rewrite <- Pos2Z.inj_pow. lia.
Qed.

(** The number of binary digits is determined by the enclosing powers of 2. *)
Lemma digits2_unique (p : positive) (d : Z) :
  2 ^ (d - 1) <= Z.pos p < 2 ^ d -> Z.pos (digits2_pos p) = d.
Proof.
  intros [Hl Hu]. pose proof (digits2_bounds p) as [Hl' Hu'].
  assert (0 < d).
  { destruct (Z_lt_le_dec 0 d); [assumption|].
    assert (2 ^ d <= 2 ^ 0) by (destruct (Z.eq_dec d 0) as [->|]; [lia|];
      rewrite (Z.pow_neg_r 2 d) by lia; cbn; lia).
    cbn in *. lia. }
  destruct (Z.lt_trichotomy (Z.pos (digits2_pos p)) d) as [Hlt|[Heq|Hgt]]; [|exact Heq|].
  - assert (2 ^ Z.pos (digits2_pos p) <= 2 ^ (d - 1)) by (apply Z.pow_le_mono_r; lia). lia.
  - assert (2 ^ d <= 2 ^ (Z.pos (digits2_pos p) - 1)) by (apply Z.pow_le_mono_r; lia). lia.
Qed.

Lemma iter_pos_Pos_iter {A} (f : A -> A) (n : positive) (x : A) :
  SpecFloat.iter_pos f n x = Pos.iter f x n.
Proof.
  revert x. induction n as [n IH|n IH|]; intros x; cbn.
  - rewrite !IH. rewrite <- !Pos.iter_swap. reflexivity.
  - rewrite !IH. reflexivity.
  - reflexivity.
Qed.


Lemma shr_1_shifted (m k : Z) (mrs : shr_record) :
  1 <= k -> 0 <= shr_m mrs -> shifted m k mrs -> shifted m (k + 1) (shr_1 mrs).
Proof.
  intros Hk Hm (t & Heq & Ht & Hs). destruct mrs as [m' r s]. unfold shifted.
  cbn [shr_m shr_r shr_s] in *.
  replace (k + 1 - 1) with (Z.succ (k - 1)) by lia. rewrite Z.pow_succ_r by lia.
  set (A := 2 ^ (k - 1)) in *.
  assert (HA : 0 < A) by (apply Z.pow_pos_nonneg; lia).
  assert (Hrs : (r || s) = negb (Z.b2z r * A + t =? 0)).
  { subst s. destruct r; cbn [Z.b2z orb].
    - symmetry. apply negb_true_iff, Z.eqb_neq. lia.
    - rewrite Z.mul_0_l, Z.add_0_l. reflexivity. }
  exists (Z.b2z r * A + t).
  destruct m' as [|[p|p|]|p]; cbn [shr_1 shr_m shr_r shr_s Z.b2z]; try lia;
    (split; [|split; [destruct r; cbn [Z.b2z]; lia|exact Hrs]]);
    rewrite Heq, ?(Pos2Z.inj_xI p), ?(Pos2Z.inj_xO p); ring.
Qed.

Lemma shr_1_nonneg (mrs : shr_record) : 0 <= shr_m mrs -> 0 <= shr_m (shr_1 mrs).
Proof. destruct mrs as [[|[p|p|]|p] r s]; cbn; lia. Qed.

Lemma iter_shr_1_shifted (m : Z) (k : positive) :
  0 <= m ->
  let mrs := SpecFloat.iter_pos shr_1 k (Build_shr_record m false false) in
  0 <= shr_m mrs /\ shifted m (Z.pos k) mrs.
Proof.
  intros Hm. cbv zeta. rewrite iter_pos_Pos_iter.
  induction k as [|k IH] using Pos.peano_ind.
  - cbn [Pos.iter]. split; [apply shr_1_nonneg; exact Hm|].
    exists 0. cbn [Z.sub Z.pos_sub Z.pow Z.pow_pos]. 
    destruct m as [|[p|p|]|p]; cbn; try lia; repeat split; try lia;
      rewrite ?(Pos2Z.inj_xI p), ?(Pos2Z.inj_xO p); lia.
  - rewrite Pos.iter_succ. destruct IH as [IH1 IH2].
    split; [apply shr_1_nonneg, IH1|].
    rewrite Pos2Z.inj_succ. apply shr_1_shifted; [lia|exact IH1|exact IH2].
Qed.

Lemma rne_shifted (m k : Z) (mrs : shr_record) :
  1 <= k -> shifted m k mrs ->
  round_nearest_even (shr_m mrs) (loc_of_shr_record mrs) = rne m k.
Proof.
  intros Hk (t & Heq & Ht & Hs). destruct mrs as [m' r s]. cbn [shr_m shr_r shr_s] in *.
  unfold rne.
  assert (H2k : 2 ^ k = 2 * 2 ^ (k - 1)).
  { rewrite <- Z.pow_succ_r by lia. f_equal. lia. }
  rewrite H2k. clear H2k.
  set (A := 2 ^ (k - 1)) in *.
  assert (HA : 0 < A) by (apply Z.pow_pos_nonneg; lia).
  assert (Hq : m / (2 * A) = m').
  { symmetry. apply (Z.div_unique m (2 * A) m' (Z.b2z r * A + t)).
    - left. destruct r; cbn [Z.b2z]; lia.
    - rewrite Heq. ring. }
  assert (Hr : m mod (2 * A) = Z.b2z r * A + t).
  { symmetry. apply (Z.mod_unique m (2 * A) m' (Z.b2z r * A + t)).
    - left. destruct r; cbn [Z.b2z]; lia.
    - rewrite Heq. ring. }
  rewrite Hq, Hr. subst s.
  destruct r; cbn [Z.b2z]; destruct (t =? 0) eqn:E; cbn [negb loc_of_shr_record round_nearest_even].
  - apply Z.eqb_eq in E. subst t.
    replace (2 * (1 * A + 0) ?= 2 * A) with Eq by (symmetry; apply Z.compare_eq_iff; lia).
    reflexivity.
  - apply Z.eqb_neq in E.
    replace (2 * (1 * A + t) ?= 2 * A) with Gt by (symmetry; apply Z.compare_gt_iff; lia).
    reflexivity.
  - apply Z.eqb_eq in E. subst t.
    replace (2 * (0 * A + 0) ?= 2 * A) with Lt by (symmetry; apply Z.compare_lt_iff; lia).
    reflexivity.
  - replace (2 * (0 * A + t) ?= 2 * A) with Lt by (symmetry; apply Z.compare_lt_iff; lia).
    reflexivity.
Qed.

Lemma rne_0 (m : Z) : rne m 0 = m.
Proof.
  unfold rne. cbn [Z.pow]. rewrite Z.div_1_r, Z.mod_1_r. reflexivity.
Qed.

(** The first half of [binary_round_aux]: shift to the exponent of the
    result and round. *)
Lemma binary_round_aux_rounded (P : positive) (e : Z) :
  let E := fexp64 (Z.pos (digits2_pos P) + e) in
  e <= E ->
  binary_round_aux prec emax false (Z.pos P) e loc_Exact = rounded (rne (Z.pos P) (E - e)) E.
Proof.
  intros E HE. unfold binary_round_aux. unfold shr_fexp at 1.
  change (fexp prec emax (Zdigits2 (Z.pos P) + e)) with E.
  cbn [shr_record_of_loc]. unfold shr.
  destruct (E - e) as [|k|k] eqn:Hn; [| |lia].
  - rewrite rne_0. cbn [shr_m loc_of_shr_record round_nearest_even].
    replace E with e by lia. reflexivity.
  - pose proof (iter_shr_1_shifted (Z.pos P) k ltac:(lia)) as [_ Hsh]. cbv zeta in Hsh.
    rewrite (rne_shifted (Z.pos P) (Z.pos k) _ ltac:(lia) Hsh).
    replace (e + Z.pos k) with E by lia. reflexivity.
Qed.

Lemma rne_cases (m n : Z) :
  0 <= n ->
  let B := 2 ^ n in
  let q := m / B in
  let r := m mod B in
  m = B * q + r /\ 0 <= r < B /\
  ((2 * r < B /\ rne m n = q) \/
   (2 * r = B /\ rne m n = if Z.even q then q else q + 1) \/
   (2 * r > B /\ rne m n = q + 1)).
Proof.
  intros Hn B q r. assert (HB : 0 < B) by (apply Z.pow_pos_nonneg; lia).
  split; [apply Z.div_mod; lia|]. split; [apply Z.mod_pos_bound; lia|].
  unfold rne. fold B q r. destruct (2 * r ?= B) eqn:E.
  - apply Z.compare_eq_iff in E. right. left. auto.
  - apply Z.compare_lt_iff in E. left. auto.
  - apply Z.compare_gt_iff in E. right. right. split; [lia|reflexivity].
Qed.

Lemma rne_bounds (m n : Z) : 0 <= n -> m / 2 ^ n <= rne m n <= m / 2 ^ n + 1.
Proof.
  intros Hn. destruct (rne_cases m n Hn) as (_ & _ & [[_ ->]|[[_ ->]|[_ ->]]]);
    try destruct (Z.even _); lia.
Qed.

Lemma rne_exact (q n : Z) : 0 <= n -> rne (q * 2 ^ n) n = q.
Proof.
  intros Hn. assert (HB : 0 < 2 ^ n) by (apply Z.pow_pos_nonneg; lia).
  unfold rne. rewrite Z.div_mul, Z.mod_mul by lia.
  replace (2 * 0 ?= 2 ^ n) with Lt by (symmetry; apply Z.compare_lt_iff; lia). reflexivity.
Qed.

Lemma rne_mono (m1 m2 n : Z) : 0 <= n -> m1 <= m2 -> rne m1 n <= rne m2 n.
Proof.
  intros Hn Hm. assert (HB : 0 < 2 ^ n) by (apply Z.pow_pos_nonneg; lia).
  destruct (rne_cases m1 n Hn) as (E1 & R1 & C1).
  destruct (rne_cases m2 n Hn) as (E2 & R2 & C2).
  set (B := 2 ^ n) in *. set (q1 := m1 / B) in *. set (q2 := m2 / B) in *.
  set (r1 := m1 mod B) in *. set (r2 := m2 mod B) in *.
  assert (Hq : q1 <= q2) by (apply Z.div_le_mono; lia).
  destruct (Z.eq_dec q1 q2) as [Heq|Hne].
  - assert (r1 <= r2) by (rewrite Heq in E1; lia).
    rewrite Heq in C1.
    destruct C1 as [[? ->]|[[? ->]|[? ->]]], C2 as [[? ->]|[[? ->]|[? ->]]];
      try destruct (Z.even q2); lia.
  - destruct C1 as [[? ->]|[[? ->]|[? ->]]], C2 as [[? ->]|[[? ->]|[? ->]]];
      try destruct (Z.even q1); try destruct (Z.even q2); lia.
Qed.

Lemma rne_scale (m n j : Z) : 0 <= n -> 0 <= j -> rne (m * 2 ^ j) (n + j) = rne m n.
Proof.
  intros Hn Hj. unfold rne.
  assert (HB : 0 < 2 ^ n) by (apply Z.pow_pos_nonneg; lia).
  assert (HJ : 0 < 2 ^ j) by (apply Z.pow_pos_nonneg; lia).
  rewrite Z.pow_add_r by lia.
  rewrite Z.div_mul_cancel_r by lia.
  rewrite Z.mul_mod_distr_r by lia.
  replace (2 * (m mod 2 ^ n * 2 ^ j) ?= 2 ^ n * 2 ^ j) with (2 * (m mod 2 ^ n) ?= 2 ^ n);
    [reflexivity|].
  rewrite Z.mul_assoc. apply Zmult_compare_compat_r. lia.
Qed.

Lemma fexp_fexp64 (mu : Z) : fexp prec emax mu = fexp64 mu.
Proof. reflexivity. Qed.

Lemma rounded_0 (E : Z) : -1074 <= E -> rounded 0 E = S754_zero false.
Proof.
  intros HE. unfold rounded, shr_fexp, shr. cbn [Zdigits2]. rewrite Z.add_0_l, fexp_fexp64.
  unfold fexp64.
  destruct (Z.max (E - 53) (-1074) - E) eqn:Hn; try reflexivity. lia.
Qed.

Lemma rounded_fits (r : positive) (E : Z) :
  fexp64 (Z.pos (digits2_pos r) + E) = E ->
  rounded (Z.pos r) E =
    if E <=? 971 then S754_finite false r E else S754_infinity false.
Proof.
  intros HE. unfold rounded, shr_fexp, shr. cbn [Zdigits2].
  rewrite fexp_fexp64, HE, Z.sub_diag. reflexivity.
Qed.

Lemma rounded_carry (E : Z) :
  -1075 <= E ->
  rounded (2 ^ 53) E =
    if E + 1 <=? 971 then S754_finite false (Z.to_pos (2 ^ 52)) (E + 1)
    else S754_infinity false.
Proof.
  intros HE. unfold rounded, shr_fexp, shr.
  change (Zdigits2 (2 ^ 53)) with 54.
  rewrite fexp_fexp64. unfold fexp64.
  replace (Z.max (54 + E - 53) (-1074) - E) with 1 by lia. reflexivity.
Qed.

Lemma iter_xO_pow (p k : positive) : Z.pos (Pos.iter xO p k) = Z.pos p * 2 ^ Z.pos k.
Proof.
  induction k as [|k IH] using Pos.peano_ind.
  - cbn [Pos.iter]. rewrite (Pos2Z.inj_xO p). change (2 ^ 1) with 2. lia.
  - rewrite Pos.iter_succ, Pos2Z.inj_succ, Z.pow_succ_r by lia.
    rewrite (Pos2Z.inj_xO (Pos.iter xO p k)), IH. ring.
Qed.

Lemma pow2_pos (n : Z) : 0 <= n -> 0 < 2 ^ n.
Proof. intros; apply Z.pow_pos_nonneg; lia. Qed.

(** A positive int below 2^53 converts exactly, to a double with a full
    53-bit mantissa. *)
Lemma of_Z_exact (t : Z) :
  0 < t < 2 ^ 53 ->
  exists (m : positive) (e : Z),
    of_Z t = S754_finite false m e /\
    -52 <= e <= 0 /\ Z.pos m = t * 2 ^ (- e) /\ 2 ^ 52 <= Z.pos m < 2 ^ 53.
Proof.
  intros Ht. destruct t as [|p|p]; [lia| |lia].
  pose proof (digits2_bounds p) as Hd. set (d := Z.pos (digits2_pos p)) in *.
  assert (Hd53 : 1 <= d <= 53).
  { split; [subst d; lia|].
    destruct (Z_le_gt_dec d 53); [assumption|].
    assert (2 ^ 53 <= 2 ^ (d - 1)) by (apply Z.pow_le_mono_r; lia). lia. }
  unfold of_Z, binary_normalize, binary_round, shl_align.
  rewrite Z.add_0_r, fexp_fexp64. fold d. unfold fexp64.
  replace (Z.max (d - 53) (-1074)) with (d - 53) by lia. rewrite Z.sub_0_r.
  assert (Hfits : forall m : positive, 2 ^ 52 <= Z.pos m < 2 ^ 53 ->
            binary_round_aux prec emax false (Z.pos m) (d - 53) loc_Exact
            = S754_finite false m (d - 53)).
  { intros m Hm. assert (Hdm : Z.pos (digits2_pos m) = 53) by (apply digits2_unique; exact Hm).
    pose proof (binary_round_aux_rounded m (d - 53)) as H. cbv zeta in H.
    rewrite Hdm in H. unfold fexp64 in H.
    replace (Z.max (53 + (d - 53) - 53) (-1074)) with (d - 53) in H by lia.
    rewrite H by lia. rewrite Z.sub_diag, rne_0, rounded_fits.
    - destruct (d - 53 <=? 971) eqn:E; [reflexivity|]. apply Z.leb_gt in E. lia.
    - rewrite Hdm. unfold fexp64. lia. }
  destruct (d - 53) as [|k|k] eqn:Hk; [| lia |].
  - exists p, 0. assert (d = 53) by lia.
    replace (2 ^ (d - 1)) with (2 ^ 52) in Hd by (f_equal; lia).
    replace (2 ^ d) with (2 ^ 53) in Hd by (f_equal; lia).
    cbv beta iota. rewrite Hfits by lia. cbn [Z.opp Z.pow]. repeat split; lia.
  - exists (Pos.iter xO p k), (Z.neg k).
    assert (Hm : Z.pos (Pos.iter xO p k) = Z.pos p * 2 ^ Z.pos k) by apply iter_xO_pow.
    assert (Hpk : 2 ^ (d - 1) * 2 ^ Z.pos k = 2 ^ 52).
    { rewrite <- Z.pow_add_r by lia. f_equal. lia. }
    assert (Hpk' : 2 ^ d * 2 ^ Z.pos k = 2 ^ 53).
    { rewrite <- Z.pow_add_r by lia. f_equal. lia. }
    pose proof (pow2_pos (Z.pos k) ltac:(lia)) as HK.
    assert (Hrange : 2 ^ 52 <= Z.pos (Pos.iter xO p k) < 2 ^ 53).
    { rewrite Hm, <- Hpk, <- Hpk'. split.
      - apply Z.mul_le_mono_nonneg_r; lia.
      - apply Z.mul_lt_mono_pos_r; lia. }
    cbv beta iota. rewrite Hfits by exact Hrange.
    repeat split; try lia. exact Hm.
Qed.

(** The comparison of an int with a rounded product [t * c], for a constant
    [c = M * 2^-w] just above [1/K], agrees with the exact comparison with
    [t/K] as long as [t] is below 2^40. *)
Lemma fraction_core (t r K w delta M a B g q rho : Z) :
  0 < t < 2 ^ 40 -> 0 < K -> 55 <= w <= 56 -> 0 <= delta <= 4 ->
  K * M = 2 ^ w + delta ->
  0 < a -> 0 < B -> 0 < g -> g * B = a * 2 ^ w ->
  q * B <= t * a * M < (q + 1) * B ->
  2 ^ 52 * B <= t * a * M ->
  q <= rho <= q + 1 ->
  (rho < r * g <-> t < K * r).
Proof.
  intros Ht HK Hw Hd HKM Ha HB Hg HgB Hq Hbig Hrho.
  assert (HW : 2 ^ 55 <= 2 ^ w <= 2 ^ 56) by (split; apply Z.pow_le_mono_r; lia).
  assert (HM : 0 < M) by nia.
  split.
  - intros H. assert (H1 : q + 1 <= r * g) by lia.
    assert (H2 : (q + 1) * B <= r * g * B) by (apply Z.mul_le_mono_nonneg_r; lia).
    replace (r * g * B) with (a * (r * 2 ^ w)) in H2 by (rewrite <- Z.mul_assoc, HgB; ring).
    assert (H3 : a * (t * M) < a * (r * 2 ^ w)) by lia.
    apply Z.mul_lt_mono_pos_l in H3; [|exact Ha].
    assert (H4 : K * (t * M) < K * (r * 2 ^ w)) by (apply Z.mul_lt_mono_pos_l; lia).
    replace (K * (t * M)) with (t * (K * M)) in H4 by ring. rewrite HKM in H4.
    assert (H5 : t * 2 ^ w < (K * r) * 2 ^ w) by nia.
    apply Z.mul_lt_mono_pos_r in H5; lia.
  - intros H. destruct (Z_lt_le_dec rho (r * g)) as [|Hge]; [assumption|exfalso].
    assert (H1 : r * g * B <= (q + 1) * B) by (apply Z.mul_le_mono_nonneg_r; lia).
    replace (r * g * B) with (a * (r * 2 ^ w)) in H1 by (rewrite <- Z.mul_assoc, HgB; ring).
    assert (H2 : 2 ^ 52 * (a * (r * 2 ^ w)) <= 2 ^ 52 * (t * a * M + B))
      by (apply Z.mul_le_mono_nonneg_l; lia).
    assert (H3 : a * (2 ^ 52 * (r * 2 ^ w)) <= a * ((2 ^ 52 + 1) * (t * M))) by lia.
    apply Z.mul_le_mono_pos_l in H3; [|exact Ha].
    assert (H4 : K * (2 ^ 52 * (r * 2 ^ w)) <= K * ((2 ^ 52 + 1) * (t * M)))
      by (apply Z.mul_le_mono_nonneg_l; lia).
    replace (K * ((2 ^ 52 + 1) * (t * M))) with ((2 ^ 52 + 1) * (t * (K * M))) in H4 by ring.
    rewrite HKM in H4.
    assert (H5 : (t + 1) * (2 ^ 52 * 2 ^ w) <= K * (2 ^ 52 * (r * 2 ^ w))).
    { replace (K * (2 ^ 52 * (r * 2 ^ w))) with ((K * r) * (2 ^ 52 * 2 ^ w)) by ring.
      apply Z.mul_le_mono_nonneg_r; lia. }
    assert (H6 : t * 2 ^ w <= t * 2 ^ 56) by (apply Z.mul_le_mono_nonneg_l; lia).
    assert (H7 : t * 2 ^ 56 < 2 ^ 40 * 2 ^ 56) by (apply Z.mul_lt_mono_pos_r; lia).
    assert (H8 : t * delta <= t * 4) by (apply Z.mul_le_mono_nonneg_l; lia).
    assert (H9 : (2 ^ 52 + 1) * (t * (2 ^ w + delta))
                 = 2 ^ 52 * 2 ^ w * t + 2 ^ 52 * (t * delta) + t * 2 ^ w + t * delta) by ring.
    assert (H10 : (t + 1) * (2 ^ 52 * 2 ^ w) = 2 ^ 52 * 2 ^ w * t + 2 ^ 52 * 2 ^ w) by ring.
    assert (H11 : 2 ^ 52 * 2 ^ 55 <= 2 ^ 52 * 2 ^ w) by (apply Z.mul_le_mono_nonneg_l; lia).
    lia.
Qed.

(** The product of two doubles with full mantissas, away from underflow
    and overflow: the exact product of the mantissas, shifted by [n] bits
    and rounded to [rho]. *)
Lemma mul_normal (m mc : positive) (e ec : Z) :
  2 ^ 52 <= Z.pos m < 2 ^ 53 -> 2 ^ 52 <= Z.pos mc < 2 ^ 53 ->
  -1126 <= e + ec <= 917 ->
  exists (n rho : Z) (m' : positive) (e' : Z),
    52 <= n <= 53 /\
    2 ^ 52 * 2 ^ n <= Z.pos m * Z.pos mc < 2 ^ 53 * 2 ^ n /\
    rho = rne (Z.pos m * Z.pos mc) n /\
    2 ^ 52 <= rho <= 2 ^ 53 /\
    mul (S754_finite false m e) (S754_finite false mc ec) = S754_finite false m' e' /\
    e + ec + n <= e' <= e + ec + n + 1 /\
    Z.pos m' * 2 ^ (e' - (e + ec + n)) = rho.
Proof.
  intros Hm Hmc He. unfold mul, SFmul. cbn [xorb].
  set (P := (m * mc)%positive). assert (HP : Z.pos P = Z.pos m * Z.pos mc) by reflexivity.
  rewrite <- HP.
  assert (HPr : 2 ^ 104 <= Z.pos P < 2 ^ 106).
  { rewrite HP. change (2 ^ 104) with (2 ^ 52 * 2 ^ 52). change (2 ^ 106) with (2 ^ 53 * 2 ^ 53).
    split; [apply Z.mul_le_mono_nonneg; lia|apply Z.mul_lt_mono_nonneg; lia]. }
  pose proof (digits2_bounds P) as Hd. set (d := Z.pos (digits2_pos P)) in *.
  assert (Hd' : 105 <= d <= 106).
  { split.
    - destruct (Z_lt_le_dec d 105); [|assumption].
      assert (2 ^ d <= 2 ^ 104) by (apply Z.pow_le_mono_r; lia). lia.
    - destruct (Z_le_gt_dec d 106); [assumption|].
      assert (2 ^ 106 <= 2 ^ (d - 1)) by (apply Z.pow_le_mono_r; lia). lia. }
  pose proof (binary_round_aux_rounded P (e + ec)) as H. cbv zeta in H. fold d in H.
  unfold fexp64 in H. replace (Z.max (d + (e + ec) - 53) (-1074)) with (d + (e + ec) - 53) in H by lia.
  rewrite H by lia. clear H.
  replace (d + (e + ec) - 53 - (e + ec)) with (d - 53) by lia.
  set (n := d - 53). set (E := d + (e + ec) - 53).
  assert (HB : 0 < 2 ^ n) by (apply pow2_pos; lia).
  assert (Hlow : 2 ^ 52 * 2 ^ n = 2 ^ (d - 1)) by (rewrite <- Z.pow_add_r by lia; f_equal; lia).
  assert (Hhigh : 2 ^ 53 * 2 ^ n = 2 ^ d) by (rewrite <- Z.pow_add_r by lia; f_equal; lia).
  assert (Hrho : 2 ^ 52 <= rne (Z.pos P) n <= 2 ^ 53).
  { split.
    - rewrite <- (rne_exact (2 ^ 52) n) at 1 by lia. apply rne_mono; lia.
    - rewrite <- (rne_exact (2 ^ 53) n) by lia. apply rne_mono; lia. }
  set (rho := rne (Z.pos P) n) in *.
  destruct (Z.eq_dec rho (2 ^ 53)) as [Hc|Hc].
  - rewrite Hc, rounded_carry by lia.
    replace (E + 1 <=? 971) with true by (symmetry; apply Z.leb_le; lia).
    exists n, rho, (Z.to_pos (2 ^ 52)), (E + 1).
    repeat split; try lia.
    replace (E + 1 - (e + ec + n)) with 1 by lia. rewrite Hc. reflexivity.
  - destruct rho as [|r|r] eqn:Hr; [lia| |lia].
    rewrite rounded_fits.
    + replace (E <=? 971) with true by (symmetry; apply Z.leb_le; lia).
      exists n, (Z.pos r), r, E. repeat split; try lia.
      replace (E - (e + ec + n)) with 0 by lia. lia.
    + rewrite (digits2_unique r 53) by lia. unfold fexp64. lia.
Qed.

Lemma Z_gtb_finite_neg (r : Z) (m : positive) (e : Z) :
  e < 0 -> Z_gtb r (S754_finite false m e) = (Z.pos m <? r * 2 ^ (- e)).
Proof.
  intros He. unfold Z_gtb. destruct (0 <=? e) eqn:E; [apply Z.leb_le in E; lia|reflexivity].
Qed.

(** Comparing a pixel count with the rounded product of the number of
    pixels and 0.1 or 0.2 is comparing it with the exact tenth or fifth. *)
Lemma Z_gtb_fraction (t r K w : Z) :
  0 < t < 2 ^ 40 -> 0 < K -> 55 <= w <= 56 ->
  0 <= K * 7205759403792794 - 2 ^ w <= 4 ->
  Z_gtb r (mul (of_Z t) (S754_finite false 7205759403792794 (- w))) = (t <? K * r).
Proof.
  intros Ht HK Hw HKM.
  destruct (of_Z_exact t ltac:(lia)) as (m & e & -> & He & Hm & Hmr).
  destruct (mul_normal m 7205759403792794 e (- w) Hmr ltac:(lia) ltac:(lia))
    as (n & rho & m' & e' & Hn & HP & Hrho & Hrr & -> & He' & Hm').
  rewrite Z_gtb_finite_neg by lia.
  set (E := e + - w + n) in *.
  assert (Ha : 0 < 2 ^ (- e)) by (apply pow2_pos; lia).
  assert (HB : 0 < 2 ^ n) by (apply pow2_pos; lia).
  assert (Hg : 0 < 2 ^ (- E)) by (apply pow2_pos; lia).
  assert (Hs : 0 < 2 ^ (e' - E)) by (apply pow2_pos; lia).
  assert (HgB : 2 ^ (- E) * 2 ^ n = 2 ^ (- e) * 2 ^ w).
  { rewrite <- !Z.pow_add_r by lia. f_equal. lia. }
  assert (Hge : 2 ^ (- E) = 2 ^ (- e') * 2 ^ (e' - E)).
  { rewrite <- Z.pow_add_r by lia. f_equal. lia. }
  pose proof (rne_cases (Z.pos m * 7205759403792794) n ltac:(lia)) as (Hdm & Hrem & _).
  pose proof (rne_bounds (Z.pos m * 7205759403792794) n ltac:(lia)) as Hb.
  rewrite <- Hrho in Hb.
  set (q := Z.pos m * 7205759403792794 / 2 ^ n) in *.
  assert (Hcore : rho < r * 2 ^ (- E) <-> t < K * r).
  { apply (fraction_core t r K w (K * 7205759403792794 - 2 ^ w) 7205759403792794
             (2 ^ (- e)) (2 ^ n) (2 ^ (- E)) q rho); try lia;
      try (rewrite <- Hm; lia). }
  destruct (t <? K * r) eqn:Ec.
  - apply Z.ltb_lt. apply Z.ltb_lt in Ec. apply Hcore in Ec.
    rewrite <- Hm', Hge, Z.mul_assoc in Ec.
    apply (Z.mul_lt_mono_pos_r (2 ^ (e' - E))); assumption.
  - apply Z.ltb_ge. apply Z.ltb_ge in Ec.
    destruct (Z_lt_le_dec (Z.pos m') (r * 2 ^ (- e'))) as [Hx|Hx]; [exfalso|exact Hx].
    assert (rho < r * 2 ^ (- E)); [|apply Hcore in H; lia].
    rewrite <- Hm', Hge, Z.mul_assoc. apply Z.mul_lt_mono_pos_r; assumption.
Qed.

Lemma Z_gtb_tenth (t r : Z) :
  0 < t < 2 ^ 40 -> Z_gtb r (mul (of_Z t) lit_0_1) = (t <? 10 * r).
Proof. intros Ht. apply (Z_gtb_fraction t r 10 56); lia. Qed.

Lemma Z_gtb_fifth (t r : Z) :
  0 < t < 2 ^ 40 -> Z_gtb r (mul (of_Z t) lit_0_2) = (t <? 5 * r).
Proof. intros Ht. apply (Z_gtb_fraction t r 5 55); lia. Qed.

Lemma bounded_spec (m : positive) (e : Z) :
  bounded prec emax m e = true <->
  -1074 <= e <= 971 /\ Z.pos m < 2 ^ 53 /\ (2 ^ 52 <= Z.pos m \/ e = -1074).
Proof.
  unfold bounded, canonical_mantissa. rewrite andb_true_iff, Z.eqb_eq, Z.leb_le, fexp_fexp64.
  change (emax - prec) with 971. unfold fexp64.
  pose proof (digits2_bounds m) as Hd. set (d := Z.pos (digits2_pos m)) in *.
  assert (Hd1 : 1 <= d) by (subst d; lia).
  split.
  - intros [Hc He]. split; [lia|].
    assert (Hd53 : d <= 53) by lia.
    split.
    + assert (2 ^ d <= 2 ^ 53) by (apply Z.pow_le_mono_r; lia). lia.
    + destruct (Z.eq_dec d 53) as [->|]; [left; exact (proj1 Hd)|right; lia].
  - intros (He & Hm & Hn).
    assert (Hd53 : d <= 53).
    { destruct (Z_le_gt_dec d 53); [assumption|].
      assert (2 ^ 53 <= 2 ^ (d - 1)) by (apply Z.pow_le_mono_r; lia). lia. }
    split; [|lia]. destruct Hn as [Hn| ->]; [|lia].
    assert (d = 53); [|lia].
    destruct (Z.eq_dec d 53); [assumption|].
    assert (2 ^ d <= 2 ^ 52) by (apply Z.pow_le_mono_r; lia). lia.
Qed.

Lemma below_infinity (rho k x : Z) :
  0 <= rho < 2 ^ k -> 0 <= k -> 0 <= x -> k + x <= 2098 -> rho * 2 ^ x < ord_infinity.
Proof.
  intros Hrho Hk Hx Hkx. pose proof (pow2_pos x Hx) as Hp.
  apply Z.lt_le_trans with (2 ^ k * 2 ^ x); [apply Z.mul_lt_mono_pos_r; lia|].
  rewrite <- Z.pow_add_r by lia. unfold ord_infinity. apply Z.pow_le_mono_r; lia.
Qed.

Lemma above_infinity (rho k x : Z) :
  2 ^ k <= rho -> 0 <= k -> 0 <= x -> 2098 <= k + x -> ord_infinity <= rho * 2 ^ x.
Proof.
  intros Hrho Hk Hx Hkx. pose proof (pow2_pos x Hx) as Hp.
  apply Z.le_trans with (2 ^ k * 2 ^ x); [|apply Z.mul_le_mono_nonneg_r; lia].
  rewrite <- Z.pow_add_r by lia. unfold ord_infinity. apply Z.pow_le_mono_r; lia.
Qed.

Lemma ord_infinity_pos : 0 < ord_infinity.
Proof. unfold ord_infinity. apply pow2_pos. lia. Qed.

Lemma ord_finite_bounds (m : positive) (e : Z) :
  bounded prec emax m e = true ->
  0 < ord (S754_finite false m e) < ord_infinity.
Proof.
  intros H. apply bounded_spec in H as (He & Hm & _). cbn [ord].
  pose proof (pow2_pos (e + 1074) ltac:(lia)) as Hp.
  split; [lia|]. apply (below_infinity _ 53); lia.
Qed.

(** A canonical double with the larger exponent is the larger one. *)
Lemma ord_exponent_lt (m1 m2 : positive) (e1 e2 : Z) :
  bounded prec emax m1 e1 = true -> bounded prec emax m2 e2 = true ->
  e1 < e2 ->
  ord (S754_finite false m1 e1) < ord (S754_finite false m2 e2).
Proof.
  intros H1 H2 He. apply bounded_spec in H1 as (He1 & Hm1 & _).
  apply bounded_spec in H2 as (He2 & _ & Hn2). cbn [ord].
  assert (Hm2 : 2 ^ 52 <= Z.pos m2) by lia.
  pose proof (pow2_pos (e1 + 1074) ltac:(lia)) as Hp1.
  assert (Hpow : 2 * 2 ^ (e1 + 1074) <= 2 ^ (e2 + 1074)).
  { rewrite <- Z.pow_succ_r by lia. apply Z.pow_le_mono_r; lia. }
  assert (Z.pos m1 * 2 ^ (e1 + 1074) < 2 ^ 53 * 2 ^ (e1 + 1074))
    by (apply Z.mul_lt_mono_pos_r; lia).
  assert (2 ^ 52 * 2 ^ (e2 + 1074) <= Z.pos m2 * 2 ^ (e2 + 1074))
    by (apply Z.mul_le_mono_nonneg_r; lia).
  assert (2 ^ 52 * (2 * 2 ^ (e1 + 1074)) <= 2 ^ 52 * 2 ^ (e2 + 1074))
    by (apply Z.mul_le_mono_nonneg_l; lia).
  lia.
Qed.

Lemma leb_ord (x y : float) :
  nonneg_valid x = true -> nonneg_valid y = true ->
  (leb x y = true <-> ord x <= ord y).
Proof.
  intros Hx Hy. unfold leb, SFleb.
  destruct x as [sx|sx| |sx mx ex], y as [sy|sy| |sy my ey]; cbn [nonneg_valid] in Hx, Hy;
    try discriminate;
    try (destruct sx; [discriminate|]); try (destruct sy; [discriminate|]);
    cbn [negb andb] in Hx, Hy; cbn [SFcompare ord].
  - split; [lia|reflexivity].
  - split; [intros _; apply Z.lt_le_incl, ord_infinity_pos|reflexivity].
  - pose proof (ord_finite_bounds my ey Hy) as H. cbn [ord] in H. split; [lia|reflexivity].
  - split; [discriminate|]. pose proof ord_infinity_pos. lia.
  - split; [lia|reflexivity].
  - pose proof (ord_finite_bounds my ey Hy) as H. cbn [ord] in H. split; [discriminate|lia].
  - pose proof (ord_finite_bounds mx ex Hx) as H. cbn [ord] in H. split; [discriminate|lia].
  - pose proof (ord_finite_bounds mx ex Hx) as H. cbn [ord] in H. split; [lia|reflexivity].
  - destruct (Z.compare_spec ex ey) as [->|Hlt|Hgt].
    + rewrite Pos.compare_cont_spec. cbn [Pos.switch_Eq].
      apply bounded_spec in Hx as (He & _ & _).
      pose proof (pow2_pos (ey + 1074) ltac:(lia)) as Hp.
      destruct (Pos.compare_spec mx my) as [->|Hm|Hm].
      * split; [lia|reflexivity].
      * split; [intros _|reflexivity]. apply Z.mul_le_mono_nonneg_r; lia.
      * split; [discriminate|]. intros H. apply Z.mul_le_mono_pos_r in H; lia.
    + pose proof (ord_exponent_lt mx my ex ey Hx Hy Hlt) as H. cbn [ord] in H.
      split; [lia|reflexivity].
    + pose proof (ord_exponent_lt my mx ey ex Hy Hx Hgt) as H. cbn [ord] in H.
      split; [discriminate|lia].
Qed.

(** The rounded mantissa has 53 digits, or fewer at the smallest exponent. *)
Lemma rne_regime (P : positive) (e : Z) :
  let E := fexp64 (Z.pos (digits2_pos P) + e) in
  let rho := rne (Z.pos P) (E - e) in
  e <= E ->
  -1074 <= E /\ 0 <= rho <= 2 ^ 53 /\ (2 ^ 52 <= rho \/ (E = -1074 /\ rho <= 2 ^ 52)).
Proof.
  intros E rho HE. subst rho.
  pose proof (digits2_bounds P) as Hd. set (d := Z.pos (digits2_pos P)) in *.
  assert (Hd1 : 1 <= d) by (subst d; lia).
  set (n := E - e). assert (Hn : 0 <= n) by (subst n; lia).
  pose proof (pow2_pos n Hn) as HB.
  assert (Hlo : 0 <= rne (Z.pos P) n).
  { pose proof (rne_bounds (Z.pos P) n Hn). pose proof (Z.div_pos (Z.pos P) (2 ^ n)). lia. }
  unfold fexp64 in E.
  destruct (Z_le_gt_dec (-1074) (d + e - 53)) as [Hnorm|Hsub].
  - assert (HEq : E = d + e - 53) by (subst E; lia).
    assert (Hlow : 2 ^ 52 * 2 ^ n = 2 ^ (d - 1))
      by (rewrite <- Z.pow_add_r by lia; f_equal; lia).
    assert (Hhigh : 2 ^ 53 * 2 ^ n = 2 ^ d)
      by (rewrite <- Z.pow_add_r by lia; f_equal; lia).
    assert (H1 : 2 ^ 52 <= rne (Z.pos P) n).
    { rewrite <- (rne_exact (2 ^ 52) n) at 1 by lia. apply rne_mono; lia. }
    assert (H2 : rne (Z.pos P) n <= 2 ^ 53).
    { rewrite <- (rne_exact (2 ^ 53) n) by lia. apply rne_mono; lia. }
    split; [lia|]. split; [lia|]. left. exact H1.
  - assert (HEq : E = -1074) by (subst E; lia).
    assert (Hle : 2 ^ d <= 2 ^ 52 * 2 ^ n).
    { rewrite <- Z.pow_add_r by lia. apply Z.pow_le_mono_r; lia. }
    assert (H2 : rne (Z.pos P) n <= 2 ^ 52).
    { rewrite <- (rne_exact (2 ^ 52) n) by lia. apply rne_mono; lia. }
    split; [lia|]. split; [lia|]. right. split; [exact HEq|exact H2].
Qed.

Lemma rounded_ord (rho E : Z) :
  -1074 <= E -> 0 <= rho <= 2 ^ 53 ->
  (2 ^ 52 <= rho \/ (E = -1074 /\ rho <= 2 ^ 52)) ->
  nonneg_valid (rounded rho E) = true /\
  ord (rounded rho E) = Z.min (rho * 2 ^ (E + 1074)) ord_infinity.
Proof.
  intros HE Hrho Hreg.
  pose proof (pow2_pos (E + 1074) ltac:(lia)) as Hp.
  destruct (Z.eq_dec rho 0) as [->|Hnz].
  { rewrite rounded_0 by exact HE. split; [reflexivity|]. cbn [ord].
    pose proof ord_infinity_pos. lia. }
  destruct (Z.eq_dec rho (2 ^ 53)) as [->|Hnc].
  { rewrite rounded_carry by lia. destruct (E + 1 <=? 971) eqn:Ec.
    - apply Z.leb_le in Ec. split.
      + cbn [nonneg_valid negb andb]. apply bounded_spec.
        change (Z.pos (Z.to_pos (2 ^ 52))) with (2 ^ 52). lia.
      + cbn [ord]. change (Z.pos (Z.to_pos (2 ^ 52))) with (2 ^ 52).
        replace (E + 1 + 1074) with (Z.succ (E + 1074)) by lia.
        rewrite Z.pow_succ_r by lia.
        pose proof (below_infinity (2 ^ 53) 54 (E + 1074)) as Hb.
        change (2 ^ 53) with (2 * 2 ^ 52) in *. lia.
    - apply Z.leb_gt in Ec. split; [reflexivity|]. cbn [ord].
      pose proof (above_infinity (2 ^ 53) 53 (E + 1074)) as Ha. lia. }
  destruct rho as [|r|r]; [lia| |lia].
  rewrite rounded_fits.
  - destruct (E <=? 971) eqn:Ec.
    + apply Z.leb_le in Ec.
      assert (Hb : bounded prec emax r E = true) by (apply bounded_spec; lia).
      split; [exact Hb|]. pose proof (ord_finite_bounds r E Hb) as Ho. cbn [ord] in *. lia.
    + apply Z.leb_gt in Ec. split; [reflexivity|]. cbn [ord].
      pose proof (above_infinity (Z.pos r) 52 (E + 1074)) as Ha. lia.
  - pose proof (digits2_bounds r) as Hd. set (d := Z.pos (digits2_pos r)) in *.
    assert (Hd1 : 1 <= d) by (subst d; lia).
    assert (Hd53 : d <= 53).
    { destruct (Z_le_gt_dec d 53); [assumption|].
      assert (2 ^ 53 <= 2 ^ (d - 1)) by (apply Z.pow_le_mono_r; lia). lia. }
    unfold fexp64. destruct Hreg as [Hn|[-> _]]; [|lia].
    assert (d = 53); [|lia].
    destruct (Z.eq_dec d 53); [assumption|].
    assert (2 ^ d <= 2 ^ 52) by (apply Z.pow_le_mono_r; lia). lia.
Qed.

(** The product of two canonical doubles never needs a left shift. *)
Lemma product_shift_nonneg (ma mc : positive) (ea ec : Z) :
  bounded prec emax ma ea = true -> bounded prec emax mc ec = true ->
  ea + ec <= fexp64 (Z.pos (digits2_pos (ma * mc)) + (ea + ec)).
Proof.
  intros Ha Hc. apply bounded_spec in Ha as (Hea & _ & Hna).
  apply bounded_spec in Hc as (Hec & _ & Hnc).
  pose proof (digits2_bounds (ma * mc)) as Hd.
  set (d := Z.pos (digits2_pos (ma * mc))) in *. unfold fexp64.
  rewrite Pos2Z.inj_mul in Hd.
  destruct (Z_le_gt_dec (ea + ec) (-1074)); [lia|].
  assert (HP : 2 ^ 52 <= Z.pos ma * Z.pos mc).
  { destruct Hna as [Hna|Hna]; [|destruct Hnc as [Hnc|Hnc]; [|lia]].
    - replace (2 ^ 52) with (2 ^ 52 * 1) by lia. apply Z.mul_le_mono_nonneg; lia.
    - replace (2 ^ 52) with (1 * 2 ^ 52) by lia. apply Z.mul_le_mono_nonneg; lia. }
  assert (53 <= d); [|lia].
  destruct (Z_le_gt_dec 53 d); [assumption|].
  assert (2 ^ d <= 2 ^ 52) by (apply Z.pow_le_mono_r; lia). lia.
Qed.

Lemma mul_ord (ma mc : positive) (ea ec : Z) :
  bounded prec emax ma ea = true -> bounded prec emax mc ec = true ->
  let p := mul (S754_finite false ma ea) (S754_finite false mc ec) in
  nonneg_valid p = true /\
  ord p = Z.min (rank_rounded (ma * mc) (ea + ec)) ord_infinity.
Proof.
  intros Ha Hc p. subst p. unfold mul, SFmul. cbn [xorb].
  pose proof (product_shift_nonneg ma mc ea ec Ha Hc) as Hs.
  pose proof (binary_round_aux_rounded (ma * mc) (ea + ec)) as H. cbv zeta in H.
  rewrite H by exact Hs. clear H.
  pose proof (rne_regime (ma * mc) (ea + ec)) as H. cbv zeta in H.
  destruct (H Hs) as (HE & Hrho & Hreg). clear H.
  unfold rank_rounded. apply rounded_ord; assumption.
Qed.

(** Rounding is monotone: of two products, the one of smaller value has the
    smaller rank. *)
Lemma rank_rounded_mono (P1 P2 : positive) (e1 e2 : Z) :
  e1 <= e2 -> Z.pos P1 <= Z.pos P2 * 2 ^ (e2 - e1) ->
  e1 <= fexp64 (Z.pos (digits2_pos P1) + e1) ->
  e2 <= fexp64 (Z.pos (digits2_pos P2) + e2) ->
  rank_rounded P1 e1 <= rank_rounded P2 e2.
Proof.
  intros He HP Hs1 Hs2. unfold rank_rounded.
  pose proof (rne_regime P1 e1) as R1. pose proof (rne_regime P2 e2) as R2.
  cbv zeta in R1, R2. specialize (R1 Hs1). specialize (R2 Hs2).
  pose proof (digits2_bounds P1) as Hd1. pose proof (digits2_bounds P2) as Hd2.
  set (d1 := Z.pos (digits2_pos P1)) in *. set (d2 := Z.pos (digits2_pos P2)) in *.
  assert (Hd1' : 1 <= d1) by (subst d1; lia). assert (Hd2' : 1 <= d2) by (subst d2; lia).
  assert (Hmu : d1 + e1 <= d2 + e2).
  { pose proof (pow2_pos (e2 - e1) ltac:(lia)) as Hp.
    assert (H : Z.pos P2 * 2 ^ (e2 - e1) < 2 ^ d2 * 2 ^ (e2 - e1))
      by (apply Z.mul_lt_mono_pos_r; lia).
    rewrite <- Z.pow_add_r in H by lia.
    assert (Hlt : 2 ^ (d1 - 1) < 2 ^ (d2 + (e2 - e1))) by lia.
    apply Z.pow_lt_mono_r_iff in Hlt; lia. }
  set (E1 := fexp64 (d1 + e1)) in *. set (E2 := fexp64 (d2 + e2)) in *.
  assert (HE : E1 <= E2) by (subst E1 E2; unfold fexp64; lia).
  destruct R1 as (HE1 & Hr1 & Hreg1). destruct R2 as (HE2 & Hr2 & Hreg2).
  set (rho1 := rne (Z.pos P1) (E1 - e1)) in *. set (rho2 := rne (Z.pos P2) (E2 - e2)) in *.
  pose proof (pow2_pos (E1 + 1074) ltac:(lia)) as Hp1.
  destruct (Z.eq_dec E1 E2) as [Heq|Hne].
  - rewrite <- Heq. apply Z.mul_le_mono_nonneg_r; [lia|].
    subst rho1 rho2. rewrite <- Heq.
    rewrite <- (rne_scale (Z.pos P2) (E1 - e2) (e2 - e1)) by lia.
    replace (E1 - e2 + (e2 - e1)) with (E1 - e1) by lia.
    apply rne_mono; lia.
  - assert (Hn2 : 2 ^ 52 <= rho2) by lia.
    assert (Hpow : 2 * 2 ^ (E1 + 1074) <= 2 ^ (E2 + 1074)).
    { rewrite <- Z.pow_succ_r by lia. apply Z.pow_le_mono_r; lia. }
    assert (rho1 * 2 ^ (E1 + 1074) <= 2 ^ 53 * 2 ^ (E1 + 1074))
      by (apply Z.mul_le_mono_nonneg_r; lia).
    assert (2 ^ 52 * 2 ^ (E2 + 1074) <= rho2 * 2 ^ (E2 + 1074))
      by (apply Z.mul_le_mono_nonneg_r; lia).
    assert (2 ^ 52 * (2 * 2 ^ (E1 + 1074)) <= 2 ^ 52 * 2 ^ (E2 + 1074))
      by (apply Z.mul_le_mono_nonneg_l; lia).
    lia.
Qed.

Lemma ord_nonneg (x : float) : 0 <= ord x.
Proof.
  pose proof ord_infinity_pos. destruct x as [s|s| |s m e]; cbn [ord]; lia.
Qed.

(** Multiplication by a non-negative finite double is monotone on the
    non-negative finite doubles. *)
Lemma mul_monotone (a1 a2 c : float) :
  nonneg_finite a1 = true -> nonneg_finite a2 = true -> nonneg_finite c = true ->
  leb a1 a2 = true -> leb (mul a1 c) (mul a2 c) = true.
Proof.
  intros H1 H2 Hc Hle.
  destruct c as [sc|sc| |sc mc ec]; cbn [nonneg_finite nonneg_valid] in Hc; try discriminate.
  - destruct a1 as [s1|s1| |s1 m1 e1], a2 as [s2|s2| |s2 m2 e2];
      cbn [nonneg_finite nonneg_valid] in H1, H2; try discriminate; reflexivity.
  - destruct sc; [discriminate|]. cbn [negb andb] in Hc.
    destruct a1 as [s1|s1| |s1 m1 e1]; cbn [nonneg_finite nonneg_valid] in H1;
      try discriminate.
    + destruct a2 as [s2|s2| |s2 m2 e2]; cbn [nonneg_finite nonneg_valid] in H2;
        try discriminate; [reflexivity|].
      destruct s2; [discriminate|]. cbn [negb andb] in H2.
      pose proof (mul_ord m2 mc e2 ec H2 Hc) as [Hv Ho]. cbv zeta in Hv.
      apply leb_ord; [reflexivity|exact Hv|]. cbn [mul SFmul ord]. apply ord_nonneg.
    + destruct s1; [discriminate|]. cbn [negb andb] in H1.
      destruct a2 as [s2|s2| |s2 m2 e2]; cbn [nonneg_finite nonneg_valid] in H2;
        try discriminate.
      destruct s2; [discriminate|]. cbn [negb andb] in H2.
      pose proof (mul_ord m1 mc e1 ec H1 Hc) as [Hv1 Ho1].
        pose proof (mul_ord m2 mc e2 ec H2 Hc) as [Hv2 Ho2]. cbv zeta in *.
        apply leb_ord; [exact Hv1|exact Hv2|]. rewrite Ho1, Ho2.
        apply Z.min_le_compat_r.
        pose proof (proj1 (leb_ord (S754_finite false m1 e1) (S754_finite false m2 e2)
                             H1 H2) Hle) as Ho. cbn [ord] in Ho.
        apply bounded_spec in H1 as B1. apply bounded_spec in H2 as B2.
        destruct B1 as (Be1 & Bm1 & Bn1). destruct B2 as (Be2 & Bm2 & Bn2).
        assert (He : e1 <= e2).
        { destruct (Z_le_gt_dec e1 e2); [assumption|exfalso].
          pose proof (ord_exponent_lt m2 m1 e2 e1 H2 H1 ltac:(lia)) as Hlt.
          cbn [ord] in Hlt. lia. }
        assert (Hm : Z.pos m1 <= Z.pos m2 * 2 ^ (e2 - e1)).
        { pose proof (pow2_pos (e1 + 1074) ltac:(lia)) as Hp.
          replace (e2 + 1074) with ((e2 - e1) + (e1 + 1074)) in Ho by lia.
          rewrite (Z.pow_add_r 2 (e2 - e1) (e1 + 1074)), Z.mul_assoc in Ho by lia.
          apply Z.mul_le_mono_pos_r in Ho; assumption. }
        apply rank_rounded_mono.
        * lia.
        * rewrite !Pos2Z.inj_mul.
           replace (Z.pos m2 * Z.pos mc * 2 ^ (e2 + ec - (e1 + ec)))
             with (Z.pos m2 * 2 ^ (e2 - e1) * Z.pos mc)
             by (replace (e2 + ec - (e1 + ec)) with (e2 - e1) by lia; ring).
           apply Z.mul_le_mono_nonneg_r; lia.
        * apply product_shift_nonneg; assumption.
        * apply product_shift_nonneg; assumption.
Qed.

Lemma shr_1_div2 (mrs : shr_record) :
  0 <= shr_m mrs -> shr_m (shr_1 mrs) = shr_m mrs / 2.
Proof.
  intros H. rewrite <- Z.div2_div.
  destruct mrs as [[|[p|p|]|p] r s]; cbn [shr_m] in H; try lia; reflexivity.
Qed.

Lemma iter_shr_1_div (mrs : shr_record) (k : positive) :
  0 <= shr_m mrs ->
  shr_m (SpecFloat.iter_pos shr_1 k mrs) = shr_m mrs / 2 ^ Z.pos k.
Proof.
  intros H. rewrite iter_pos_Pos_iter.
  assert (Hboth : 0 <= shr_m (Pos.iter shr_1 mrs k) /\
                  shr_m (Pos.iter shr_1 mrs k) = shr_m mrs / 2 ^ Z.pos k); [|apply Hboth].
  induction k as [|k [IH0 IH]] using Pos.peano_ind.
  - cbn [Pos.iter]. split; [apply shr_1_nonneg, H|]. rewrite shr_1_div2 by exact H. reflexivity.
  - rewrite Pos.iter_succ. split; [apply shr_1_nonneg, IH0|].
    rewrite shr_1_div2, IH, Pos2Z.inj_succ, Z.pow_succ_r by lia.
    rewrite Z.div_div by (try apply pow2_pos; lia). f_equal. lia.
Qed.

Lemma round_nearest_even_bounds (m : Z) (l : location) :
  m <= round_nearest_even m l <= m + 1.
Proof. destruct l as [|[| |]]; cbn; try destruct (Z.even m); lia. Qed.

(** Rounding a positive mantissa with any location, away from overflow,
    gives a non-negative finite double. *)
Lemma binary_round_aux_finite (m e : Z) (l : location) :
  0 < m ->
  let E := fexp64 (Zdigits2 m + e) in
  e <= E -> E <= 970 ->
  nonneg_finite (binary_round_aux prec emax false m e l) = true.
Proof.
  intros Hm E HE Hmax. destruct m as [|P|P]; [lia| |lia]. cbn [Zdigits2] in E.
  pose proof (digits2_bounds P) as Hd. set (d := Z.pos (digits2_pos P)) in *.
  assert (Hd1 : 1 <= d) by (subst d; lia).
  unfold binary_round_aux. unfold shr_fexp at 1. cbn [Zdigits2]. rewrite fexp_fexp64.
  fold d. fold E. unfold shr.
  set (n := E - e). assert (Hn : 0 <= n) by (subst n; lia).
  pose proof (pow2_pos n Hn) as HB.
  assert (Hregime : forall q, q = Z.pos P / 2 ^ n ->
            0 <= q /\ q < 2 ^ 53 /\ (2 ^ 52 <= q \/ (E = -1074 /\ q < 2 ^ 52))).
  { intros q ->. split; [apply Z.div_pos; lia|].
    unfold fexp64 in E. destruct (Z_le_gt_dec (-1074) (d + e - 53)) as [Hnorm|Hsub].
    - assert (HEq : E = d + e - 53) by (subst E; lia).
      assert (Hlow : 2 ^ 52 * 2 ^ n = 2 ^ (d - 1))
        by (rewrite <- Z.pow_add_r by lia; f_equal; lia).
      assert (Hhigh : 2 ^ 53 * 2 ^ n = 2 ^ d)
        by (rewrite <- Z.pow_add_r by lia; f_equal; lia).
      split; [apply Z.div_lt_upper_bound; lia|].
      left. apply Z.div_le_lower_bound; lia.
    - assert (HEq : E = -1074) by (subst E; lia).
      assert (Hle : 2 ^ d <= 2 ^ 52 * 2 ^ n).
      { rewrite <- Z.pow_add_r by lia. apply Z.pow_le_mono_r; lia. }
      assert (Z.pos P / 2 ^ n < 2 ^ 52) by (apply Z.div_lt_upper_bound; lia).
      split; [lia|]. right. split; [exact HEq|assumption]. }
  assert (Hfinal : forall mrs e', e' = E -> shr_m mrs = Z.pos P / 2 ^ n ->
            nonneg_finite (rounded (round_nearest_even (shr_m mrs) (loc_of_shr_record mrs)) e')
            = true).
  { intros mrs e' -> Hq. destruct (Hregime _ Hq) as (Hq0 & Hq1 & Hq2).
    pose proof (round_nearest_even_bounds (shr_m mrs) (loc_of_shr_record mrs)) as Hr.
    set (rho := round_nearest_even _ _) in *.
    assert (HE1074 : -1074 <= E) by (subst E; unfold fexp64; lia).
    destruct (rounded_ord rho E HE1074 ltac:(lia) ltac:(lia)) as [Hv Ho].
    assert (Hlt : rho * 2 ^ (E + 1074) < ord_infinity)
      by (apply (below_infinity _ 54); lia).
    destruct (rounded rho E) as [s|s| |s m' e'']; cbn [nonneg_finite nonneg_valid] in *;
      try assumption. cbn [ord] in Ho. lia. }
  destruct n as [|k|k] eqn:Hk; [| |lia].
  - apply Hfinal; [lia|]. destruct l as [|[| |]]; cbn [shr_record_of_loc shr_m];
      cbn [Z.pow]; rewrite Z.div_1_r; reflexivity.
  - apply Hfinal; [lia|]. rewrite iter_shr_1_div.
    + destruct l as [|[| |]]; reflexivity.
    + destruct l as [|[| |]]; cbn; lia.
Qed.

(** [base_value / 1000] is a non-negative finite double for every
    non-negative int below 2^53. *)
Lemma value_per_pixel_finite (base_value : Z) :
  0 <= base_value < 2 ^ 53 ->
  nonneg_finite (div (of_Z base_value) (of_Z 1000)) = true.
Proof.
  intros Hb. destruct (Z.eq_dec base_value 0) as [->|Hnz]; [reflexivity|].
  destruct (of_Z_exact base_value ltac:(lia)) as (mb & eb & -> & Heb & Hmb & Hmr).
  change (of_Z 1000) with (S754_finite false 8796093022208000 (-43)).
  unfold div, SFdiv, SFdiv_core_binary. cbn [xorb Zdigits2].
  rewrite (digits2_unique mb 53) by lia.
  change (Z.pos (digits2_pos 8796093022208000)) with 53.
  rewrite fexp_fexp64. unfold fexp64.
  replace (Z.min (Z.max (53 + eb - (53 + -43) - 53) (-1074)) (eb - -43)) with (eb - 10) by lia.
  replace (eb - -43 - (eb - 10)) with 53 by lia. cbv beta iota.
  rewrite Z.shiftl_mul_pow2 by lia.
  set (a := Z.pos mb * 2 ^ 53). set (b := Z.pos 8796093022208000).
  assert (Hq : fst (Z.div_eucl a b) = a / b) by reflexivity.
  destruct (Z.div_eucl a b) as [q r]. cbn [fst] in Hq. subst q.
  assert (Hlo : 2 ^ 52 <= a / b).
  { apply Z.div_le_lower_bound; [subst b; lia|]. subst a b.
    assert (2 ^ 52 * 2 ^ 53 <= Z.pos mb * 2 ^ 53) by (apply Z.mul_le_mono_nonneg_r; lia).
    lia. }
  assert (Hhi : a / b < 2 ^ 54).
  { apply Z.div_lt_upper_bound; [subst b; lia|]. subst a b.
    assert (Z.pos mb * 2 ^ 53 < 2 ^ 53 * 2 ^ 53) by (apply Z.mul_lt_mono_pos_r; lia).
    lia. }
  destruct (a / b) as [|q|q] eqn:Hq; [lia| |lia].
  pose proof (digits2_bounds q) as Hd.
  assert (Hdq : 53 <= Z.pos (digits2_pos q) <= 54).
  { set (d := Z.pos (digits2_pos q)) in *. split.
    - destruct (Z_le_gt_dec 53 d); [assumption|].
      assert (2 ^ d <= 2 ^ 52) by (apply Z.pow_le_mono_r; lia). lia.
    - destruct (Z_le_gt_dec d 54); [assumption|].
      assert (2 ^ 54 <= 2 ^ (d - 1)) by (apply Z.pow_le_mono_r; lia). lia. }
  apply binary_round_aux_finite; cbn [Zdigits2]; unfold fexp64; lia.
Qed.

(** ** Labels *)

(** C7: on a non-empty region (of fewer than 2^40 pixels, so that the
    double product with 0.1 or 0.2 decides as the exact fraction does), the
    equipment classifier answers rust exactly when the rust-coloured pixels
    are strictly more than a tenth of all pixels, otherwise oil leak exactly
    when the dark pixels are strictly more than a fifth of all pixels,
    otherwise good; the helmet check answers compliant exactly when the
    bright pixels are strictly more than a tenth of the region's pixels. *)
Theorem labels_follow_ordered_thresholds (cv : OpenCV) (roi : Image) :
  size roi <> 0 ->
  shape0 roi * shape1 roi < 2 ^ 40 ->
  let hsv := BGR2HSV cv roi in
  let total_pixels := shape0 roi * shape1 roi in
  let rust_pixels := countNonZero (inRange hsv rust_lower rust_upper) in
  let oil_pixels := countNonZero (inRange hsv oil_lower oil_upper) in
  let bright_pixels := countNonZero (inRange hsv (0, 0, 200) (180, 30, 255)) in
  MiningCVSystem.assess_equipment_health cv roi =
    Some (if total_pixels <? 10 * rust_pixels then Rust_Detected
          else if total_pixels <? 5 * oil_pixels then Oil_Leak
          else Good) /\
  MiningCVSystem.detect_helmet cv roi = Some (total_pixels <? 10 * bright_pixels).
Proof.
  intros Hsize Hsmall. cbv zeta.
  assert (Ht : 0 < shape0 roi * shape1 roi < 2 ^ 40).
  { split; [|exact Hsmall]. unfold size in Hsize.
    assert (0 <= shape0 roi * shape1 roi); [|lia].
    apply Z.mul_nonneg_nonneg; [unfold shape0|unfold shape1; destruct roi]; lia. }
  unfold MiningCVSystem.assess_equipment_health, MiningCVSystem.detect_helmet, cvtColor_HSV.
  destruct (size roi =? 0) eqn:E; [apply Z.eqb_eq in E; contradiction|].
  cbn [mbind option_bind].
  rewrite !Z_gtb_tenth, Z_gtb_fifth by exact Ht.
  split; [|reflexivity].
  destruct (_ <? 10 * _); [reflexivity|]. destruct (_ <? 5 * _); reflexivity.
Qed.

(** Ten rust-coloured pixels: rust, and no helmet. *)
Lemma rusty_region_example :
  let roi := filled 2 5 (10, 200, 200) in
  size roi <> 0 /\
  shape0 roi * shape1 roi < 2 ^ 40 /\
  MiningCVSystem.assess_equipment_health plain_cv roi = Some Rust_Detected /\
  MiningCVSystem.detect_helmet plain_cv roi = Some false.
Proof.
  intros roi.
  assert (H1 : size roi <> 0) by (vm_compute; discriminate).
  assert (H2 : shape0 roi * shape1 roi < 2 ^ 40) by (vm_compute; reflexivity).
  split; [exact H1|]. split; [exact H2|].
  exact (labels_follow_ordered_thresholds plain_cv roi H1 H2).
Defined.

(** ** Ore value *)

(** C10, as stated, fails: for iron (base value 100), the value of the area
    1.0 + 5.0 is 0.6000000000000001 and the sum of the values of 1.0 and 5.0
    is 0.6. *)
Lemma ore_value_not_additive :
  let value := fun area => utils.calculate_ore_value "iron" area config.ORE_TYPES in
  value (add (of_Z 1) (of_Z 5)) = S754_finite false 5404319552844596 (-53) /\
  add (value (of_Z 1)) (value (of_Z 5)) = S754_finite false 5404319552844595 (-53) /\
  value (add (of_Z 1) (of_Z 5)) <> add (value (of_Z 1)) (value (of_Z 5)).
Proof.
  cbv beta zeta.
  assert (H1 : utils.calculate_ore_value "iron" (add (of_Z 1) (of_Z 5)) config.ORE_TYPES
               = S754_finite false 5404319552844596 (-53)) by (vm_compute; reflexivity).
  assert (H2 : add (utils.calculate_ore_value "iron" (of_Z 1) config.ORE_TYPES)
                   (utils.calculate_ore_value "iron" (of_Z 5) config.ORE_TYPES)
               = S754_finite false 5404319552844595 (-53)) by (vm_compute; reflexivity).
  rewrite H1, H2. repeat split. discriminate.
Qed.

(** C10, amended: for an ore type of the table, the value is the double
    product of the area and the double quotient of the base value by 1000,
    each rounded to the nearest double; for a base value from 0 to 2^53 - 1
    it is monotone in the area over the non-negative finite doubles; for an
    ore type that is not in the table the value is 0.0 whatever the area. *)
Theorem ore_value_is_rounded_product (ore_type : string) (params : config.OreParams)
    (ore_types_config : gmap string config.OreParams) (a1 a2 : float) :
  ore_types_config !! ore_type = Some params ->
  0 <= config.value params < 2 ^ 53 ->
  nonneg_finite a1 = true -> nonneg_finite a2 = true -> leb a1 a2 = true ->
  utils.calculate_ore_value ore_type a1 ore_types_config =
    mul a1 (div (of_Z (config.value params)) (of_Z 1000)) /\
  leb (utils.calculate_ore_value ore_type a1 ore_types_config)
      (utils.calculate_ore_value ore_type a2 ore_types_config) = true /\
  (forall (absent : string) (area : float),
     ore_types_config !! absent = None ->
     utils.calculate_ore_value absent area ore_types_config = lit_0_0).
Proof.
  intros Hin Hbase H1 H2 Hle. unfold utils.calculate_ore_value. rewrite Hin.
  split; [reflexivity|]. split.
  - apply mul_monotone; try assumption. apply value_per_pixel_finite, Hbase.
  - intros absent area ->. reflexivity.
Qed.

(** Iron at the areas 500.0 and 520.0, and an ore type that is not listed. *)
Lemma iron_value_example :
  let a1 := contourArea contour_500 in
  let a2 := of_Z 520 in
  config.ORE_TYPES !! "iron"%string
    = Some {| config.color_range := ((0, 50, 50), (20, 255, 255)); config.value := 100 |} /\
  nonneg_finite a1 = true /\ nonneg_finite a2 = true /\ leb a1 a2 = true /\
  leb (utils.calculate_ore_value "iron" a1 config.ORE_TYPES)
      (utils.calculate_ore_value "iron" a2 config.ORE_TYPES) = true /\
  utils.calculate_ore_value "platinum" a1 config.ORE_TYPES = lit_0_0.
Proof.
  intros a1 a2.
  assert (Hin : config.ORE_TYPES !! "iron"%string
                = Some {| config.color_range := ((0, 50, 50), (20, 255, 255));
                          config.value := 100 |}) by (vm_compute; reflexivity).
  assert (H1 : nonneg_finite a1 = true) by (vm_compute; reflexivity).
  assert (H2 : nonneg_finite a2 = true) by (vm_compute; reflexivity).
  assert (Hle : leb a1 a2 = true) by (vm_compute; reflexivity).
  pose proof (ore_value_is_rounded_product "iron" _ config.ORE_TYPES a1 a2 Hin
                ltac:(cbn; lia) H1 H2 Hle) as (_ & Hm & Habs).
  repeat (split; [assumption|]). apply Habs. vm_compute. reflexivity.
Defined.

(** ** The event log of the security monitor *)

Lemma happen_log_consistent (cv : OpenCV) (st : SmartSecurityMonitor.state) (h : Happening) :
  log_consistent st -> log_consistent (happen cv st h).
Proof.
  intros (H1 & H2 & H3 & H4). destruct h as [now img|value|value|[|]]; cbn [happen].
  - pose proof (process_one_motion cv now st img) as H. cbv zeta in H.
    assert (Hc : SmartSecurityMonitor.detection_count
                   (SmartSecurityMonitor.process_one cv now st img)
                 = SmartSecurityMonitor.total_detections
                     (SmartSecurityMonitor.process_one cv now st img)).
    { unfold SmartSecurityMonitor.process_one.
      destruct (SmartSecurityMonitor.background_frame st); [|exact H2].
      destruct (SmartSecurityMonitor.detect_motion cv st _ _ _) as [motion frame].
      cbn. rewrite H2. reflexivity. }
    unfold log_consistent. rewrite Hc.
    destruct (frame_motion cv st img) as [motion|].
    + destruct H as (_ & Ht & Hl). rewrite Ht, Hl.
      destruct (motion && negb (SmartSecurityMonitor.motion_detected st)).
      * rewrite length_app, !map_app, seq_app, map_app, Forall_app, <- H3. cbn.
        rewrite H2, H1. repeat split; auto; try lia.
        apply f_equal, (f_equal (fun x => [x])). lia.
      * rewrite app_nil_r. repeat split; auto; lia.
    + destruct H as (_ & Ht & Hl). rewrite Ht, Hl. repeat split; auto.
  - repeat split; auto.
  - repeat split; auto.
  - repeat split; auto.
  - repeat split; auto.
Qed.

Lemma session_log_consistent (cv : OpenCV) (hs : list Happening) :
  log_consistent (session cv hs).
Proof.
  unfold session. induction hs as [|h hs IH] using rev_ind.
  - cbn. repeat split; auto.
  - rewrite fold_left_app. cbn. apply happen_log_consistent, IH.
Qed.

(** X1: in every session of the security monitor (frames processed by the
    video loop, slider moves and log clearings between iterations, in any
    order) the detection total, the detection counter and the length of the
    event log are equal, the events are "Motion Detected" events numbered
    1, 2, ... in order, and [save_report] writes nothing when the log is
    empty or the dialog is cancelled, and otherwise a report whose total is
    the number of events it lists. *)
Theorem log_agrees_with_counters (cv : OpenCV) (hs : list Happening) :
  let st := session cv hs in
  SmartSecurityMonitor.total_detections st
    = Z.of_nat (length (SmartSecurityMonitor.events_log st)) /\
  SmartSecurityMonitor.detection_count st = SmartSecurityMonitor.total_detections st /\
  map SmartSecurityMonitor.ev_description (SmartSecurityMonitor.events_log st)
    = map Z.of_nat (seq 1 (length (SmartSecurityMonitor.events_log st))) /\
  Forall (fun e => SmartSecurityMonitor.ev_type e = "Motion Detected"%string)
         (SmartSecurityMonitor.events_log st) /\
  forall session_start filename,
    match SmartSecurityMonitor.save_report session_start filename st with
    | Some (written, report) =>
        written = filename /\ filename <> ""%string /\
        SmartSecurityMonitor.r_events report <> [] /\
        SmartSecurityMonitor.r_total_detections report
          = Z.of_nat (length (SmartSecurityMonitor.r_events report))
    | None => filename = ""%string \/ SmartSecurityMonitor.events_log st = []
    end.
Proof.
  cbv zeta. destruct (session_log_consistent cv hs) as (H1 & H2 & H3 & H4).
  repeat split; auto.
  intros session_start filename. unfold SmartSecurityMonitor.save_report.
  destruct (SmartSecurityMonitor.events_log (session cv hs)) as [|e l] eqn:El; [auto|].
  destruct (String.eqb filename "") eqn:Ef.
  - apply String.eqb_eq in Ef. auto.
  - apply String.eqb_neq in Ef. cbn. rewrite H1. repeat split; auto.
Qed.

(** ** The frame on display *)

(** X2: a frame that the video loop analyses is put on display with the
    boxes and labels of its motion contours followed by the three texts of
    the status overlay: the time, the detection total that already counts
    this frame, and a status that reads "MOTION DETECTED" in green exactly
    when the frame carries at least one box, "SECURE" in red otherwise; the
    status label of the window agrees with it. *)
Theorem overlay_agrees_with_boxes (cv : OpenCV) (now : Timestamp)
    (st : SmartSecurityMonitor.state) (img : Image) (background : Gray) :
  SmartSecurityMonitor.background_frame st = Some background ->
  let st' := SmartSecurityMonitor.process_one cv now st img in
  exists frame' marks,
    SmartSecurityMonitor.video_label st' = Some frame' /\
    captured frame' = flip_horizontal cv img /\
    drawn frame' =
      marks ++
      [PutText (TimestampLabel now) (10, 30) white;
       PutText (DetectionsLabel (SmartSecurityMonitor.total_detections st')) (10, 60) white;
       (if SmartSecurityMonitor.motion_detected st'
        then PutText MOTION_DETECTED (shape1 (flip_horizontal cv img) - 200, 30) green
        else PutText SECURE (shape1 (flip_horizontal cv img) - 200, 30) red)] /\
    (SmartSecurityMonitor.motion_detected st' = true <-> rectangles marks <> []) /\
    SmartSecurityMonitor.motion_label st' = SmartSecurityMonitor.motion_detected st'.
Proof.
  intros Hbg. cbv zeta. unfold SmartSecurityMonitor.process_one. rewrite Hbg.
  unfold SmartSecurityMonitor.detect_motion.
  set (contours := findContours cv _).
  pose proof (motion_contour_loop (SmartSecurityMonitor.min_area st) contours false
                (new_frame (flip_horizontal cv img))) as H.
  cbv zeta in H.
  assert (Hcap : forall cs acc,
            captured (snd (fold_left (SmartSecurityMonitor.motion_contour
                                        (SmartSecurityMonitor.min_area st)) cs acc))
            = captured (snd acc)).
  { induction cs as [|c cs IH]; intros [m f]; [reflexivity|]. cbn [fold_left].
    destruct (motion_contour_step (SmartSecurityMonitor.min_area st) m f c)
      as (text & org & ->).
    destruct (gtb_Z (contourArea c) (SmartSecurityMonitor.min_area st)); rewrite IH; reflexivity. }
  specialize (Hcap contours (false, new_frame (flip_horizontal cv img))).
  destruct (fold_left _ contours (false, new_frame (flip_horizontal cv img)))
    as [motion frame'].
  cbn [fst snd new_frame drawn captured] in H, Hcap. destruct H as [H1 H2].
  cbn [SmartSecurityMonitor.video_label SmartSecurityMonitor.motion_detected
       SmartSecurityMonitor.total_detections SmartSecurityMonitor.motion_label].
  eexists _, (drawn frame'). split; [reflexivity|].
  unfold SmartSecurityMonitor.add_status_overlay. cbn [annotate drawn captured].
  rewrite Hcap. split; [reflexivity|]. split.
  - rewrite <- !app_assoc. cbn [app]. destruct motion; reflexivity.
  - split; [|reflexivity]. rewrite H2, H1. cbn [app orb].
    destruct (above _ contours); cbn; split; intros; congruence.
Qed.

(** A dark background, then a bright frame: the overlay follows the boxes. *)
Lemma bright_frame_overlay_example :
  let dark := filled 40 40 (0, 0, 0) in
  let bright := filled 40 40 (0, 200, 0) in
  let st := SmartSecurityMonitor.process_one plain_cv "t0" SmartSecurityMonitor.init dark in
  let st' := SmartSecurityMonitor.process_one plain_cv "t1" st bright in
  SmartSecurityMonitor.background_frame st
    = Some (SmartSecurityMonitor.blurred_gray plain_cv dark) /\
  SmartSecurityMonitor.motion_detected st' = true /\
  SmartSecurityMonitor.total_detections st' = 1 /\
  exists frame' marks,
    SmartSecurityMonitor.video_label st' = Some frame' /\
    captured frame' = flip_horizontal plain_cv bright /\
    drawn frame' =
      marks ++
      [PutText (TimestampLabel "t1") (10, 30) white;
       PutText (DetectionsLabel (SmartSecurityMonitor.total_detections st')) (10, 60) white;
       (if SmartSecurityMonitor.motion_detected st'
        then PutText MOTION_DETECTED (shape1 (flip_horizontal plain_cv bright) - 200, 30) green
        else PutText SECURE (shape1 (flip_horizontal plain_cv bright) - 200, 30) red)] /\
    (SmartSecurityMonitor.motion_detected st' = true <-> rectangles marks <> []) /\
    SmartSecurityMonitor.motion_label st' = SmartSecurityMonitor.motion_detected st'.
Proof.
  intros dark bright st st'.
  split; [reflexivity|]. split; [vm_compute; reflexivity|]. split; [vm_compute; reflexivity|].
  exact (overlay_agrees_with_boxes plain_cv "t1" st bright
           (SmartSecurityMonitor.blurred_gray plain_cv dark) eq_refl).
Defined.

(** ** The motion mask *)

Lemma threshold_binary (src : Gray) (thresh : Z) : binary_mask (threshold src thresh).
Proof.
  unfold binary_mask, threshold. apply Forall_fmap, Forall_true. intros row. cbn.
  apply Forall_fmap, Forall_true. intros v. cbn. destruct (thresh <? v); auto.
Qed.

Lemma threshold_antitone (src : Gray) (s s' : Z) :
  s <= s' -> mask_le (threshold src s') (threshold src s).
Proof.
  intros Hs. unfold mask_le, threshold. apply Forall2_fmap, Forall_Forall2_diag, Forall_true.
  intros row. apply Forall2_fmap, Forall_Forall2_diag, Forall_true. intros v.
  destruct (s' <? v) eqn:E1, (s <? v) eqn:E2; lia.
Qed.

Lemma pixel_at_elem (img : Gray) (r c v : Z) :
  pixel_at img r c = Some v -> exists row, row ∈ img /\ v ∈ row.
Proof.
  unfold pixel_at. destruct ((0 <=? r) && (0 <=? c)); [|discriminate].
  destruct (img !! Z.to_nat r) as [row|] eqn:Hr; [|discriminate]. cbn. intros Hc.
  exists row. split; eapply list_elem_of_lookup_2; eauto.
Qed.

Lemma pixel_at_binary (img : Gray) (r c v : Z) :
  binary_mask img -> pixel_at img r c = Some v -> v = 0 \/ v = 255.
Proof.
  intros Hb Hp. apply pixel_at_elem in Hp as (row & Hr & Hv).
  unfold binary_mask in Hb. rewrite Forall_forall in Hb. specialize (Hb _ Hr).
  rewrite Forall_forall in Hb. exact (Hb _ Hv).
Qed.

Lemma under_kernel_binary (kernel : list (Z * Z)) (img : Gray) (r c : Z) :
  binary_mask img -> Forall (fun v => v = 0 \/ v = 255) (under_kernel kernel img r c).
Proof.
  intros Hb. apply Forall_forall. intros v Hv. unfold under_kernel in Hv.
  apply list_elem_of_omap in Hv as (d & _ & Hd). eapply pixel_at_binary; eauto.
Qed.

Lemma morph_binary (combine : Z -> Z -> Z) (border : Z) (kernel : list (Z * Z))
    (img : Gray) :
  (border = 0 \/ border = 255) ->
  (forall a b, (a = 0 \/ a = 255) -> (b = 0 \/ b = 255) ->
               combine a b = 0 \/ combine a b = 255) ->
  binary_mask img -> binary_mask (morph combine border kernel img).
Proof.
  intros Hborder Hcomb Hb. unfold binary_mask, morph.
  apply Forall_lookup. intros r out Hout.
  rewrite list_lookup_imap in Hout. apply fmap_Some in Hout as (row & Hr & ->).
  apply Forall_lookup. intros c v Hv. rewrite list_lookup_imap in Hv.
  apply fmap_Some in Hv as (w & Hc & ->).
  pose proof (under_kernel_binary kernel img (Z.of_nat r) (Z.of_nat c) Hb) as Hu.
  induction Hu as [|u l Hu _ IH]; cbn; auto.
Qed.

Lemma morphologyEx_binary (src : Gray) (op : MorphOp) (kernel : list (Z * Z)) :
  binary_mask src -> binary_mask (morphologyEx src op kernel).
Proof.
  intros Hb. destruct op; cbn; unfold erode, dilate;
    repeat (apply morph_binary; [auto|intros a b [->| ->] [->| ->]; cbn; auto|]); exact Hb.
Qed.

Lemma mask_le_lookup (a b : Gray) (r : nat) (row : list Z) :
  mask_le a b -> b !! r = Some row ->
  exists row', a !! r = Some row' /\ Forall2 Z.le row' row.
Proof.
  intros Hle Hr. unfold mask_le in Hle.
  destruct (Forall2_lookup_r _ _ _ _ _ Hle Hr) as (row' & Hr' & Hrow). eauto.
Qed.

Lemma pixel_at_le (a b : Gray) (r c : Z) :
  mask_le a b -> option_Forall2 Z.le (pixel_at a r c) (pixel_at b r c).
Proof.
  intros Hle. unfold pixel_at, Gray in *. destruct ((0 <=? r) && (0 <=? c)); [|constructor].
  unfold mask_le in Hle. rewrite Forall2_lookup in Hle. specialize (Hle (Z.to_nat r)).
  revert Hle. destruct (a !! Z.to_nat r) as [rowa|], (b !! Z.to_nat r) as [rowb|];
    intros Hle; inversion Hle as [? ? Hrow|]; subst; cbn; [|constructor].
  rewrite Forall2_lookup in Hrow. apply Hrow.
Qed.

Lemma under_kernel_le (kernel : list (Z * Z)) (a b : Gray) (r c : Z) :
  mask_le a b -> Forall2 Z.le (under_kernel kernel a r c) (under_kernel kernel b r c).
Proof.
  intros Hle. unfold under_kernel. induction kernel as [|d kernel IH]; cbn; [constructor|].
  pose proof (pixel_at_le a b (r + fst d) (c + snd d) Hle) as Hp.
  revert Hp. destruct (pixel_at a _ _), (pixel_at b _ _);
    intros Hp; inversion Hp; subst; [|exact IH].
  constructor; assumption.
Qed.

Lemma foldr_le (combine : Z -> Z -> Z) (border : Z) (l1 l2 : list Z) :
  (forall a1 a2 b1 b2, a1 <= a2 -> b1 <= b2 -> combine a1 b1 <= combine a2 b2) ->
  Forall2 Z.le l1 l2 -> foldr combine border l1 <= foldr combine border l2.
Proof.
  intros Hcomb H. induction H as [|v1 v2 l1 l2 Hv _ IH]; cbn; [lia|]. apply Hcomb; assumption.
Qed.

Lemma morph_monotone (combine : Z -> Z -> Z) (border : Z) (kernel : list (Z * Z))
    (a b : Gray) :
  (forall a1 a2 b1 b2, a1 <= a2 -> b1 <= b2 -> combine a1 b1 <= combine a2 b2) ->
  mask_le a b -> mask_le (morph combine border kernel a) (morph combine border kernel b).
Proof.
  intros Hcomb Hle. unfold mask_le, morph, Gray in *. apply Forall2_lookup. intros r.
  rewrite !list_lookup_imap.
  pose proof Hle as Hle'. unfold mask_le in Hle'. rewrite Forall2_lookup in Hle'.
  specialize (Hle' r).
  revert Hle'. destruct (a !! r) as [rowa|], (b !! r) as [rowb|];
    intros Hle'; inversion Hle' as [? ? Hrow|]; subst; cbn; constructor.
  apply Forall2_lookup. intros c. rewrite !list_lookup_imap.
  rewrite Forall2_lookup in Hrow. specialize (Hrow c).
  revert Hrow. destruct (rowa !! c) as [va|], (rowb !! c) as [vb|];
    intros Hrow; inversion Hrow; subst; cbn; constructor.
  apply foldr_le; [exact Hcomb|]. apply under_kernel_le, Hle.
Qed.

Lemma morphologyEx_monotone (a b : Gray) (op : MorphOp) (kernel : list (Z * Z)) :
  mask_le a b -> mask_le (morphologyEx a op kernel) (morphologyEx b op kernel).
Proof.
  intros Hle. destruct op; cbn; unfold erode, dilate;
    repeat (apply morph_monotone; [intros; lia|]); exact Hle.
Qed.

Lemma count_le (row1 row2 : list Z) :
  Forall (fun v => v = 0 \/ v = 255) row1 -> Forall2 Z.le row1 row2 ->
  Z.of_nat (length (List.filter (fun v => negb (v =? 0)) row1))
  <= Z.of_nat (length (List.filter (fun v => negb (v =? 0)) row2)).
Proof.
  intros Hb H. induction H as [|v1 v2 l1 l2 Hv _ IH]; cbn; [lia|].
  inversion Hb as [|? ? Hv1 Hl1]; subst. specialize (IH Hl1).
  destruct (v1 =? 0) eqn:E1, (v2 =? 0) eqn:E2; cbn; lia.
Qed.

Lemma countNonZero_le (a b : Gray) :
  binary_mask a -> mask_le a b -> countNonZero a <= countNonZero b.
Proof.
  intros Hb Hle. unfold countNonZero. apply count_le.
  - unfold binary_mask in Hb. clear Hle. induction Hb as [|row a Hrow _ IH]; cbn; [constructor|].
    apply Forall_app. auto.
  - clear Hb. induction Hle as [|ra rb a b Hr _ IH]; cbn; [constructor|].
    apply Forall2_app; assumption.
Qed.

(** X3: the motion mask is a binary image (each pixel 0 or 255), and it
    shrinks as the sensitivity setting grows: with a larger setting every
    pixel of the mask is at most what it was, so no pixel is added and the
    number of motion pixels does not grow. *)
Theorem larger_sensitivity_smaller_mask (background gray : Gray) (s s' : Z) :
  s <= s' ->
  let mask := SmartSecurityMonitor.motion_mask background gray s in
  let mask' := SmartSecurityMonitor.motion_mask background gray s' in
  binary_mask mask /\ binary_mask mask' /\
  mask_le mask' mask /\
  countNonZero mask' <= countNonZero mask.
Proof.
  intros Hs. cbv zeta. unfold SmartSecurityMonitor.motion_mask.
  assert (Hb : forall t, binary_mask
            (morphologyEx (morphologyEx (threshold (absdiff background gray) t)
                             MORPH_OPEN MORPH_ELLIPSE_3x3) MORPH_CLOSE MORPH_ELLIPSE_3x3))
    by (intros t; apply morphologyEx_binary, morphologyEx_binary, threshold_binary).
  assert (Hle : mask_le
            (morphologyEx (morphologyEx (threshold (absdiff background gray) s')
                             MORPH_OPEN MORPH_ELLIPSE_3x3) MORPH_CLOSE MORPH_ELLIPSE_3x3)
            (morphologyEx (morphologyEx (threshold (absdiff background gray) s)
                             MORPH_OPEN MORPH_ELLIPSE_3x3) MORPH_CLOSE MORPH_ELLIPSE_3x3))
    by (apply morphologyEx_monotone, morphologyEx_monotone, threshold_antitone, Hs).
  repeat split; auto. apply countNonZero_le; auto.
Qed.

(** A change of 100 gray levels over a 5x5 frame: 25 motion pixels at
    setting 50, none at setting 100. *)
Lemma sensitivity_50_and_100_example :
  let background := replicate 5 (replicate 5 0) in
  let gray := replicate 5 (replicate 5 100) in
  50 <= 100 /\
  countNonZero (SmartSecurityMonitor.motion_mask background gray 50) = 25 /\
  countNonZero (SmartSecurityMonitor.motion_mask background gray 100) = 0 /\
  mask_le (SmartSecurityMonitor.motion_mask background gray 100)
          (SmartSecurityMonitor.motion_mask background gray 50).
Proof.
  intros background gray. split; [lia|]. split; [reflexivity|]. split; [reflexivity|].
  exact (proj1 (proj2 (proj2 (larger_sensitivity_smaller_mask background gray 50 100
                                ltac:(lia))))).
Defined.


Lemma foldr_min_with_zero (l : list Z) :
  Forall (fun v => v = 0 \/ v = 255) l -> 0 ∈ l -> foldr Z.min 255 l = 0.
Proof.
  intros Hb Hin. induction Hb as [|v l Hv Hl IH]; [inversion Hin|]. cbn.
  assert (0 <= foldr Z.min 255 l).
  { clear IH Hin. induction Hl as [|u l Hu _ IH]; cbn; lia. }
  apply elem_of_cons in Hin as [<-|Hin]; [lia|]. rewrite IH by exact Hin. lia.
Qed.

Lemma erode_no_plus (mask : Gray) :
  binary_mask mask -> no_plus mask -> all_zero (erode MORPH_ELLIPSE_3x3 mask).
Proof.
  intros Hb Hn. apply morph_all_zero. intros r c row v Hr Hc.
  apply foldr_min_with_zero; [apply under_kernel_binary, Hb|].
  destruct (Hn (Z.of_nat r) (Z.of_nat c) v) as (d & Hd & Hp).
  - unfold pixel_at.
    replace ((0 <=? Z.of_nat r) && (0 <=? Z.of_nat c)) with true
      by (symmetry; apply andb_true_iff; split; apply Z.leb_le; lia).
    rewrite !Nat2Z.id. unfold Gray in *. rewrite Hr. cbn. exact Hc.
  - unfold under_kernel. apply list_elem_of_omap. eauto.
Qed.

(** X4: a change that contains no plus of five changed pixels (a pixel
    changed together with all of its neighbours above, below, left and
    right that lie inside the frame) is erased by the opening: the motion
    mask is all zero, and with a contour finder that finds nothing in an
    all-zero mask the frame shows no motion, adds no detection and logs no
    event. *)
Theorem change_without_plus_is_no_motion (cv : OpenCV) (now : Timestamp)
    (st : SmartSecurityMonitor.state) (img : Image) (background : Gray) :
  SmartSecurityMonitor.background_frame st = Some background ->
  (forall mask, all_zero mask -> findContours cv mask = []) ->
  no_plus (threshold (absdiff background (SmartSecurityMonitor.blurred_gray cv img))
                     (SmartSecurityMonitor.sensitivity st)) ->
  let st' := SmartSecurityMonitor.process_one cv now st img in
  all_zero (SmartSecurityMonitor.motion_mask background
              (SmartSecurityMonitor.blurred_gray cv img)
              (SmartSecurityMonitor.sensitivity st)) /\
  SmartSecurityMonitor.motion_detected st' = false /\
  SmartSecurityMonitor.total_detections st' = SmartSecurityMonitor.total_detections st /\
  SmartSecurityMonitor.events_log st' = SmartSecurityMonitor.events_log st /\
  SmartSecurityMonitor.alerts_played st' = SmartSecurityMonitor.alerts_played st.
Proof.
  intros Hbg Hfc Hn. cbv zeta.
  assert (Hz : all_zero (SmartSecurityMonitor.motion_mask background
              (SmartSecurityMonitor.blurred_gray cv img)
              (SmartSecurityMonitor.sensitivity st))).
  { unfold SmartSecurityMonitor.motion_mask.
    apply morphologyEx_all_zero. cbn [morphologyEx].
    apply dilate_all_zero, erode_no_plus; [apply threshold_binary|exact Hn]. }
  split; [exact Hz|].
  unfold SmartSecurityMonitor.process_one. rewrite Hbg.
  unfold SmartSecurityMonitor.detect_motion. rewrite (Hfc _ Hz). cbn. auto.
Qed.

(** One pixel that changes, in the middle of a 3x3 frame: no motion. *)
Lemma single_pixel_change_example :
  let background := replicate 3 (replicate 3 0) in
  let speck := gray_image [[0; 0; 0]; [0; 200; 0]; [0; 0; 0]] in
  let st := SmartSecurityMonitor.process_one plain_cv "t0" SmartSecurityMonitor.init
              (gray_image background) in
  SmartSecurityMonitor.background_frame st = Some background /\
  threshold (absdiff background (SmartSecurityMonitor.blurred_gray plain_cv speck)) 50
    = [[0; 0; 0]; [0; 255; 0]; [0; 0; 0]] /\
  all_zero (SmartSecurityMonitor.motion_mask background
              (SmartSecurityMonitor.blurred_gray plain_cv speck) 50) /\
  SmartSecurityMonitor.motion_detected
    (SmartSecurityMonitor.process_one plain_cv "t1" st speck) = false.
Proof.
  intros background speck st.
  split; [reflexivity|]. split; [reflexivity|].
  assert (Hn : no_plus (threshold (absdiff background
                          (SmartSecurityMonitor.blurred_gray plain_cv speck))
                          (SmartSecurityMonitor.sensitivity st))).
  { intros r c v Hp.
    destruct (Z.eq_dec r 1) as [->|Hr]; [destruct (Z.eq_dec c 1) as [->|Hc]|].
    - exists (1, 0). split; [unfold MORPH_ELLIPSE_3x3; set_solver|reflexivity].
    - exists (0, 0). split; [unfold MORPH_ELLIPSE_3x3; set_solver|].
      cbn [fst snd]. rewrite !Z.add_0_r.
      assert (c = 0 \/ c = 2) as [-> | ->]; [|reflexivity|reflexivity].
      unfold pixel_at in Hp. destruct (0 <=? c) eqn:E; [|discriminate].
      apply Z.leb_le in E. cbn in Hp.
      destruct (Z.to_nat c) as [|[|[|n]]] eqn:En; try discriminate; lia.
    - exists (0, 0). split; [unfold MORPH_ELLIPSE_3x3; set_solver|].
      cbn [fst snd]. rewrite !Z.add_0_r.
      unfold pixel_at in *.
      destruct ((0 <=? r) && (0 <=? c)) eqn:E; [|discriminate].
      apply andb_true_iff in E as [E1 E2]. apply Z.leb_le in E1, E2.
      destruct (Z.to_nat r) as [|[|[|n]]] eqn:En; try discriminate; try lia;
        cbn in Hp |- *;
        destruct (Z.to_nat c) as [|[|[|m]]] eqn:Em; try discriminate; inversion Hp; reflexivity. }
  pose proof (change_without_plus_is_no_motion plain_cv "t1" st speck background
                eq_refl span_contour_all_zero Hn) as H.
  split; [exact (proj1 H)|exact (proj1 (proj2 H))].
Defined.

(** ** One processing step of the mining system *)

Lemma detect_helmet_returns (cv : OpenCV) (roi : Image) :
  exists b, MiningCVSystem.detect_helmet cv roi = Some b.
Proof.
  unfold MiningCVSystem.detect_helmet, cvtColor_HSV.
  destruct (size roi =? 0); [eauto|]. cbn [mbind option_bind]. eauto.
Qed.

Lemma face_step_returns (cv : OpenCV) (now : Timestamp)
    (acc : MiningCVSystem.state * Frame) (face : Rect) :
  exists acc', MiningCVSystem.face_step cv now acc face = Some acc'.
Proof.
  destruct acc as [st frame], face as [[[x y] w] h]. unfold MiningCVSystem.face_step.
  destruct (20 <? y); [|eauto].
  destruct (detect_helmet_returns cv (slice2 (pixels cv frame) (y - 20) y x (x + w)))
    as [[|] ->]; cbn; eauto.
Qed.

Lemma for_each_returns {A B} (body : A -> B -> option A) (items : list B) (a : A) :
  (forall a x, exists a', body a x = Some a') ->
  exists a', for_each body items a = Some a'.
Proof.
  intros Hbody. revert a. induction items as [|x xs IH]; intros a.
  - rewrite for_each_nil. eauto.
  - rewrite for_each_cons. destruct (Hbody a x) as [a1 ->]. apply IH.
Qed.

Lemma detect_gas_returns (cv : OpenCV) (frame : Image) :
  size frame <> 0 -> exists b, MiningCVSystem.detect_gas cv frame = Some b.
Proof.
  intros Hs. unfold MiningCVSystem.detect_gas, cvtColor_HSV.
  destruct (size frame =? 0) eqn:E; [lia|]. cbn [mbind option_bind].
  destruct (_ || _); eauto.
Qed.

(** X5: one processing step raises (the uncaught [cv2.error] of a colour
    conversion) exactly when the frame it is given is empty and one of the
    four modules is selected; on a frame that is not empty it returns,
    whatever faces and contours the detectors report, also ones that lie
    outside the frame. *)
Theorem process_frame_raises_on_empty_frame_only (cv : OpenCV) (now : Timestamp)
    (st : MiningCVSystem.state) (frame : Frame) :
  MiningCVSystem.process_frame cv now st frame = None <->
  size (pixels cv frame) = 0 /\
  MiningCVSystem.current_module st <> MiningCVSystem.other_module.
Proof.
  unfold MiningCVSystem.process_frame.
  destruct (size (pixels cv frame) =? 0) eqn:Hs.
  - apply Z.eqb_eq in Hs.
    destruct (MiningCVSystem.current_module st);
      unfold MiningCVSystem.detect_ore, MiningCVSystem.monitor_safety,
             MiningCVSystem.monitor_equipment, MiningCVSystem.monitor_environment,
             cvtColor_HSV, cvtColor_GRAY;
      rewrite ?Hs; cbn; split; try tauto; try discriminate; auto.
  - apply Z.eqb_neq in Hs.
    assert (Hsome : forall r : option (MiningCVSystem.state * Frame),
              (exists a, r = Some a) ->
              r = None <->
              size (pixels cv frame) = 0 /\
              MiningCVSystem.current_module st <> MiningCVSystem.other_module).
    { intros r [a ->]. split; [discriminate|]. intros [H _]. contradiction. }
    destruct (MiningCVSystem.current_module st) eqn:Hm;
      [| | | |split; [discriminate|intros [H _]; contradiction]];
      apply Hsome;
      unfold MiningCVSystem.detect_ore, MiningCVSystem.monitor_safety,
             MiningCVSystem.monitor_equipment, MiningCVSystem.monitor_environment,
             cvtColor_HSV, cvtColor_GRAY;
      destruct (size (pixels cv frame) =? 0) eqn:E; try lia; cbn [mbind option_bind].
    + eauto.
    + apply for_each_returns. intros a x. apply face_step_returns.
    + destruct (equipment_contour_loop cv now
                  (findContours cv (Canny_50_150 cv (BGR2GRAY cv (pixels cv frame)))) st frame)
        as (st' & frame' & H & _). eauto.
    + destruct (detect_gas_returns cv (pixels cv frame) Hs) as [[|] ->];
        cbn [mbind option_bind]; eauto.
Qed.

Lemma drawn_over_refl (frame : Frame) : drawn_over frame frame.
Proof. split; reflexivity. Qed.

Lemma drawn_over_trans (f1 f2 f3 : Frame) :
  drawn_over f1 f2 -> drawn_over f2 f3 -> drawn_over f1 f3.
Proof. intros [H1 H2] [H3 H4]. split; [congruence|etransitivity; eauto]. Qed.

Lemma drawn_over_annotate2 (frame : Frame) (d1 d2 : Draw) :
  drawn_over frame (annotate (annotate frame d1) d2).
Proof.
  split; [reflexivity|]. cbn. rewrite <- app_assoc. apply prefix_app_r. reflexivity.
Qed.

Lemma fold_left_invariant {A B} (P : A -> Prop) (f : A -> B -> A) (items : list B) (a : A) :
  (forall a x, P a -> P (f a x)) -> P a -> P (fold_left f items a).
Proof.
  intros Hf. revert a. induction items as [|x xs IH]; intros a Ha; cbn; auto.
Qed.

(** What the loops of [detect_ore] keep. *)
Lemma ore_contour_keeps (now : Timestamp) (ore_type : string) (params : config.OreParams)
    (st0 : MiningCVSystem.state) (frame0 : Frame)
    (acc : MiningCVSystem.state * Frame) (c : Contour) :
  let P := fun a : MiningCVSystem.state * Frame =>
    MiningCVSystem.current_module (fst a) = MiningCVSystem.current_module st0 /\
    MiningCVSystem.video_label (fst a) = MiningCVSystem.video_label st0 /\
    drawn_over frame0 (snd a) /\
    MiningCVSystem.safety_violations (fst a) = MiningCVSystem.safety_violations st0 /\
    MiningCVSystem.equipment_alerts (fst a) = MiningCVSystem.equipment_alerts st0 /\
    MiningCVSystem.environmental_data (fst a) = MiningCVSystem.environmental_data st0 in
  P acc -> P (MiningCVSystem.ore_contour now ore_type params acc c).
Proof.
  cbv zeta. destruct acc as [st frame]. intros (H1 & H2 & H3 & H4 & H5 & H6).
  unfold MiningCVSystem.ore_contour.
  destruct (gtb_Z (contourArea c) 500); [|auto 10].
  destruct (boundingRect c) as [[[x y] w] h]. cbn [fst snd] in *.
  repeat split; auto; try apply H3.
  cbn. destruct H3 as [_ H3]. rewrite <- app_assoc. apply prefix_app_r, H3.
Qed.

Lemma face_step_keeps (cv : OpenCV) (now : Timestamp)
    (st0 : MiningCVSystem.state) (frame0 : Frame)
    (acc acc' : MiningCVSystem.state * Frame) (face : Rect) :
  let P := fun a : MiningCVSystem.state * Frame =>
    MiningCVSystem.current_module (fst a) = MiningCVSystem.current_module st0 /\
    MiningCVSystem.video_label (fst a) = MiningCVSystem.video_label st0 /\
    drawn_over frame0 (snd a) /\
    MiningCVSystem.detection_history (fst a) = MiningCVSystem.detection_history st0 /\
    MiningCVSystem.equipment_alerts (fst a) = MiningCVSystem.equipment_alerts st0 /\
    MiningCVSystem.environmental_data (fst a) = MiningCVSystem.environmental_data st0 /\
    exists new,
      MiningCVSystem.safety_violations (fst a)
        = MiningCVSystem.safety_violations st0 ++ new /\
      Forall (fun v => MiningCVSystem.v_timestamp v = now /\
                       MiningCVSystem.v_type v = "No Helmet"%string) new in
  P acc -> MiningCVSystem.face_step cv now acc face = Some acc' -> P acc'.
Proof.
  cbv zeta. destruct acc as [st frame], face as [[[x y] w] h].
  intros (H1 & H2 & H3 & H4 & H5 & H6 & new & H7 & H8).
  unfold MiningCVSystem.face_step.
  destruct (20 <? y); [|intros [= <-]; eauto 12].
  destruct (MiningCVSystem.detect_helmet cv _) as [[|]|]; cbn [mbind option_bind];
    [| |discriminate]; intros [= <-]; cbn [fst snd] in *.
  - repeat split; auto; try apply H3; [|eauto].
    cbn. destruct H3 as [_ H3]. rewrite <- app_assoc. apply prefix_app_r, H3.
  - repeat split; auto; try apply H3.
    + cbn. destruct H3 as [_ H3]. rewrite <- app_assoc. apply prefix_app_r, H3.
    + eexists (new ++ [_]). cbn. rewrite H7, <- app_assoc. split; [reflexivity|].
      apply Forall_app. split; [exact H8|]. constructor; [|constructor]. cbn. auto.
Qed.

Lemma equipment_contour_keeps (cv : OpenCV) (now : Timestamp)
    (st0 : MiningCVSystem.state) (frame0 : Frame)
    (acc acc' : MiningCVSystem.state * Frame) (c : Contour) :
  let P := fun a : MiningCVSystem.state * Frame =>
    MiningCVSystem.current_module (fst a) = MiningCVSystem.current_module st0 /\
    MiningCVSystem.video_label (fst a) = MiningCVSystem.video_label st0 /\
    drawn_over frame0 (snd a) /\
    MiningCVSystem.detection_history (fst a) = MiningCVSystem.detection_history st0 /\
    MiningCVSystem.safety_violations (fst a) = MiningCVSystem.safety_violations st0 /\
    MiningCVSystem.environmental_data (fst a) = MiningCVSystem.environmental_data st0 /\
    exists new,
      MiningCVSystem.equipment_alerts (fst a)
        = MiningCVSystem.equipment_alerts st0 ++ new /\
      Forall (fun a => MiningCVSystem.a_timestamp a = now /\
                       MiningCVSystem.a_type a <> Good) new in
  P acc -> MiningCVSystem.equipment_contour cv now acc c = Some acc' -> P acc'.
Proof.
  cbv zeta. destruct acc as [st frame].
  intros (H1 & H2 & H3 & H4 & H5 & H6 & new & H7 & H8).
  unfold MiningCVSystem.equipment_contour.
  destruct (gtb_Z (contourArea c) 1000); [|intros [= <-]; eauto 12].
  destruct (boundingRect c) as [[[x y] w] h].
  destruct (MiningCVSystem.assess_equipment_health cv _) as [health|];
    cbn [mbind option_bind]; [|discriminate].
  assert (Hd : forall d1 d2, drawn_over frame0 (annotate (annotate frame d1) d2)).
  { intros d1 d2. eapply drawn_over_trans; [exact H3|apply drawn_over_annotate2]. }
  destruct health; intros [= <-]; cbn [fst snd] in *;
    repeat split; auto; try apply Hd;
    first [ solve [eauto]
          | eexists (new ++ [_]); cbn; rewrite H7, <- app_assoc; split; [reflexivity|];
            apply Forall_app; split; [exact H8|]; constructor; [|constructor]; cbn;
            split; [reflexivity|discriminate] ].
Qed.

Lemma process_frame_effect (cv : OpenCV) (now : Timestamp)
    (st st' : MiningCVSystem.state) (frame frame' : Frame) :
  MiningCVSystem.process_frame cv now st frame = Some (st', frame') ->
  step_effect now st frame st' frame'.
Proof.
  unfold MiningCVSystem.process_frame, step_effect. intros H.
  destruct (MiningCVSystem.current_module st) eqn:Hm.
  - unfold MiningCVSystem.detect_ore in H.
    destruct (cvtColor_HSV cv (pixels cv frame)) as [hsv|]; [|discriminate].
    cbn [mbind option_bind] in H.
    set (r := fold_left _ MiningCVSystem.ore_types (st, frame)) in H.
    assert (Hr : r = (st', frame')) by congruence. clear H.
    assert (Hinv :
      (fun a : MiningCVSystem.state * Frame =>
         MiningCVSystem.current_module (fst a) = MiningCVSystem.current_module st /\
         MiningCVSystem.video_label (fst a) = MiningCVSystem.video_label st /\
         drawn_over frame (snd a) /\
         MiningCVSystem.safety_violations (fst a) = MiningCVSystem.safety_violations st /\
         MiningCVSystem.equipment_alerts (fst a) = MiningCVSystem.equipment_alerts st /\
         MiningCVSystem.environmental_data (fst a) = MiningCVSystem.environmental_data st) r).
    { subst r. apply fold_left_invariant.
      - intros a [ore_type params] Ha. cbv zeta.
        apply fold_left_invariant; [|exact Ha].
        intros a0 c Ha0. apply (ore_contour_keeps now ore_type params st frame a0 c Ha0).
      - cbn [fst snd]. repeat split; auto; reflexivity. }
    rewrite Hr in Hinv. cbn [fst snd] in Hinv. rewrite Hm in Hinv. tauto.
  - unfold MiningCVSystem.monitor_safety in H.
    destruct (cvtColor_GRAY cv (pixels cv frame)) as [gray|]; [|discriminate].
    cbn [mbind option_bind] in H.
    eapply for_each_invariant in H;
      [|intros a x a' Ha Hb; exact (face_step_keeps cv now st frame a a' x Ha Hb)|].
    + cbn [fst snd] in H. rewrite Hm in H. tauto.
    + cbn [fst snd]. repeat split; auto; try reflexivity.
      exists []. rewrite app_nil_r. auto.
  - unfold MiningCVSystem.monitor_equipment in H.
    destruct (cvtColor_GRAY cv (pixels cv frame)) as [gray|]; [|discriminate].
    cbn [mbind option_bind] in H.
    eapply for_each_invariant in H;
      [|intros a x a' Ha Hb; exact (equipment_contour_keeps cv now st frame a a' x Ha Hb)|].
    + cbn [fst snd] in H. rewrite Hm in H. tauto.
    + cbn [fst snd]. repeat split; auto; try reflexivity.
      exists []. rewrite app_nil_r. auto.
  - unfold MiningCVSystem.monitor_environment in H.
    destruct (cvtColor_HSV cv (pixels cv frame)) as [hsv|]; [|discriminate].
    cbn [mbind option_bind] in H.
    destruct (MiningCVSystem.detect_gas cv (pixels cv frame)) as [[|]|]; [| |discriminate];
      cbn [mbind option_bind] in H; injection H as <- <-; cbn.
    + rewrite Hm. repeat split; auto.
      * apply drawn_over_annotate2.
      * eexists [_]. split; [reflexivity|]. split; [cbn; lia|].
        constructor; [|constructor]. cbn. auto.
    + rewrite Hm. repeat split; auto.
      * cbn. apply prefix_app_r. reflexivity.
      * exists []. rewrite app_nil_r. split; [reflexivity|]. split; [cbn; lia|constructor].
  - injection H as <- <-. repeat split; auto; reflexivity.
Qed.

(** X6: a processing step that returns keeps the selected module and the
    frame on display, leaves the captured pixels alone and only adds drawing
    calls after those already made, and touches no history but the one of
    the selected module: the safety, equipment and environment modules only
    append records stamped with the time of this step (violations of type
    "No Helmet", alerts of a type other than "Good", at most one "Gas
    Detected" record); with no module selected nothing changes. *)
Theorem step_touches_own_history_only (cv : OpenCV) (now : Timestamp)
    (st st' : MiningCVSystem.state) (frame frame' : Frame) :
  MiningCVSystem.process_frame cv now st frame = Some (st', frame') ->
  step_effect now st frame st' frame'.
Proof. apply process_frame_effect. Qed.

(** A bare head under the one-face detector: one violation, nothing else. *)
Lemma bare_head_step_example :
  let st := MiningCVSystem.on_module_change MiningCVSystem.init
              MiningCVSystem.safety_monitoring in
  let frame := new_frame (filled 22 1 (0, 0, 0)) in
  exists st' frame',
    MiningCVSystem.process_frame one_face_cv "t" st frame = Some (st', frame') /\
    length (MiningCVSystem.safety_violations st') = 1%nat /\
    step_effect "t" st frame st' frame'.
Proof.
  eexists _, _. split; [vm_compute; reflexivity|]. split; [reflexivity|].
  apply (step_touches_own_history_only one_face_cv). vm_compute. reflexivity.
Defined.

(** ** The report of the mining system *)

Lemma deque_fold_Forall {A} (P : A -> Prop) (maxlen : nat) (xs d : list A) :
  Forall P d -> Forall P xs -> Forall P (fold_left (deque_append maxlen) xs d).
Proof.
  revert d. induction xs as [|x xs IH]; intros d Hd Hxs; cbn; [exact Hd|].
  inversion Hxs; subst. apply IH; [|assumption].
  unfold deque_append. apply Forall_drop, Forall_app. split; [exact Hd|]. constructor; auto.
Qed.

Lemma detect_ore_records (cv : OpenCV) (now : Timestamp) (hsv : Image) :
  Forall ore_record
    (flat_map (fun entry => map (detection_of now entry) (above 500 (ore_contours cv hsv entry)))
              MiningCVSystem.ore_types).
Proof.
  apply Forall_forall. intros d Hd. apply list_elem_of_In, in_flat_map in Hd as (entry & He & Hd).
  apply in_map_iff in Hd as (c & <- & Hc). unfold above in Hc.
  apply filter_In in Hc as [_ Hc]. split; [|exact Hc].
  exists (snd entry). cbn. split; [|reflexivity].
  rewrite <- surjective_pairing. apply list_elem_of_In, He.
Qed.

Lemma reachable_detection_history (cv : OpenCV) (st : MiningCVSystem.state) :
  reachable cv st ->
  Forall ore_record (MiningCVSystem.detection_history st) /\
  (length (MiningCVSystem.detection_history st) <= 1000)%nat.
Proof.
  induction 1 as [|st selected _ IH|st now img st' frame' _ IH Hp|st frame _ IH];
    try exact IH.
  - split; [constructor|cbn; lia].
  - destruct IH as [IH1 IH2]. split;
      [|eapply process_frame_detection_history; eauto].
    pose proof (process_frame_effect cv now st st' (new_frame img) frame' Hp) as He.
    unfold step_effect in He. unfold MiningCVSystem.process_frame in Hp.
    destruct (MiningCVSystem.current_module st).
    + unfold MiningCVSystem.detect_ore in Hp.
      destruct (cvtColor_HSV cv (pixels cv (new_frame img))) as [hsv|]; [|discriminate].
      cbn [mbind option_bind] in Hp.
      pose proof (ore_types_loop cv now hsv MiningCVSystem.ore_types st (new_frame img)) as Hl.
      cbv zeta in Hl. set (r := fold_left _ MiningCVSystem.ore_types _) in Hp, Hl.
      assert (Hr : r = (st', frame')) by congruence. rewrite Hr in Hl. cbn [fst snd] in Hl.
      destruct Hl as [_ ->]. apply deque_fold_Forall; [exact IH1|apply detect_ore_records].
    + destruct He as (_ & _ & _ & -> & _). exact IH1.
    + destruct He as (_ & _ & _ & -> & _). exact IH1.
    + destruct He as (_ & _ & _ & -> & _). exact IH1.
    + destruct He as (_ & _ & _ & -> & _). exact IH1.
Qed.

Lemma ore_record_value (d : MiningCVSystem.Detection) :
  ore_record d -> 100 <= MiningCVSystem.d_value d <= 500.
Proof.
  intros [(params & Hin & ->) _]. unfold MiningCVSystem.ore_types in Hin.
  repeat (apply elem_of_cons in Hin; destruct Hin as [Heq|Hin];
          [inversion Heq; subst; cbn; lia|]).
  inversion Hin.
Qed.

Lemma sum_values_bounds (l : list MiningCVSystem.Detection) (acc : Z) :
  Forall ore_record l ->
  acc + 100 * Z.of_nat (length l)
  <= fold_left Z.add (map MiningCVSystem.d_value l) acc
  <= acc + 500 * Z.of_nat (length l).
Proof.
  intros H. revert acc. induction H as [|d l Hd _ IH]; intros acc; cbn [map fold_left length].
  - lia.
  - specialize (IH (acc + MiningCVSystem.d_value d)).
    apply ore_record_value in Hd. lia.
Qed.

(** X7: the report of the mining system has nine keys, in the order
    below: the key "equipment_alerts", written twice in the source, holds
    the list of alerts, so the number of equipment alerts is not in the
    report.  In every state the system can reach, the report counts at most
    1000 detections, each of them a record of one of the four ore types for
    a contour of area above 500, and its value estimate lies between 100 and
    500 times that count. *)
Theorem report_counts_and_estimate (cv : OpenCV) (st : MiningCVSystem.state)
    (now : Timestamp) (strftime : string) :
  reachable cv st ->
  let filename := fst (MiningCVSystem.generate_report now strftime st) in
  let report := snd (MiningCVSystem.generate_report now strftime st) in
  filename = ("mining_report_" ++ strftime ++ ".json")%string /\
  map fst report =
    ["timestamp"; "total_detections"; "safety_violations"; "equipment_alerts";
     "environmental_alerts"; "ore_value_estimate"; "detections"; "violations";
     "environmental_data"]%string /\
  MiningCVSystem.dict_get report "equipment_alerts"
    = Some (MiningCVSystem.RAlerts (MiningCVSystem.equipment_alerts st)) /\
  MiningCVSystem.dict_get report "detections"
    = Some (MiningCVSystem.RDetections (MiningCVSystem.detection_history st)) /\
  Forall ore_record (MiningCVSystem.detection_history st) /\
  exists total estimate,
    MiningCVSystem.dict_get report "total_detections" = Some (MiningCVSystem.RInt total) /\
    MiningCVSystem.dict_get report "ore_value_estimate"
      = Some (MiningCVSystem.RInt estimate) /\
    total = Z.of_nat (length (MiningCVSystem.detection_history st)) /\
    0 <= total <= 1000 /\
    100 * total <= estimate <= 500 * total.
Proof.
  intros Hr. destruct (reachable_detection_history cv st Hr) as [Hrec Hlen].
  cbv zeta. repeat (split; [reflexivity || exact Hrec|]).
  eexists _, _. split; [reflexivity|]. split; [reflexivity|]. split; [reflexivity|].
  split; [lia|]. pose proof (sum_values_bounds _ 0 Hrec). lia.
Qed.

(** An orange frame in the ore module: an iron and a copper record, total
    2 and estimate 250. *)
Lemma orange_frame_report_example :
  exists st frame',
    MiningCVSystem.process_frame plain_cv "t" MiningCVSystem.init
      (new_frame (filled 27 41 (10, 200, 200))) = Some (st, frame') /\
    reachable plain_cv st /\
    let report := snd (MiningCVSystem.generate_report "t" "20240101_120000" st) in
    MiningCVSystem.dict_get report "total_detections" = Some (MiningCVSystem.RInt 2) /\
    MiningCVSystem.dict_get report "ore_value_estimate" = Some (MiningCVSystem.RInt 250) /\
    100 * 2 <= 250 <= 500 * 2.
Proof.
  eexists _, _. split; [vm_compute; reflexivity|].
  match goal with |- reachable _ ?s /\ _ =>
    assert (Hr : reachable plain_cv s)
      by (eapply (reach_process_frame plain_cv MiningCVSystem.init "t"
                    (filled 27 41 (10, 200, 200)));
          [apply reach_init|vm_compute; reflexivity]);
    pose proof (report_counts_and_estimate plain_cv s "t" "20240101_120000" Hr) as H
  end.
  split; [exact Hr|]. cbv zeta in H |- *.
  destruct H as (_ & _ & _ & _ & _ & total & estimate & H1 & H2 & H3 & H4 & H5).
  vm_compute in H1, H2. injection H1 as <-. injection H2 as <-.
  split; [reflexivity|]. split; [reflexivity|]. exact H5.
Defined.

(** ** Contour areas as numbers *)

(** A positive integer below 2^53 scaled by a power of two is a double. *)
Lemma normalize_exact (t e0 : Z) :
  0 < t < 2 ^ 53 -> -1022 <= e0 <= 971 ->
  exists (m : positive) (e : Z),
    binary_normalize prec emax t e0 false = S754_finite false m e /\
    e0 - 52 <= e <= e0 /\ Z.pos m = t * 2 ^ (e0 - e) /\ 2 ^ 52 <= Z.pos m < 2 ^ 53.
Proof.
  intros Ht He0. destruct t as [|p|p]; [lia| |lia].
  pose proof (digits2_bounds p) as Hd. set (d := Z.pos (digits2_pos p)) in *.
  assert (Hd53 : 1 <= d <= 53).
  { split; [subst d; lia|].
    destruct (Z_le_gt_dec d 53); [assumption|].
    assert (2 ^ 53 <= 2 ^ (d - 1)) by (apply Z.pow_le_mono_r; lia). lia. }
  unfold binary_normalize, binary_round, shl_align.
  rewrite fexp_fexp64. fold d. unfold fexp64.
  replace (Z.max (d + e0 - 53) (-1074)) with (d + e0 - 53) by lia.
  replace (d + e0 - 53 - e0) with (d - 53) by lia.
  assert (Hfits : forall m : positive, 2 ^ 52 <= Z.pos m < 2 ^ 53 ->
            binary_round_aux prec emax false (Z.pos m) (d + e0 - 53) loc_Exact
            = S754_finite false m (d + e0 - 53)).
  { intros m Hm. assert (Hdm : Z.pos (digits2_pos m) = 53) by (apply digits2_unique; exact Hm).
    pose proof (binary_round_aux_rounded m (d + e0 - 53)) as H. cbv zeta in H.
    rewrite Hdm in H. unfold fexp64 in H.
    replace (Z.max (53 + (d + e0 - 53) - 53) (-1074)) with (d + e0 - 53) in H by lia.
    rewrite H by lia. rewrite Z.sub_diag, rne_0, rounded_fits.
    - destruct (d + e0 - 53 <=? 971) eqn:E; [reflexivity|]. apply Z.leb_gt in E. lia.
    - rewrite Hdm. unfold fexp64. lia. }
  destruct (d - 53) as [|k|k] eqn:Hk; [| lia |].
  - exists p, e0. assert (d = 53) by lia.
    replace (2 ^ (d - 1)) with (2 ^ 52) in Hd by (f_equal; lia).
    replace (2 ^ d) with (2 ^ 53) in Hd by (f_equal; lia).
    cbv beta iota.
    replace e0 with (d + e0 - 53) at 1 by lia.
    rewrite Hfits by lia. rewrite Z.sub_diag. cbn [Z.pow].
    repeat split; try lia. f_equal. lia.
  - exists (Pos.iter xO p k), (d + e0 - 53).
    assert (Hm : Z.pos (Pos.iter xO p k) = Z.pos p * 2 ^ Z.pos k) by apply iter_xO_pow.
    assert (Hpk : 2 ^ (d - 1) * 2 ^ Z.pos k = 2 ^ 52).
    { rewrite <- Z.pow_add_r by lia. f_equal. lia. }
    assert (Hpk' : 2 ^ d * 2 ^ Z.pos k = 2 ^ 53).
    { rewrite <- Z.pow_add_r by lia. f_equal. lia. }
    pose proof (pow2_pos (Z.pos k) ltac:(lia)) as HK.
    assert (Hrange : 2 ^ 52 <= Z.pos (Pos.iter xO p k) < 2 ^ 53).
    { rewrite Hm, <- Hpk, <- Hpk'. split.
      - apply Z.mul_le_mono_nonneg_r; lia.
      - apply Z.mul_lt_mono_pos_r; lia. }
    cbv beta iota. rewrite Hfits by exact Hrange.
    repeat split; try lia. rewrite Hm. do 2 f_equal. lia.
Qed.

Lemma ltb_ord (x y : float) :
  nonneg_valid x = true -> nonneg_valid y = true ->
  (ltb x y = true <-> ord x < ord y).
Proof.
  intros Hx Hy. pose proof (leb_ord y x Hy Hx) as H.
  assert (Hneg : ltb x y = negb (leb y x)).
  { unfold ltb, leb, SFltb, SFleb.
    destruct x as [sx|sx| |sx mx ex], y as [sy|sy| |sy my ey]; cbn [nonneg_valid] in Hx, Hy;
      try discriminate;
      try (destruct sx; [discriminate|]); try (destruct sy; [discriminate|]);
      cbn [SFcompare]; try reflexivity.
    rewrite (Z.compare_antisym ex ey).
    destruct (ex ?= ey) eqn:E; cbn [CompOpp]; try reflexivity.
    rewrite !Pos.compare_cont_spec. rewrite (Pos.compare_antisym mx my).
    destruct (mx ?= my)%positive; reflexivity. }
  rewrite Hneg, negb_true_iff. destruct (leb y x).
  - split; [discriminate|]. intros Hlt. apply proj1 in H. specialize (H eq_refl). lia.
  - split; [intros _|reflexivity].
    destruct (Z_lt_le_dec (ord x) (ord y)) as [Hlt|Hle]; [exact Hlt|].
    apply H in Hle. discriminate.
Qed.

Lemma ord_exact (t e0 : Z) (m : positive) (e : Z) :
  -1074 <= e <= e0 -> Z.pos m = t * 2 ^ (e0 - e) ->
  ord (S754_finite false m e) = t * 2 ^ (e0 + 1074).
Proof.
  intros He Hm. cbn [ord]. rewrite Hm, <- Z.mul_assoc, <- Z.pow_add_r by lia.
  do 2 f_equal. lia.
Qed.

Lemma digits2_shift (p k : positive) :
  Z.pos (digits2_pos (Pos.iter xO p k)) = Z.pos (digits2_pos p) + Z.pos k.
Proof.
  apply digits2_unique. rewrite iter_xO_pow.
  pose proof (digits2_bounds p) as Hd. set (d := Z.pos (digits2_pos p)) in *.
  assert (1 <= d) by (subst d; lia).
  pose proof (pow2_pos (Z.pos k) ltac:(lia)) as HK.
  replace (d + Z.pos k - 1) with (d - 1 + Z.pos k) by lia.
  rewrite !Z.pow_add_r by lia. split.
  - apply Z.mul_le_mono_nonneg_r; lia.
  - apply Z.mul_lt_mono_pos_r; lia.
Qed.

(** A non-negative integer scaled by a power of two rounds to a
    non-negative double, possibly +infinity. *)
Lemma normalize_valid (t e0 : Z) :
  0 <= t -> -1074 <= e0 ->
  nonneg_valid (binary_normalize prec emax t e0 false) = true.
Proof.
  intros Ht He0. destruct t as [|p|p]; [reflexivity| |lia].
  unfold binary_normalize, binary_round, shl_align. rewrite fexp_fexp64.
  set (d := Z.pos (digits2_pos p)).
  assert (Hvalid : forall (mz : positive) (ez : Z),
            ez <= fexp64 (Z.pos (digits2_pos mz) + ez) ->
            nonneg_valid (binary_round_aux prec emax false (Z.pos mz) ez loc_Exact) = true).
  { intros mz ez Hez.
    pose proof (binary_round_aux_rounded mz ez) as H. cbv zeta in H. rewrite H by exact Hez.
    pose proof (rne_regime mz ez) as Hr. cbv zeta in Hr.
    destruct (Hr Hez) as (H1 & H2 & H3).
    apply (rounded_ord _ _ H1 H2 H3). }
  destruct (fexp64 (d + e0) - e0) as [|k|k] eqn:Hk; cbv beta iota.
  - apply Hvalid. fold d. lia.
  - apply Hvalid. fold d. lia.
  - apply Hvalid. rewrite digits2_shift. fold d. unfold fexp64 in *. lia.
Qed.

Lemma contourArea_valid (contour : Contour) : nonneg_valid (contourArea contour) = true.
Proof.
  unfold contourArea. destruct contour as [|p rest]; [reflexivity|].
  apply normalize_valid; lia.
Qed.

Lemma of_Z_ord (n : Z) :
  0 <= n < 2 ^ 53 -> nonneg_valid (of_Z n) = true /\ ord (of_Z n) = n * 2 ^ 1074.
Proof.
  intros Hn. split; [apply normalize_valid; lia|].
  destruct (Z.eq_dec n 0) as [->|Hnz]; [reflexivity|].
  destruct (normalize_exact n 0 ltac:(lia) ltac:(lia)) as (m & e & Hf & He & Hm & _).
  unfold of_Z. rewrite Hf. apply (ord_exact n 0); [lia|exact Hm].
Qed.





Lemma max_by_key_rank {A} (key : A -> float) (best : A) (rest : list A) :
  (forall x, nonneg_valid (key x) = true) ->
  let M := utils.max_by_key key best rest in
  ord (key best) <= ord (key M) /\
  exists before after,
    best :: rest = before ++ M :: after /\
    Forall (fun x => ord (key x) < ord (key M)) before /\
    Forall (fun x => ord (key x) <= ord (key M)) after.
Proof.
  intros Hvalid. cbv zeta. revert best. induction rest as [|item rest IH]; intros best.
  - cbn. split; [lia|]. exists [], []. repeat split; constructor.
  - cbn [utils.max_by_key].
    pose proof (ltb_ord (key best) (key item) (Hvalid _) (Hvalid _)) as Hlt.
    destruct (ltb (key best) (key item)).
    + apply proj1 in Hlt. specialize (Hlt eq_refl).
      destruct (IH item) as (Hge & before & after & Heq & Hb & Ha).
      split; [lia|]. exists (best :: before), after. rewrite Heq.
      split; [reflexivity|]. split; [|exact Ha]. constructor; [lia|exact Hb].
    + assert (Hle : ord (key item) <= ord (key best)).
      { destruct (Z_lt_le_dec (ord (key best)) (ord (key item))) as [H|H]; [|exact H].
        apply Hlt in H. discriminate. }
      destruct (IH best) as (Hge & before & after & Heq & Hb & Ha).
      split; [exact Hge|].
      destruct before as [|b0 before].
      * cbn [app] in Heq. injection Heq as Hbest Hrest. subst after.
        exists [], (item :: rest). cbn [app].
        split; [rewrite <- Hbest; reflexivity|]. split; [constructor|].
        constructor; [|exact Ha]. lia.
      * cbn [app] in Heq. injection Heq as Hb0 Hrest. subst b0.
        exists (best :: item :: before), after. cbn [app].
        split; [rewrite <- Hrest; reflexivity|]. split; [|exact Ha].
        inversion Hb as [|? ? Hb1 Hb2]; subst.
        constructor; [exact Hb1|]. constructor; [lia|exact Hb2].
Qed.

(** X9: [find_largest_contour] returns [None] exactly on an empty list;
    otherwise it returns a contour of the list whose area is at least the
    area of every contour after it and strictly greater than the area of
    every contour before it: the first contour of maximal area. *)
Theorem find_largest_contour_first_maximum (contours : list Contour) :
  match utils.find_largest_contour contours with
  | None => contours = []
  | Some best =>
      exists before after,
        contours = before ++ best :: after /\
        Forall (fun c => ltb (contourArea c) (contourArea best) = true) before /\
        Forall (fun c => leb (contourArea c) (contourArea best) = true) after
  end.
Proof.
  destruct contours as [|first rest]; [reflexivity|]. cbn [utils.find_largest_contour].
  destruct (max_by_key_rank contourArea first rest contourArea_valid)
    as (_ & before & after & Heq & Hb & Ha).
  exists before, after. split; [exact Heq|]. split.
  - eapply Forall_impl; [exact Hb|]. intros c Hc.
    apply ltb_ord; auto using contourArea_valid.
  - eapply Forall_impl; [exact Ha|]. intros c Hc.
    apply leb_ord; auto using contourArea_valid.
Qed.

(** ** Heat maps *)

Lemma heatmap_increment_shape (rows cols : Z) (h : list (list spec_float)) (x y : Z) :
  has_shape rows cols h -> has_shape rows cols (utils.heatmap_increment h x y).
Proof.
  intros [Hl Hr]. unfold utils.heatmap_increment, has_shape.
  rewrite length_alter. split; [exact Hl|].
  apply Forall_alter; [exact Hr|]. intros row _ Hrow. rewrite length_alter. exact Hrow.
Qed.

Lemma heatmap_counts_shape (data : list (Z * Z)) (rows cols : Z) :
  has_shape rows cols (heatmap_counts data rows cols).
Proof.
  unfold heatmap_counts. apply fold_left_invariant.
  - intros h [x y] Hh. destruct (_ && _); [apply heatmap_increment_shape|]; exact Hh.
  - split; [apply length_replicate|]. apply Forall_replicate, length_replicate.
Qed.

Lemma heatmap_counts_filter (data : list (Z * Z)) (rows cols : Z) :
  heatmap_counts data rows cols
  = heatmap_counts (List.filter (inside (rows, cols)) data) rows cols.
Proof.
  unfold heatmap_counts. generalize (replicate (Z.to_nat rows)
                                       (replicate (Z.to_nat cols) Binary32.zero)).
  induction data as [|[x y] data IH]; intros h; [reflexivity|].
  cbn [fold_left List.filter].
  change (inside (rows, cols) (x, y))
    with ((0 <=? x) && (x <? cols) && ((0 <=? y) && (y <? rows))).
  destruct ((0 <=? x) && (x <? cols) && ((0 <=? y) && (y <? rows))) eqn:E;
    cbn [fold_left]; rewrite ?E; apply IH.
Qed.

Lemma concat_shape_nil {A} (rows cols : Z) (a : list (list A)) :
  has_shape rows cols a -> (concat a = [] <-> rows <= 0 \/ cols <= 0).
Proof.
  intros [Hl Hr]. destruct a as [|row a]; cbn [length concat] in *.
  - split; [lia|reflexivity].
  - inversion Hr as [|? ? Hrow Ha]; subst. destruct row as [|v row]; cbn [length app] in *.
    + split; [lia|]. intros _. clear Hl Hr.
      induction Ha as [|r a Hr _ IH]; cbn [concat]; [reflexivity|].
      destruct r; [exact IH|cbn [length] in Hr; lia].
    + split; [discriminate|lia].
Qed.

Lemma np_max_zeros (rows cols : nat) :
  (0 < rows)%nat -> (0 < cols)%nat ->
  utils.np_max (replicate rows (replicate cols Binary32.zero)) = Some Binary32.zero.
Proof.
  intros Hr Hc. unfold utils.np_max.
  assert (H : Forall (fun v => v = Binary32.zero)
                (concat (replicate rows (replicate cols Binary32.zero)))).
  { apply Forall_concat, Forall_replicate, Forall_replicate. reflexivity. }
  destruct (concat _) as [|v vs] eqn:E.
  - destruct rows as [|rows]; [lia|]. destruct cols as [|cols]; [lia|]. discriminate.
  - inversion H as [|? ? -> Hvs]; subst. f_equal.
    clear E H. induction Hvs as [|u vs -> _ IH]; cbn; [reflexivity|exact IH].
Qed.

(** X10: [create_heatmap] raises exactly when the shape has no row or no
    column; otherwise it returns an array of the given shape.  Points
    outside the array are ignored (none is taken as an index from the end):
    the result is the one for the points inside alone; with no point inside
    it is the array of zeros, and nothing is divided. *)
Theorem heatmap_shape_and_outside_points (data : list (Z * Z)) (rows cols : Z) :
  (utils.create_heatmap data (rows, cols) = None <-> rows <= 0 \/ cols <= 0) /\
  (forall heatmap, utils.create_heatmap data (rows, cols) = Some heatmap ->
                   has_shape rows cols heatmap) /\
  utils.create_heatmap data (rows, cols)
    = utils.create_heatmap (List.filter (inside (rows, cols)) data) (rows, cols) /\
  (0 < rows -> 0 < cols -> List.filter (inside (rows, cols)) data = [] ->
   utils.create_heatmap data (rows, cols)
     = Some (replicate (Z.to_nat rows) (replicate (Z.to_nat cols) Binary32.zero))).
Proof.
  assert (Hdef : forall data, utils.create_heatmap data (rows, cols) =
            if (rows <? 0) || (cols <? 0) then None
            else
              largest ← utils.np_max (heatmap_counts data rows cols);
              if SFltb Binary32.zero largest
              then Some (map (map (fun v => Binary32.div v largest))
                             (heatmap_counts data rows cols))
              else Some (heatmap_counts data rows cols)) by reflexivity.
  split; [|split; [|split]].
  - rewrite Hdef. destruct ((rows <? 0) || (cols <? 0)) eqn:E.
    + split; [|reflexivity]. intros _. apply orb_true_iff in E. lia.
    + apply orb_false_iff in E as [E1 E2]. apply Z.ltb_ge in E1, E2.
      pose proof (concat_shape_nil rows cols _ (heatmap_counts_shape data rows cols)) as Hc.
      unfold utils.np_max. destruct (concat (heatmap_counts data rows cols)) as [|v vs].
      * cbn. split; [intros _; apply Hc; reflexivity|reflexivity].
      * cbn [mbind option_bind]. split.
        -- destruct (SFltb _ _); discriminate.
        -- intros H. apply Hc in H. discriminate.
  - intros heatmap. rewrite Hdef. destruct ((rows <? 0) || (cols <? 0)); [discriminate|].
    pose proof (heatmap_counts_shape data rows cols) as [Hl Hr].
    destruct (utils.np_max _) as [largest|]; [|discriminate]. cbn [mbind option_bind].
    destruct (SFltb _ _); intros [= <-]; [|split; assumption].
    split; [rewrite length_map; exact Hl|].
    apply Forall_fmap. eapply Forall_impl; [exact Hr|]. intros row Hrow. cbn.
    rewrite length_map. exact Hrow.
  - rewrite !Hdef, <- heatmap_counts_filter. reflexivity.
  - intros Hrows Hcols Hnone. rewrite Hdef.
    replace ((rows <? 0) || (cols <? 0)) with false
      by (symmetry; apply orb_false_iff; split; apply Z.ltb_ge; lia).
    rewrite heatmap_counts_filter, Hnone. unfold heatmap_counts. cbn [fold_left].
    rewrite np_max_zeros by lia. reflexivity.
Qed.

(** ** Cleaning up old files *)

Lemma insert_newest_first_perm (item : string * float) (sorted : list (string * float)) :
  utils.insert_newest_first item sorted ≡ₚ item :: sorted.
Proof.
  induction sorted as [|other rest IH]; cbn; [reflexivity|].
  destruct (ltb (snd other) (snd item)); [reflexivity|].
  rewrite IH. apply Permutation_swap.
Qed.

Lemma sort_newest_first_perm (files : list (string * float)) :
  utils.sort_newest_first files ≡ₚ files.
Proof.
  unfold utils.sort_newest_first.
  assert (H : forall acc, fold_left (fun sorted item => utils.insert_newest_first item sorted)
                            files acc ≡ₚ acc ++ files).
  { induction files as [|item files IH]; intros acc; cbn [fold_left].
    - rewrite app_nil_r. reflexivity.
    - rewrite IH, insert_newest_first_perm. cbn [app]. apply Permutation_middle. }
  apply (H []).
Qed.

Lemma insert_newest_first_sorted (item : string * float) (sorted : list (string * float)) :
  nonneg_valid (snd item) = true ->
  Forall (fun f => nonneg_valid (snd f) = true) sorted ->
  StronglySorted newer_or_equal sorted ->
  StronglySorted newer_or_equal (utils.insert_newest_first item sorted).
Proof.
  intros Hi Hv Hs. induction Hs as [|other rest Hrest IH Hother]; cbn.
  - repeat constructor.
  - inversion Hv as [|? ? Ho Hvr]; subst.
    pose proof (ltb_ord (snd other) (snd item) Ho Hi) as Hlt.
    destruct (ltb (snd other) (snd item)).
    + apply proj1 in Hlt. specialize (Hlt eq_refl).
      constructor; [constructor; assumption|].
      constructor; [unfold newer_or_equal; lia|].
      eapply Forall_impl; [exact Hother|]. unfold newer_or_equal. intros f Hf. lia.
    + assert (Hle : ord (snd item) <= ord (snd other)).
      { destruct (Z_lt_le_dec (ord (snd other)) (ord (snd item))) as [H|H]; [|exact H].
        apply Hlt in H. discriminate. }
      constructor; [apply IH; exact Hvr|].
      rewrite insert_newest_first_perm. constructor; [exact Hle|exact Hother].
Qed.

Lemma sort_newest_first_sorted (files : list (string * float)) :
  Forall (fun f => nonneg_valid (snd f) = true) files ->
  StronglySorted newer_or_equal (utils.sort_newest_first files).
Proof.
  intros Hv. unfold utils.sort_newest_first.
  assert (H : forall acc,
            Forall (fun f => nonneg_valid (snd f) = true) acc ->
            StronglySorted newer_or_equal acc ->
            StronglySorted newer_or_equal
              (fold_left (fun sorted item => utils.insert_newest_first item sorted) files acc)).
  { induction Hv as [|item files Hi _ IH]; intros acc Ha Hs; cbn [fold_left]; [exact Hs|].
    apply IH.
    - rewrite insert_newest_first_perm. constructor; assumption.
    - apply insert_newest_first_sorted; assumption. }
  apply H; constructor.
Qed.

Lemma py_slice_from {A} (l : list A) (i : Z) :
  0 <= i -> py_slice l i (Z.of_nat (length l)) = drop (Z.to_nat i) l.
Proof.
  intros Hi. unfold py_slice, slice_index.
  destruct (i <? 0) eqn:E1; [apply Z.ltb_lt in E1; lia|].
  destruct (Z.of_nat (length l) <? 0) eqn:E2; [apply Z.ltb_lt in E2; lia|].
  rewrite Z.min_id.
  destruct (Z_le_gt_dec i (Z.of_nat (length l))).
  - rewrite (Z.min_l i) by lia. apply take_ge. rewrite length_drop. lia.
  - rewrite (Z.min_r i) by lia. rewrite Nat2Z.id, !drop_ge by lia. apply take_nil.
Qed.

Lemma remove_loop (fs : utils.FileSystem) (candidates : list (string * float))
    (removed : list string) (removed_count : Z) :
  fold_left (fun acc (file : string * float) =>
               let '(removed, removed_count) := acc in
               let filepath := fst file in
               if utils.remove fs filepath
               then (removed ++ [filepath], removed_count + 1)
               else acc)
            candidates (removed, removed_count)
  = (removed ++ map fst (List.filter (fun f => utils.remove fs (fst f)) candidates),
     removed_count
     + Z.of_nat (length (List.filter (fun f => utils.remove fs (fst f)) candidates))).
Proof.
  revert removed removed_count.
  induction candidates as [|file candidates IH]; intros removed removed_count;
    cbn [fold_left List.filter].
  - cbn. rewrite app_nil_r, Z.add_0_r. reflexivity.
  - destruct (utils.remove fs (fst file)); rewrite IH; [|reflexivity].
    cbn [map length]. rewrite <- app_assoc. cbn [app]. f_equal. lia.
Qed.

(** X11: when the directory cannot be listed, or a modification time
    cannot be read, [cleanup_old_files] removes nothing and returns 0.
    Otherwise (for [max_files] from 0 up) it keeps the [max_files] newest
    files, or all of them if there are fewer, and tries to remove the
    others: every file it keeps is at least as new as every file it tries
    to remove, the files removed are those whose removal succeeds, and the
    count returned is their number. *)
Theorem cleanup_keeps_the_newest (fs : utils.FileSystem) (directory : string)
    (max_files : Z) :
  0 <= max_files ->
  match utils.list_files fs directory with
  | None => utils.cleanup_old_files fs directory max_files = ([], 0)
  | Some files =>
      Forall (fun f => nonneg_valid (snd f) = true) files ->
      exists kept candidates,
        kept ++ candidates ≡ₚ files /\
        length kept = Nat.min (Z.to_nat max_files) (length files) /\
        (forall k c, k ∈ kept -> c ∈ candidates -> leb (snd c) (snd k) = true) /\
        utils.cleanup_old_files fs directory max_files =
          (map fst (List.filter (fun f => utils.remove fs (fst f)) candidates),
           Z.of_nat (length (List.filter (fun f => utils.remove fs (fst f)) candidates)))
  end.
Proof.
  intros Hmax. unfold utils.cleanup_old_files.
  destruct (utils.list_files fs directory) as [files|]; [|reflexivity].
  intros Hv. cbv zeta.
  pose proof (sort_newest_first_perm files) as Hp.
  pose proof (sort_newest_first_sorted files Hv) as Hs.
  set (sorted := utils.sort_newest_first files) in *.
  exists (take (Z.to_nat max_files) sorted), (drop (Z.to_nat max_files) sorted).
  split; [rewrite take_drop; exact Hp|].
  split; [rewrite length_take, (Permutation_length Hp); reflexivity|].
  split.
  - intros k c Hk Hc. rewrite <- (take_drop (Z.to_nat max_files) sorted) in Hs.
    pose proof (StronglySorted_app_1_elem_of _ _ _ k c Hs Hk Hc) as Hkc.
    assert (Hvs : Forall (fun f => nonneg_valid (snd f) = true) sorted)
      by (rewrite Hp; exact Hv).
    rewrite Forall_forall in Hvs.
    apply leb_ord; [apply Hvs|apply Hvs|exact Hkc].
    + eapply subseteq_drop; exact Hc.
    + eapply subseteq_take; exact Hk.
  - rewrite py_slice_from by exact Hmax. rewrite remove_loop. reflexivity.
Qed.

(** Three files, one to keep: the newest stays, the removal of the oldest
    fails, one file is removed. *)
Lemma three_files_example :
  0 <= 1 /\
  utils.cleanup_old_files three_files "logs" 1 = (["logs/c"%string], 1) /\
  exists files,
    utils.list_files three_files "logs" = Some files /\
    Forall (fun f => nonneg_valid (snd f) = true) files /\
    exists kept candidates,
      kept ++ candidates ≡ₚ files /\
      length kept = Nat.min (Z.to_nat 1) (length files) /\
      (forall k c, k ∈ kept -> c ∈ candidates -> leb (snd c) (snd k) = true) /\
      utils.cleanup_old_files three_files "logs" 1 =
        (map fst (List.filter (fun f => utils.remove three_files (fst f)) candidates),
         Z.of_nat (length (List.filter (fun f => utils.remove three_files (fst f))
                                       candidates))).
Proof.
  split; [lia|]. split; [vm_compute; reflexivity|].
  pose proof (cleanup_keeps_the_newest three_files "logs" 1 ltac:(lia)) as H.
  assert (Hl : utils.list_files three_files "logs"
               = Some [("logs/a"%string, of_Z 3); ("logs/b"%string, of_Z 1);
                       ("logs/c"%string, of_Z 2)]) by reflexivity.
  rewrite Hl in H. eexists. split; [exact Hl|].
  assert (Hv : Forall (fun f : string * float => nonneg_valid (snd f) = true)
                 [("logs/a"%string, of_Z 3); ("logs/b"%string, of_Z 1);
                  ("logs/c"%string, of_Z 2)]) by (repeat constructor).
  split; [exact Hv|exact (H Hv)].
Defined.

(** ** Division *)

Lemma shr_1_twice (P : positive) (l : location) :
  shr_1 (shr_1 (Build_shr_record (4 * Z.pos P + loc_code l) false false))
  = shr_record_of_loc (Z.pos P) l.
Proof. destruct l as [|[| |]]; reflexivity. Qed.

Lemma digits2_located (P : positive) (l : location) :
  Zdigits2 (4 * Z.pos P + loc_code l) = Z.pos (digits2_pos P) + 2.
Proof.
  assert (Hc : 0 <= loc_code l <= 3) by (destruct l as [|[| |]]; cbn; lia).
  destruct (4 * Z.pos P + loc_code l) as [|R|R] eqn:ER; [lia| |lia].
  cbn [Zdigits2]. apply digits2_unique. rewrite <- ER.
  pose proof (digits2_bounds P) as Hd. set (d := Z.pos (digits2_pos P)) in *.
  assert (1 <= d) by (subst d; lia).
  replace (d + 2 - 1) with (2 + (d - 1)) by lia.
  replace (d + 2) with (2 + d) by lia.
  rewrite !Z.pow_add_r by lia. change (2 ^ 2) with 4. lia.
Qed.

(** Rounding a mantissa with a location is rounding the mantissa extended
    by the two bits of the location. *)
Lemma binary_round_aux_located (P : positive) (e : Z) (l : location) :
  let E := fexp64 (Z.pos (digits2_pos P) + e) in
  e <= E ->
  binary_round_aux prec emax false (Z.pos P) e l
  = rounded (rne (4 * Z.pos P + loc_code l) (E - e + 2)) E.
Proof.
  intros E HE.
  assert (Hc : 0 <= loc_code l <= 3) by (destruct l as [|[| |]]; cbn; lia).
  destruct (4 * Z.pos P + loc_code l) as [|R|R] eqn:ER; [lia| |lia].
  pose proof (digits2_located P l) as HdR. rewrite ER in HdR. cbn [Zdigits2] in HdR.
  pose proof (binary_round_aux_rounded R (e - 2)) as H. cbv zeta in H.
  rewrite HdR in H.
  replace (Z.pos (digits2_pos P) + 2 + (e - 2)) with (Z.pos (digits2_pos P) + e) in H by lia.
  fold E in H. replace (E - (e - 2)) with (E - e + 2) in H by lia.
  rewrite <- H by lia. clear H.
  assert (Hshr : shr_fexp prec emax (Z.pos P) e l
                 = shr_fexp prec emax (Z.pos R) (e - 2) loc_Exact).
  { unfold shr_fexp. cbn [Zdigits2]. rewrite HdR.
    replace (Z.pos (digits2_pos P) + 2 + (e - 2)) with (Z.pos (digits2_pos P) + e) by lia.
    rewrite !fexp_fexp64. fold E. cbn [shr_record_of_loc]. rewrite <- ER.
    unfold shr. destruct (E - e) as [|k|k] eqn:Hk; [| |lia].
    - replace (E - (e - 2)) with 2 by lia.
      transitivity (shr_1 (shr_1 (Build_shr_record (4 * Z.pos P + loc_code l) false false)),
                    e - 2 + 2); [|reflexivity].
      rewrite shr_1_twice. f_equal. lia.
    - replace (E - (e - 2)) with (Z.pos (k + 2)) by lia. cbv beta iota.
      rewrite !iter_pos_Pos_iter, Pos.iter_add.
      change (Pos.iter shr_1 ?x 2) with (shr_1 (shr_1 x)).
      rewrite shr_1_twice. f_equal. lia. }
  unfold binary_round_aux. rewrite Hshr. reflexivity.
Qed.

Lemma new_location_code (nb_steps r : Z) :
  0 <= loc_code (new_location nb_steps r) <= 3 /\
  (r = 0 -> loc_code (new_location nb_steps r) = 0).
Proof.
  unfold new_location, new_location_even, new_location_odd.
  destruct (Z.even nb_steps), (r =? 0) eqn:E; cbn [loc_code];
    try (apply Z.eqb_neq in E);
    repeat match goal with |- context [match ?c with Eq => _ | Lt => _ | Gt => _ end] =>
             destruct c end; cbn [loc_code]; lia.
Qed.

(** The quotient of two normal doubles: its rank is that of the quotient
    of the mantissas, extended by two bits for the remainder, rounded at
    [k + 2] bits, where [k] is 0 or 1. *)
Lemma div_normal (mS mN : positive) (eS eN : Z) :
  2 ^ 52 <= Z.pos mS < 2 ^ 53 -> 2 ^ 52 <= Z.pos mN < 2 ^ 53 ->
  -1021 <= eS - eN ->
  let q := Z.pos mS * 2 ^ 53 / Z.pos mN in
  let r := (Z.pos mS * 2 ^ 53) mod Z.pos mN in
  exists c k,
    0 <= c <= 3 /\ (r = 0 -> c = 0) /\ 0 <= k <= 1 /\
    nonneg_valid (div (S754_finite false mS eS) (S754_finite false mN eN)) = true /\
    ord (div (S754_finite false mS eS) (S754_finite false mN eN))
      = Z.min (rne (4 * q + c) (k + 2) * 2 ^ (eS - eN - 53 + k + 1074)) ord_infinity.
Proof.
  intros HmS HmN He. cbv zeta.
  unfold div, SFdiv, SFdiv_core_binary. cbn [xorb Zdigits2].
  rewrite (digits2_unique mS 53), (digits2_unique mN 53) by lia.
  rewrite fexp_fexp64. unfold fexp64.
  replace (Z.min (Z.max (53 + eS - (53 + eN) - 53) (-1074)) (eS - eN))
    with (eS - eN - 53) by lia.
  replace (eS - eN - (eS - eN - 53)) with 53 by lia. cbv beta iota.
  rewrite Z.shiftl_mul_pow2 by lia.
  set (a := Z.pos mS * 2 ^ 53). set (b := Z.pos mN).
  assert (Hq : fst (Z.div_eucl a b) = a / b) by reflexivity.
  assert (Hr : snd (Z.div_eucl a b) = a mod b) by reflexivity.
  destruct (Z.div_eucl a b) as [q r]. cbn [fst snd] in Hq, Hr. subst q r.
  assert (Hlo : 2 ^ 52 <= a / b).
  { apply Z.div_le_lower_bound; [subst b; lia|]. subst a b.
    assert (2 ^ 52 * 2 ^ 53 <= Z.pos mS * 2 ^ 53) by (apply Z.mul_le_mono_nonneg_r; lia).
    lia. }
  assert (Hhi : a / b < 2 ^ 54).
  { apply Z.div_lt_upper_bound; [subst b; lia|]. subst a b.
    assert (Z.pos mS * 2 ^ 53 < 2 ^ 53 * 2 ^ 53) by (apply Z.mul_lt_mono_pos_r; lia).
    lia. }
  destruct (a / b) as [|q|q] eqn:Eq; [lia| |lia].
  pose proof (digits2_bounds q) as Hd.
  assert (Hdq : 53 <= Z.pos (digits2_pos q) <= 54).
  { set (d := Z.pos (digits2_pos q)) in *. split.
    - destruct (Z_le_gt_dec 53 d); [assumption|].
      assert (2 ^ d <= 2 ^ 52) by (apply Z.pow_le_mono_r; lia). lia.
    - destruct (Z_le_gt_dec d 54); [assumption|].
      assert (2 ^ 54 <= 2 ^ (d - 1)) by (apply Z.pow_le_mono_r; lia). lia. }
  set (l := new_location b (a mod b)).
  destruct (new_location_code b (a mod b)) as [Hc Hc0]. fold l in Hc, Hc0.
  exists (loc_code l), (Z.pos (digits2_pos q) - 53).
  split; [exact Hc|]. split; [exact Hc0|]. split; [lia|].
  pose proof (binary_round_aux_located q (eS - eN - 53) l) as Hround. cbv zeta in Hround.
  assert (HE : fexp64 (Z.pos (digits2_pos q) + (eS - eN - 53))
               = eS - eN - 53 + (Z.pos (digits2_pos q) - 53)) by (unfold fexp64; lia).
  rewrite HE in Hround. rewrite Hround by lia. clear Hround.
  replace (eS - eN - 53 + (Z.pos (digits2_pos q) - 53) - (eS - eN - 53) + 2)
    with (Z.pos (digits2_pos q) - 53 + 2) by lia.
  destruct (4 * Z.pos q + loc_code l) as [|R|R] eqn:ER; [lia| |lia].
  pose proof (digits2_located q l) as HdR. rewrite ER in HdR. cbn [Zdigits2] in HdR.
  pose proof (rne_regime R (eS - eN - 53 - 2)) as Hreg. cbv zeta in Hreg.
  rewrite HdR in Hreg.
  replace (Z.pos (digits2_pos q) + 2 + (eS - eN - 53 - 2))
    with (Z.pos (digits2_pos q) + (eS - eN - 53)) in Hreg by lia.
  rewrite HE in Hreg.
  replace (eS - eN - 53 + (Z.pos (digits2_pos q) - 53) - (eS - eN - 53 - 2))
    with (Z.pos (digits2_pos q) - 53 + 2) in Hreg by lia.
  destruct (Hreg ltac:(lia)) as (H1 & H2 & H3).
  apply (rounded_ord _ _ H1 H2 H3).
Qed.

(** What rounding at 2 or 3 bits keeps of a mantissa extended by two bits. *)
Lemma rne_located_bounds (q c k Y : Z) :
  0 <= q -> 0 <= c <= 3 -> 0 <= k <= 1 -> Y mod 2 = 0 ->
  let mu := rne (4 * q + c) (k + 2) in
  q - 1 <= mu * 2 ^ k <= q + 2 /\
  (4 * q + c <= 4 * Y -> mu * 2 ^ k <= Y) /\
  (4 * Y <= 4 * q + c -> Y <= mu * 2 ^ k).
Proof.
  intros Hq Hc Hk HY. cbv zeta.
  assert (HY2 : Y = 2 * (Y / 2)) by (pose proof (Z.div_mod Y 2); lia).
  assert (k = 0 \/ k = 1) as [-> | ->] by lia.
  - change (2 ^ 0) with 1. change (0 + 2) with 2. rewrite !Z.mul_1_r.
    pose proof (rne_bounds (4 * q + c) 2 ltac:(lia)) as Hb. change (2 ^ 2) with 4 in Hb.
    assert (Hdiv : (4 * q + c) / 4 = q) by (symmetry; apply (Z.div_unique _ 4 q c); lia).
    rewrite Hdiv in Hb.
    pose proof (rne_exact Y 2 ltac:(lia)) as He. change (2 ^ 2) with 4 in He.
    split; [lia|]. split; intros H.
    + rewrite <- He. apply rne_mono; lia.
    + rewrite <- He at 1. apply rne_mono; lia.
  - change (2 ^ 1) with 2. change (1 + 2) with 3.
    pose proof (rne_bounds (4 * q + c) 3 ltac:(lia)) as Hb. change (2 ^ 3) with 8 in Hb.
    pose proof (Z.div_mod q 2 ltac:(lia)) as Hq2. pose proof (Z.mod_pos_bound q 2 ltac:(lia)).
    assert (Hdiv : (4 * q + c) / 8 = q / 2).
    { symmetry. apply (Z.div_unique _ 8 (q / 2) (4 * (q mod 2) + c)); lia. }
    rewrite Hdiv in Hb.
    pose proof (rne_exact (Y / 2) 3 ltac:(lia)) as He. change (2 ^ 3) with 8 in He.
    split; [lia|]. split; intros Hle.
    + assert (rne (4 * q + c) 3 <= Y / 2); [|lia].
      rewrite <- He. apply rne_mono; lia.
    + assert (Y / 2 <= rne (4 * q + c) 3); [|lia].
      rewrite <- He at 1. apply rne_mono; lia.
Qed.

(** How the quotient of the mantissas compares with a threshold. *)
Lemma quotient_core (S N t D W mN q r Y : Z) :
  0 < mN < W -> 2 * W <= D -> 0 <= r < mN ->
  q * mN + r = S * D -> Y * mN = t * N * D ->
  (S < t * N -> q + 3 <= Y) /\
  (t * N <= S -> Y <= q) /\
  (t * N < S -> Y + 2 <= q) /\
  (S <= t * N -> q <= Y /\ (q = Y -> r = 0)).
Proof.
  intros HmN HD Hr Hq HY.
  assert (HD0 : 0 < D) by lia.
  split; [|split; [|split]]; intros H.
  - assert (S * D + D <= t * N * D) by nia.
    destruct (Z_le_gt_dec (q + 3) Y); [assumption|exfalso].
    assert ((Y - q) * mN <= 2 * mN) by nia. nia.
  - assert (t * N * D <= S * D) by nia.
    destruct (Z_le_gt_dec Y q); [assumption|exfalso].
    assert ((q + 1) * mN <= Y * mN) by nia. nia.
  - assert (t * N * D + D <= S * D) by nia.
    destruct (Z_le_gt_dec (Y + 2) q); [assumption|exfalso].
    assert ((q - Y) * mN <= mN) by nia. nia.
  - assert (S * D <= t * N * D) by nia.
    assert (q <= Y).
    { destruct (Z_le_gt_dec q Y); [assumption|exfalso].
      assert ((Y + 1) * mN <= q * mN) by nia. nia. }
    split; [assumption|]. intros ->. nia.
Qed.

(** The double quotient of two integers compares with an integer threshold
    as the exact quotient does. *)
Lemma quotient_compare (S N t : Z) :
  0 <= S < 2 ^ 52 -> 0 < N < 2 ^ 53 -> 0 < t < 2 ^ 53 ->
  ltb (div (of_Z S) (of_Z N)) (of_Z t) = (S <? t * N) /\
  ltb (of_Z t) (div (of_Z S) (of_Z N)) = (t * N <? S).
Proof.
  intros HS HN Ht.
  destruct (of_Z_ord t ltac:(lia)) as [Hvt Hot].
  assert (Htinf : ord (of_Z t) < ord_infinity)
    by (rewrite Hot; apply (below_infinity t 53 1074); lia).
  assert (Hgoal : forall x, nonneg_valid x = true ->
            (ord x < ord (of_Z t) <-> S < t * N) ->
            (ord (of_Z t) < ord x <-> t * N < S) ->
            ltb x (of_Z t) = (S <? t * N) /\ ltb (of_Z t) x = (t * N <? S)).
  { intros x Hvx H1 H2.
    pose proof (ltb_ord x (of_Z t) Hvx Hvt) as L1.
    pose proof (ltb_ord (of_Z t) x Hvt Hvx) as L2.
    split.
    - destruct (ltb x (of_Z t)), (S <? t * N) eqn:E; try reflexivity;
        [apply Z.ltb_ge in E|apply Z.ltb_lt in E]; exfalso.
      + apply proj1 in L1. specialize (L1 eq_refl). apply H1 in L1. lia.
      + apply H1, L1 in E. discriminate.
    - destruct (ltb (of_Z t) x), (t * N <? S) eqn:E; try reflexivity;
        [apply Z.ltb_ge in E|apply Z.ltb_lt in E]; exfalso.
      + apply proj1 in L2. specialize (L2 eq_refl). apply H2 in L2. lia.
      + apply H2, L2 in E. discriminate. }
  destruct (normalize_exact N 0 ltac:(lia) ltac:(lia)) as (mN & eN & HfN & HeN & HmN & HrN).
  change (binary_normalize prec emax N 0 false) with (of_Z N) in HfN. rewrite HfN.
  destruct (Z.eq_dec S 0) as [->|HS0].
  { apply Hgoal; [reflexivity| |]; cbn [ord of_Z binary_normalize div SFdiv xorb];
      rewrite Hot; pose proof (pow2_pos 1074 ltac:(lia)); split; intros; nia. }
  destruct (normalize_exact S 0 ltac:(lia) ltac:(lia)) as (mS & eS & HfS & HeS & HmS & HrS).
  change (binary_normalize prec emax S 0 false) with (of_Z S) in HfS. rewrite HfS.
  rewrite Z.sub_0_l in HmS, HmN.
  assert (HeS1 : eS <= -1).
  { destruct (Z.eq_dec eS 0) as [->|]; [|lia]. cbn in HmS. lia. }
  destruct (div_normal mS mN eS eN HrS HrN ltac:(lia)) as (c & k & Hc & Hc0 & Hk & Hv & Ho).
  apply Hgoal; [exact Hv| |]; rewrite Ho, Hot; clear Hgoal Hv Ho.
  all: set (q := Z.pos mS * 2 ^ 53 / Z.pos mN) in *.
  all: set (r := (Z.pos mS * 2 ^ 53) mod Z.pos mN) in *.
  all: assert (Hqr : q * Z.pos mN + r = Z.pos mS * 2 ^ 53)
         by (subst q r; pose proof (Z.div_mod (Z.pos mS * 2 ^ 53) (Z.pos mN)); lia).
  all: assert (Hr : 0 <= r < Z.pos mN) by (subst r; apply Z.mod_pos_bound; lia).
  all: assert (Hq0 : 0 <= q) by (subst q; apply Z.div_pos; lia).
  all: set (Y := t * 2 ^ (53 + eN - eS)).
  all: set (D := 2 ^ (53 - eS)).
  all: assert (HSD : Z.pos mS * 2 ^ 53 = S * D)
         by (rewrite HmS, <- Z.mul_assoc, <- Z.pow_add_r by lia; subst D;
             do 2 f_equal; lia).
  all: assert (HYD : Y * Z.pos mN = t * N * D)
         by (subst Y D; rewrite HmN;
             replace (53 - eS) with ((53 + eN - eS) + - eN) by lia;
             rewrite Z.pow_add_r by lia; ring).
  all: assert (HD : 2 * 2 ^ 53 <= D)
         by (subst D; rewrite <- Z.pow_succ_r by lia; apply Z.pow_le_mono_r; lia).
  all: rewrite HSD in Hqr.
  all: destruct (quotient_core S N t D (2 ^ 53) (Z.pos mN) q r Y
                   ltac:(lia) HD Hr Hqr HYD) as (C1 & C2 & C3 & C4).
  all: assert (HYeven : Y mod 2 = 0)
         by (subst Y; replace (53 + eN - eS) with (Z.succ (52 + eN - eS)) by lia;
             rewrite Z.pow_succ_r by lia;
             replace (t * (2 * 2 ^ (52 + eN - eS))) with ((t * 2 ^ (52 + eN - eS)) * 2) by ring;
             apply Z.mod_mul; lia).
  all: destruct (rne_located_bounds q c k Y Hq0 Hc Hk HYeven) as (B1 & B2 & B3).
  all: set (mu := rne (4 * q + c) (k + 2)) in *.
  all: set (G := 2 ^ (eS - eN - 53 + 1074)).
  all: assert (HG : 0 < G) by (subst G; apply pow2_pos; lia).
  all: assert (HmuG : mu * 2 ^ (eS - eN - 53 + k + 1074) = (mu * 2 ^ k) * G)
         by (subst G; rewrite <- Z.mul_assoc, <- Z.pow_add_r by lia; do 2 f_equal; lia).
  all: assert (HtG : t * 2 ^ 1074 = Y * G)
         by (subst Y G; rewrite <- Z.mul_assoc, <- Z.pow_add_r by lia; do 2 f_equal; lia).
  all: rewrite Hot in Htinf; rewrite HmuG; rewrite HtG in *.
  all: set (X := mu * 2 ^ k) in *.
  - split; intros H.
    + destruct (Z_lt_le_dec S (t * N)) as [Hlt|Hge]; [exact Hlt|exfalso].
      specialize (C2 Hge). specialize (B3 ltac:(lia)).
      assert (Y * G <= X * G) by (apply Z.mul_le_mono_nonneg_r; lia). lia.
    + specialize (C1 H). assert (X * G < Y * G) by (apply Z.mul_lt_mono_pos_r; lia). lia.
  - split; intros H.
    + destruct (Z_lt_le_dec (t * N) S) as [Hlt|Hge]; [exact Hlt|exfalso].
      destruct (C4 Hge) as [C5 C6].
      assert (4 * q + c <= 4 * Y).
      { destruct (Z.eq_dec q Y) as [Heq|]; [|lia]. rewrite (Hc0 (C6 Heq)). lia. }
      specialize (B2 ltac:(lia)). assert (X * G <= Y * G) by (apply Z.mul_le_mono_nonneg_r; lia). lia.
    + specialize (C3 H). assert (Y * G < X * G) by (apply Z.mul_lt_mono_pos_r; lia). lia.
Qed.

(** X12: on a frame that is not empty (its converted image holding fewer
    than 2^53 pixels and channel sums below 2^52, as every 8-bit frame of
    fewer than 2^44 pixels does), gas is reported exactly when the sum of
    the hues exceeds 100 times the number of pixels or the sum of the
    saturations is below 50 times that number: the double means decide as
    the exact means do.  [monitor_environment] then writes the dust level,
    and adds one "Gas Detected" record with that level exactly in this
    case. *)
Theorem gas_alarm_decides_exactly (cv : OpenCV) (now : Timestamp)
    (st : MiningCVSystem.state) (img : Image) :
  size img <> 0 ->
  let hsv := BGR2HSV cv img in
  let n := shape0 hsv * shape1 hsv in
  let hue := channel_sum (fun p => fst (fst p)) hsv in
  let saturation := channel_sum (fun p => snd (fst p)) hsv in
  let gas := (100 * n <? hue) || (saturation <? 50 * n) in
  let dust_level := countNonZero (inRange hsv (0, 0, 100) (180, 30, 200)) in
  0 < n < 2 ^ 53 -> 0 <= hue < 2 ^ 52 -> 0 <= saturation < 2 ^ 52 ->
  MiningCVSystem.detect_gas cv img = Some gas /\
  exists st' frame',
    MiningCVSystem.monitor_environment cv now st (new_frame img) = Some (st', frame') /\
    MiningCVSystem.environmental_data st' =
      MiningCVSystem.environmental_data st ++
      (if gas then [{| MiningCVSystem.e_timestamp := now;
                       MiningCVSystem.e_type := "Gas Detected";
                       MiningCVSystem.e_dust_level := dust_level |}]
       else []) /\
    drawn frame' =
      PutText (DustLevel dust_level) (10, 30) white ::
      (if gas then [PutText GAS_DETECTED (10, 60) red] else []).
Proof.
  intros Hsize hsv n hue saturation gas dust_level Hn Hh Hs.
  assert (Hgas : MiningCVSystem.detect_gas cv img = Some gas).
  { unfold MiningCVSystem.detect_gas, cvtColor_HSV.
    destruct (size img =? 0) eqn:E; [apply Z.eqb_eq in E; contradiction|].
    cbn [mbind option_bind]. fold hsv. unfold MiningCVSystem.channel_mean, gtb_Z, ltb_Z.
    fold (channel_sum (fun p => fst (fst p)) hsv) (channel_sum (fun p => snd (fst p)) hsv).
    fold hue saturation n.
    destruct (quotient_compare hue n 100 Hh Hn ltac:(lia)) as [_ ->].
    destruct (quotient_compare saturation n 50 Hs Hn ltac:(lia)) as [-> _].
    subst gas. destruct (_ || _); reflexivity. }
  split; [exact Hgas|].
  unfold MiningCVSystem.monitor_environment, cvtColor_HSV, pixels.
  cbn [new_frame drawn captured fold_left].
  destruct (size img =? 0) eqn:E; [apply Z.eqb_eq in E; contradiction|].
  cbn [mbind option_bind]. rewrite Hgas. cbn [mbind option_bind]. fold hsv dust_level.
  destruct gas; eexists _, _; (split; [reflexivity|]); cbn; rewrite ?app_nil_r; auto.
Qed.

(** A 2x2 frame of hue 120: gas is reported. *)
Lemma blue_frame_example :
  let img := filled 2 2 (120, 200, 200) in
  size img <> 0 /\
  0 < shape0 img * shape1 img < 2 ^ 53 /\
  channel_sum (fun p => fst (fst p)) img = 480 /\
  channel_sum (fun p => snd (fst p)) img = 800 /\
  MiningCVSystem.detect_gas plain_cv img = Some true.
Proof.
  intros img.
  assert (H1 : size img <> 0) by (vm_compute; discriminate).
  assert (H2 : 0 < shape0 (BGR2HSV plain_cv img) * shape1 (BGR2HSV plain_cv img) < 2 ^ 53)
    by (vm_compute; split; reflexivity).
  assert (H3 : 0 <= channel_sum (fun p => fst (fst p)) (BGR2HSV plain_cv img) < 2 ^ 52)
    by (vm_compute; split; [discriminate|reflexivity]).
  assert (H4 : 0 <= channel_sum (fun p => snd (fst p)) (BGR2HSV plain_cv img) < 2 ^ 52)
    by (vm_compute; split; [discriminate|reflexivity]).
  split; [exact H1|]. split; [exact H2|]. split; [reflexivity|]. split; [reflexivity|].
  exact (proj1 (gas_alarm_decides_exactly plain_cv "t" MiningCVSystem.init img H1 H2 H3 H4)).
Defined.

(** ** Resizing *)

Lemma mul_comm (x y : float) : mul x y = mul y x.
Proof.
  unfold mul, SFmul.
  destruct x as [sx|sx| |sx mx ex], y as [sy|sy| |sy my ey];
    rewrite ?(xorb_comm sx sy), ?(Pos.mul_comm mx my), ?(Z.add_comm ex ey); reflexivity.
Qed.

Lemma valid_finite (x : float) :
  nonneg_valid x = true -> ord x < ord_infinity -> nonneg_finite x = true.
Proof.
  destruct x as [s|s| |s m e]; cbn [nonneg_valid nonneg_finite ord]; auto. lia.
Qed.

(** Truncation reads the integer part of the rank. *)
Lemma to_int_ord (x : float) :
  nonneg_valid x = true -> ord x < ord_infinity ->
  to_int x = Some (ord x / 2 ^ 1074).
Proof.
  destruct x as [s|s| |s m e]; cbn [nonneg_valid to_int ord];
    try discriminate; try (intros _ H; apply Z.lt_irrefl in H; contradiction).
  - intros _ _. rewrite Z.div_0_l; [reflexivity|]. pose proof (pow2_pos 1074 ltac:(lia)). lia.
  - destruct s; [discriminate|]. cbn [negb andb]. intros Hb _.
    apply bounded_spec in Hb as (He & _ & _). f_equal.
    destruct (0 <=? e) eqn:E.
    + apply Z.leb_le in E. rewrite Z.pow_add_r, Z.mul_assoc by lia.
      rewrite Z.div_mul; [reflexivity|]. pose proof (pow2_pos 1074 ltac:(lia)). lia.
    + apply Z.leb_gt in E.
      replace (2 ^ 1074) with (2 ^ (- e) * 2 ^ (e + 1074))
        by (rewrite <- Z.pow_add_r by lia; f_equal; lia).
      pose proof (pow2_pos (- e) ltac:(lia)). pose proof (pow2_pos (e + 1074) ltac:(lia)).
      rewrite Z.div_mul_cancel_r by lia. reflexivity.
Qed.

Lemma rank_units : 2 ^ 1023 * 2 ^ 53 = 4 * 2 ^ 1074 /\ 2 ^ 1074 = 2 ^ 51 * 2 ^ 1023.
Proof. split; vm_compute; reflexivity. Qed.

(** The double quotient of two positive integers: its rank from above. *)
Lemma div_upper (S N : Z) :
  0 < S < 2 ^ 53 -> 0 < N < 2 ^ 53 ->
  let a := div (of_Z S) (of_Z N) in
  nonneg_valid a = true /\
  2 ^ 1020 <= ord a /\
  N * ord a <= S * (2 ^ 1074 + 2 ^ 1023).
Proof.
  intros HS HN. cbv zeta.
  destruct (normalize_exact N 0 ltac:(lia) ltac:(lia)) as (mN & eN & HfN & HeN & HmN & HrN).
  destruct (normalize_exact S 0 ltac:(lia) ltac:(lia)) as (mS & eS & HfS & HeS & HmS & HrS).
  change (binary_normalize prec emax N 0 false) with (of_Z N) in HfN. rewrite HfN.
  change (binary_normalize prec emax S 0 false) with (of_Z S) in HfS. rewrite HfS.
  rewrite Z.sub_0_l in HmS, HmN.
  destruct (div_normal mS mN eS eN HrS HrN ltac:(lia)) as (c & k & Hc & Hc0 & Hk & Hv & Ho).
  split; [exact Hv|]. rewrite Ho. clear Hv Ho.
  set (q := Z.pos mS * 2 ^ 53 / Z.pos mN) in *.
  set (r := (Z.pos mS * 2 ^ 53) mod Z.pos mN) in *.
  assert (Hqr : q * Z.pos mN + r = Z.pos mS * 2 ^ 53)
    by (subst q r; pose proof (Z.div_mod (Z.pos mS * 2 ^ 53) (Z.pos mN)); lia).
  assert (Hr : 0 <= r < Z.pos mN) by (subst r; apply Z.mod_pos_bound; lia).
  assert (Hq52 : 2 ^ 52 <= q).
  { subst q. apply Z.div_le_lower_bound; [lia|].
    assert (2 ^ 52 * 2 ^ 53 <= Z.pos mS * 2 ^ 53) by (apply Z.mul_le_mono_nonneg_r; lia).
    lia. }
  destruct (rne_located_bounds q c k 0 ltac:(lia) Hc Hk eq_refl) as (B1 & _ & _).
  set (G := 2 ^ (eS - eN - 53 + 1074)).
  assert (HG : 2 ^ 969 <= G) by (subst G; apply Z.pow_le_mono_r; lia).
  assert (HmuG : rne (4 * q + c) (k + 2) * 2 ^ (eS - eN - 53 + k + 1074)
                 = (rne (4 * q + c) (k + 2) * 2 ^ k) * G)
    by (subst G; rewrite <- Z.mul_assoc, <- Z.pow_add_r by lia; do 2 f_equal; lia).
  rewrite HmuG. set (X := rne (4 * q + c) (k + 2) * 2 ^ k) in *.
  set (A := 2 ^ (- eN)) in *. set (B := 2 ^ (- eS)) in *.
  assert (HA : 0 < A) by (subst A; apply pow2_pos; lia).
  assert (HB : 0 < B) by (subst B; apply pow2_pos; lia).
  assert (HGB : G * B * 2 ^ 53 = A * 2 ^ 1074).
  { subst G A B. rewrite <- !Z.pow_add_r by lia. f_equal. lia. }
  destruct rank_units as [HV HU].
  set (U := 2 ^ 1074) in *. set (V := 2 ^ 1023) in *.
  assert (HV0 : 0 < V) by (subst V; apply pow2_pos; lia).
  assert (HG0 : 0 < G) by lia.
  split.
  - assert (2 ^ 1020 <= X * G).
    { replace (2 ^ 1020) with (2 ^ 51 * 2 ^ 969)
        by (rewrite <- Z.pow_add_r by lia; reflexivity).
      apply Z.mul_le_mono_nonneg; lia. }
    apply Z.min_glb; [assumption|]. unfold ord_infinity.
    apply Z.pow_le_mono_r; lia.
  - apply Z.le_trans with (N * (X * G)); [apply Z.mul_le_mono_nonneg_l; lia|].
    set (K := A * B * 2 ^ 53).
    assert (HK : 0 < K) by (subst K; apply Z.mul_pos_pos; [apply Z.mul_pos_pos|]; lia).
    apply (Z.mul_le_mono_pos_r _ _ K HK).
    assert (E1 : N * (X * G) * K = (Z.pos mN * X) * (A * U))
      by (rewrite HmN; fold A; subst K; rewrite <- HGB; ring).
    assert (E2 : S * (U + V) * K = Z.pos mS * 2 ^ 53 * (A * U) + Z.pos mS * A * (V * 2 ^ 53))
      by (rewrite HmS; fold B; subst K; ring).
    rewrite E1, E2, HV.
    assert (Z.pos mN * X <= Z.pos mS * 2 ^ 53 + 2 * Z.pos mN) by nia.
    assert (HAU : 0 < A * U) by (apply Z.mul_pos_pos; lia).
    assert (Z.pos mN * X * (A * U) <= (Z.pos mS * 2 ^ 53 + 2 * Z.pos mN) * (A * U))
      by (apply Z.mul_le_mono_nonneg_r; lia).
    assert (2 * Z.pos mN * (A * U) <= Z.pos mS * A * (4 * U)).
    { replace (Z.pos mS * A * (4 * U)) with (4 * Z.pos mS * (A * U)) by ring.
      apply Z.mul_le_mono_nonneg_r; lia. }
    lia.
Qed.

(** The product of two doubles, in the normal range: its rank is above the
    exact product by at most one part in 2^52. *)
Lemma mul_upper (mx my : positive) (ex ey : Z) :
  bounded prec emax mx ex = true -> bounded prec emax my ey = true ->
  -1074 <= ex + ey ->
  2 ^ 53 <= Z.pos mx * Z.pos my * 2 ^ (ex + ey + 1074) ->
  nonneg_valid (mul (S754_finite false mx ex) (S754_finite false my ey)) = true /\
  2 ^ 52 * ord (mul (S754_finite false mx ex) (S754_finite false my ey))
  <= (2 ^ 52 + 1) * (Z.pos mx * Z.pos my * 2 ^ (ex + ey + 1074)).
Proof.
  intros Hx Hy He Hnormal.
  destruct (mul_ord mx my ex ey Hx Hy) as [Hv Ho]. cbv zeta in Hv, Ho.
  split; [exact Hv|]. rewrite Ho. clear Hv Ho.
  apply Z.le_trans with (2 ^ 52 * rank_rounded (mx * my) (ex + ey));
    [apply Z.mul_le_mono_nonneg_l; lia|].
  pose proof (product_shift_nonneg mx my ex ey Hx Hy) as Hs.
  unfold rank_rounded. rewrite Pos2Z.inj_mul.
  pose proof (digits2_bounds (mx * my)) as Hd. rewrite Pos2Z.inj_mul in Hd.
  set (d := Z.pos (digits2_pos (mx * my))) in *.
  set (P := Z.pos mx * Z.pos my) in *. set (e := ex + ey) in *.
  assert (Hd1 : 1 <= d) by (subst d; lia).
  assert (HE : fexp64 (d + e) = d + e - 53).
  { unfold fexp64. apply Z.max_l.
    destruct (Z_le_gt_dec (-1074) (d + e - 53)); [assumption|exfalso].
    assert (2 ^ d * 2 ^ (e + 1074) <= 2 ^ 53).
    { rewrite <- Z.pow_add_r by lia. apply Z.pow_le_mono_r; lia. }
    pose proof (pow2_pos (e + 1074) ltac:(lia)).
    assert (P * 2 ^ (e + 1074) < 2 ^ d * 2 ^ (e + 1074))
      by (apply Z.mul_lt_mono_pos_r; lia).
    lia. }
  rewrite HE in Hs |- *.
  replace (d + e - 53 - e) with (d - 53) by lia.
  set (n := d - 53) in *. assert (Hn : 0 <= n) by lia.
  set (T := 2 ^ (e + 1074)) in *.
  assert (HT : 0 < T) by (subst T; apply pow2_pos; lia).
  set (Q := 2 ^ n). assert (HQ : 0 < Q) by (subst Q; apply pow2_pos; lia).
  assert (HQT : 2 ^ (d + e - 53 + 1074) = Q * T)
    by (subst Q T n; rewrite <- Z.pow_add_r by lia; f_equal; lia).
  rewrite HQT.
  pose proof (rne_bounds P n Hn) as Hb. fold Q in Hb.
  assert (HPQ : P / Q * Q <= P) by (rewrite Z.mul_comm; apply Z.mul_div_le; lia).
  assert (H52 : 2 ^ 52 * Q <= P).
  { subst Q n. rewrite <- Z.pow_add_r by lia.
    replace (52 + (d - 53)) with (d - 1) by lia. lia. }
  assert (rne P n * (Q * T) <= (P / Q + 1) * (Q * T))
    by (apply Z.mul_le_mono_nonneg_r; lia).
  assert ((P / Q + 1) * (Q * T) = (P / Q * Q) * T + Q * T) by ring.
  assert (P / Q * Q * T <= P * T) by (apply Z.mul_le_mono_nonneg_r; lia).
  assert (2 ^ 52 * Q * T <= P * T) by (apply Z.mul_le_mono_nonneg_r; lia).
  lia.
Qed.

Lemma mul_valid (x y : float) :
  nonneg_finite x = true -> nonneg_finite y = true -> nonneg_valid (mul x y) = true.
Proof.
  intros Hx Hy.
  destruct x as [sx|sx| |sx mx ex], y as [sy|sy| |sy my ey];
    cbn [nonneg_finite nonneg_valid] in Hx, Hy; try discriminate; try reflexivity.
  destruct sx, sy; try discriminate. cbn [negb andb] in Hx, Hy.
  apply (mul_ord mx my ex ey Hx Hy).
Qed.

(** A side of the new size: at most the maximum it was scaled to. *)
Lemma scaled_side (side max_side : Z) (scale : float) :
  0 < side < 2 ^ 53 -> 0 < max_side < 2 ^ 50 ->
  nonneg_valid scale = true ->
  ord scale <= ord (div (of_Z max_side) (of_Z side)) ->
  exists n, to_int (mul (of_Z side) scale) = Some n /\ 0 <= n <= max_side.
Proof.
  intros Hside Hmax Hvs Hle.
  destruct (div_upper max_side side ltac:(lia) Hside) as (Hva & Hlo & Hup).
  set (a := div (of_Z max_side) (of_Z side)) in *.
  destruct rank_units as [HV HU].
  pose proof (pow2_pos 1023 ltac:(lia)) as HV0.
  assert (Hainf : ord a < ord_infinity).
  { apply Z.le_lt_trans with (max_side * (2 ^ 1074 + 2 ^ 1023)).
    - apply Z.le_trans with (side * ord a); [|exact Hup].
      pose proof (ord_nonneg a). nia.
    - apply Z.lt_le_trans with (2 ^ 50 * 2 ^ 1075).
      + rewrite HU. replace (2 ^ 1075) with (2 ^ 52 * 2 ^ 1023)
          by (rewrite <- Z.pow_add_r by lia; reflexivity).
        set (V := 2 ^ 1023) in *. nia.
      + rewrite <- Z.pow_add_r by lia. unfold ord_infinity. apply Z.pow_le_mono_r; lia. }
  pose proof (valid_finite a Hva Hainf) as Hfa.
  assert (Hfs : nonneg_finite scale = true) by (apply valid_finite; [exact Hvs|lia]).
  destruct (normalize_exact side 0 ltac:(lia) ltac:(lia)) as (mw & ew & Hfw & Hew & Hmw & Hrw).
  change (binary_normalize prec emax side 0 false) with (of_Z side) in Hfw.
  rewrite Z.sub_0_l in Hmw.
  assert (Hbw : bounded prec emax mw ew = true) by (apply bounded_spec; lia).
  assert (Hfc : nonneg_finite (of_Z side) = true) by (rewrite Hfw; exact Hbw).
  assert (Hprod : ord (mul (of_Z side) a) < (max_side + 1) * 2 ^ 1074).
  { destruct a as [sa|sa| |sa ma ea] eqn:Ea; cbn [nonneg_valid nonneg_finite] in Hva, Hfa;
      try discriminate.
    - cbn [ord] in Hlo. pose proof (pow2_pos 1020 ltac:(lia)). lia.
    - destruct sa; [discriminate|]. cbn [negb andb] in Hva. cbn [ord] in Hlo, Hup.
      pose proof Hva as Hba. apply bounded_spec in Hba as (Hea & Hma & _).
      assert (Hea' : -106 <= ea).
      { destruct (Z_le_gt_dec (-106) ea); [assumption|exfalso].
        assert (2 ^ (ea + 1074) <= 2 ^ 967) by (apply Z.pow_le_mono_r; lia).
        assert (Z.pos ma * 2 ^ (ea + 1074) < 2 ^ 53 * 2 ^ 967) by nia.
        replace (2 ^ 53 * 2 ^ 967) with (2 ^ 1020) in *
          by (rewrite <- Z.pow_add_r by lia; reflexivity).
        lia. }
      assert (Hid : Z.pos mw * Z.pos ma * 2 ^ (ew + ea + 1074)
                    = side * (Z.pos ma * 2 ^ (ea + 1074))).
      { rewrite Hmw. replace (ea + 1074) with (- ew + (ew + ea + 1074)) by lia.
        rewrite (Z.pow_add_r 2 (- ew)) by lia. ring. }
      rewrite Hfw.
      destruct (mul_upper mw ma ew ea Hbw Hva ltac:(lia)) as [_ Hm].
      + rewrite Hid. apply Z.le_trans with (1 * 2 ^ 1020).
        * rewrite Z.mul_1_l. apply Z.pow_le_mono_r; lia.
        * apply Z.mul_le_mono_nonneg; lia.
      + rewrite Hid in Hm.
        set (O := ord (mul (S754_finite false mw ew) (S754_finite false ma ea))) in *.
        set (W := side * (Z.pos ma * 2 ^ (ea + 1074))) in *.
        rewrite HU in *. set (V := 2 ^ 1023) in *.
        assert ((2 ^ 52 + 1) * W <= (2 ^ 52 + 1) * (max_side * (2 ^ 51 * V + V)))
          by (apply Z.mul_le_mono_nonneg_l; lia).
        assert (2 ^ 52 * O < 2 ^ 52 * ((max_side + 1) * (2 ^ 51 * V))); [|lia].
        apply Z.le_lt_trans with ((2 ^ 52 + 1) * (max_side * (2 ^ 51 * V + V))); [lia|].
        nia. }
  assert (Hmono : ord (mul (of_Z side) scale) <= ord (mul (of_Z side) a)).
  { rewrite (mul_comm (of_Z side) scale), (mul_comm (of_Z side) a).
    apply leb_ord; [apply mul_valid; assumption|apply mul_valid; assumption|].
    apply mul_monotone; try assumption. apply leb_ord; [exact Hvs|exact Hva|exact Hle]. }
  pose proof (pow2_pos 1074 ltac:(lia)) as HU0.
  assert (Hinf : (max_side + 1) * 2 ^ 1074 < ord_infinity).
  { apply (below_infinity (max_side + 1) 51 1074); lia. }
  rewrite to_int_ord; [|apply mul_valid; assumption|lia].
  eexists. split; [reflexivity|]. split.
  - apply Z.div_pos; [apply ord_nonneg|lia].
  - assert (ord (mul (of_Z side) scale) / 2 ^ 1074 < max_side + 1); [|lia].
    apply Z.div_lt_upper_bound; [lia|]. rewrite Z.mul_comm. lia.
Qed.

Lemma min_ord (x y : float) :
  nonneg_valid x = true -> nonneg_valid y = true ->
  nonneg_valid (min x y) = true /\ ord (min x y) <= ord x /\ ord (min x y) <= ord y.
Proof.
  intros Hx Hy. unfold min. pose proof (ltb_ord y x Hy Hx) as H.
  destruct (ltb y x).
  - apply proj1 in H. specialize (H eq_refl). split; [exact Hy|]. lia.
  - split; [exact Hx|]. split; [lia|].
    destruct (Z_lt_le_dec (ord y) (ord x)) as [Hlt|Hle]; [|exact Hle].
    apply H in Hlt. discriminate.
Qed.

(** X13: for an image and maximum sizes below 2^50, the size that
    [resize_image] computes for an image that does not fit never exceeds the
    maximum in either direction: the float arithmetic of the scale cannot
    push a side beyond it.  The image is returned as it is when it fits;
    otherwise it is resized to that size, and the call raises when a side of
    that size is 0. *)
Theorem resized_image_fits (cv2_resize : Image -> Z * Z -> Image) (image : Image)
    (max_width max_height : Z) :
  let height := shape0 image in
  let width := shape1 image in
  0 < width < 2 ^ 50 -> 0 < height < 2 ^ 50 ->
  0 < max_width < 2 ^ 50 -> 0 < max_height < 2 ^ 50 ->
  exists new_width new_height,
    utils.scaled_size width height max_width max_height = Some (new_width, new_height) /\
    0 <= new_width <= max_width /\ 0 <= new_height <= max_height /\
    utils.resize_image cv2_resize image max_width max_height =
      if (width <=? max_width) && (height <=? max_height) then Some image
      else if (0 <? new_width) && (0 <? new_height)
           then Some (cv2_resize image (new_width, new_height))
           else None.
Proof.
  intros height width Hw Hh Hmw Hmh.
  destruct (div_upper max_width width ltac:(lia) ltac:(lia)) as (Hva & _ & _).
  destruct (div_upper max_height height ltac:(lia) ltac:(lia)) as (Hvb & _ & _).
  destruct (min_ord _ _ Hva Hvb) as (Hvs & Hsa & Hsb).
  destruct (scaled_side width max_width _ ltac:(lia) Hmw Hvs Hsa) as (nw & Hnw & Hbw).
  destruct (scaled_side height max_height _ ltac:(lia) Hmh Hvs Hsb) as (nh & Hnh & Hbh).
  exists nw, nh.
  assert (Hsize : utils.scaled_size width height max_width max_height = Some (nw, nh)).
  { unfold utils.scaled_size.
    replace ((width =? 0) || (height =? 0)) with false
      by (symmetry; apply orb_false_iff; split; apply Z.eqb_neq; lia).
    cbv zeta. rewrite Hnw. cbn [mbind option_bind]. rewrite Hnh. reflexivity. }
  split; [exact Hsize|]. split; [exact Hbw|]. split; [exact Hbh|].
  unfold utils.resize_image. fold height width.
  destruct ((width <=? max_width) && (height <=? max_height)); [reflexivity|].
  rewrite Hsize. reflexivity.
Qed.

(** A 700x500 image into 600x400: the new size is 560x400. *)
Lemma resize_700_by_500_example :
  let image := filled 500 700 (0, 0, 0) in
  0 < shape1 image < 2 ^ 50 /\ 0 < shape0 image < 2 ^ 50 /\
  0 < 600 < 2 ^ 50 /\ 0 < 400 < 2 ^ 50 /\
  utils.scaled_size 700 500 600 400 = Some (560, 400) /\
  exists new_width new_height,
    utils.scaled_size (shape1 image) (shape0 image) 600 400 = Some (new_width, new_height) /\
    0 <= new_width <= 600 /\ 0 <= new_height <= 400.
Proof.
  intros image.
  assert (H1 : 0 < shape1 image < 2 ^ 50) by (vm_compute; split; reflexivity).
  assert (H2 : 0 < shape0 image < 2 ^ 50) by (vm_compute; split; reflexivity).
  assert (H3 : 0 < 600 < 2 ^ 50) by lia.
  assert (H4 : 0 < 400 < 2 ^ 50) by lia.
  split; [exact H1|]. split; [exact H2|]. split; [exact H3|]. split; [exact H4|].
  split; [vm_compute; reflexivity|].
  destruct (resized_image_fits (fun img _ => img) image 600 400 H1 H2 H3 H4)
    as (nw & nh & Hs & Hw & Hh & _).
  exists nw, nh. auto.
Defined.



(** ** Regions of interest *)

Lemma py_slice_length {A} (l : list A) (i j : Z) :
  0 <= i -> i <= j ->
  Z.of_nat (length (py_slice l i j))
  = Z.min j (Z.of_nat (length l)) - Z.min i (Z.of_nat (length l)).
Proof.
  intros Hi Hj. unfold py_slice, slice_index.
  destruct (i <? 0) eqn:E1; [apply Z.ltb_lt in E1; lia|].
  destruct (j <? 0) eqn:E2; [apply Z.ltb_lt in E2; lia|].
  rewrite length_take, length_drop. lia.
Qed.

Lemma py_slice_elem {A} (l : list A) (i j : Z) (x : A) :
  x ∈ py_slice l i j -> x ∈ l.
Proof.
  unfold py_slice. intros H. eapply subseteq_drop, subseteq_take. exact H.
Qed.

(** A region whose top left corner lies inside a rectangular image, with a
    width and a height of at least 1, is not empty. *)
Lemma slice2_size (rows cols : Z) (img : Image) (x y w h : Z) :
  rectangular rows cols img ->
  0 <= x < cols -> 0 <= y < rows -> 1 <= w -> 1 <= h ->
  size (slice2 img y (y + h) x (x + w)) <> 0.
Proof.
  intros [Hrows Hcols] Hx Hy Hw Hh. unfold size, slice2, shape0, shape1.
  pose proof (py_slice_length img y (y + h) ltac:(lia) ltac:(lia)) as Hl.
  destruct (py_slice img y (y + h)) as [|row rest] eqn:Es.
  - cbn [length] in Hl. lia.
  - cbn [map length].
    assert (Hin : row ∈ img).
    { apply (py_slice_elem img y (y + h)). rewrite Es. left. }
    rewrite Forall_forall in Hcols. specialize (Hcols _ Hin).
    pose proof (py_slice_length row x (x + w) ltac:(lia) ltac:(lia)) as Hr.
    nia.
Qed.

(** X15: an equipment contour above the minimum area whose bounding box
    starts inside the frame is never labelled "Unknown": the region handed
    to the health check is not empty, the check answers "Rust Detected",
    "Oil Leak" or "Good", and the frame gets the box of the contour with the
    matching label, an alert being logged unless the answer is "Good". *)
Theorem equipment_inside_frame_is_assessed (cv : OpenCV) (now : Timestamp)
    (st : MiningCVSystem.state) (frame : Frame) (contour : Contour) (rows cols : Z) :
  rectangular rows cols (pixels cv frame) ->
  gtb_Z (contourArea contour) 1000 = true ->
  let '(x, y, w, h) := boundingRect contour in
  0 <= x < cols -> 0 <= y < rows ->
  exists health,
    MiningCVSystem.assess_equipment_health cv (slice2 (pixels cv frame) y (y + h) x (x + w))
      = Some health /\
    health <> Unknown /\
    MiningCVSystem.equipment_contour cv now (st, frame) contour =
      Some (match health with
            | Good =>
                (st, annotate (annotate frame (Rectangle (x, y) (x + w, y + h) green 2))
                              (PutText Equipment_OK (x, y - 10) green))
            | _ =>
                (MiningCVSystem.append_alert st
                   {| MiningCVSystem.a_timestamp := now;
                      MiningCVSystem.a_type := health;
                      MiningCVSystem.a_position := (x, y, w, h) |},
                 annotate (annotate frame (Rectangle (x, y) (x + w, y + h) red 2))
                          (PutText (AlertLabel health) (x, y - 10) red))
            end).
Proof.
  intros Hrect Harea.
  assert (Hwh : forall x y w h, boundingRect contour = (x, y, w, h) -> 1 <= w /\ 1 <= h).
  { unfold boundingRect. destruct contour as [|p rest].
    - cbn in Harea. discriminate.
    - intros x y w h [= <- <- <- <-].
      assert (Hmm : forall (v : Z) (l : list Z), foldr Z.min v l <= foldr Z.max v l).
      { intros v l. assert (foldr Z.min v l <= v <= foldr Z.max v l); [|lia].
        induction l as [|u l IH]; cbn; lia. }
      pose proof (Hmm (fst p) (map fst rest)). pose proof (Hmm (snd p) (map snd rest)). lia. }
  unfold MiningCVSystem.equipment_contour. rewrite Harea.
  destruct (boundingRect contour) as [[[x y] w] h] eqn:Eb.
  destruct (Hwh x y w h eq_refl) as [Hw Hh].
  intros Hx Hy.
  pose proof (slice2_size rows cols (pixels cv frame) x y w h Hrect Hx Hy Hw Hh) as Hsize.
  set (roi := slice2 (pixels cv frame) y (y + h) x (x + w)) in *.
  assert (Hhealth : exists health,
            MiningCVSystem.assess_equipment_health cv roi = Some health /\ health <> Unknown).
  { unfold MiningCVSystem.assess_equipment_health, cvtColor_HSV.
    destruct (size roi =? 0) eqn:E; [apply Z.eqb_eq in E; contradiction|].
    cbn [mbind option_bind].
    repeat match goal with |- context [if ?b then _ else _] => destruct b end;
      eexists; (split; [reflexivity|discriminate]). }
  destruct Hhealth as (health & Hhealth & Hknown).
  exists health. split; [exact Hhealth|]. split; [exact Hknown|].
  rewrite Hhealth. cbn [mbind option_bind]. destruct health; reflexivity.
Qed.

(** A rusty machine that fills a 27x41 frame: the box starts at the corner
    of the frame and the check answers rust. *)
Lemma rusty_machine_example :
  let frame := new_frame (filled 27 41 (10, 200, 200)) in
  let contour : Contour := [(0, 0); (0, 26); (40, 26); (40, 0)] in
  rectangular 27 41 (pixels plain_cv frame) /\
  gtb_Z (contourArea contour) 1000 = true /\
  boundingRect contour = (0, 0, 41, 27) /\
  exists health,
    MiningCVSystem.assess_equipment_health plain_cv
      (slice2 (pixels plain_cv frame) 0 (0 + 27) 0 (0 + 41)) = Some health /\
    health <> Unknown.
Proof.
  intros frame contour.
  assert (H1 : rectangular 27 41 (pixels plain_cv frame)).
  { split; [reflexivity|]. apply Forall_replicate. reflexivity. }
  assert (H2 : gtb_Z (contourArea contour) 1000 = true) by (vm_compute; reflexivity).
  split; [exact H1|]. split; [exact H2|]. split; [reflexivity|].
  pose proof (equipment_inside_frame_is_assessed plain_cv "t" MiningCVSystem.init frame
                contour 27 41 H1 H2) as H.
  change (boundingRect contour) with (0, 0, 41, 27) in H. cbv beta iota in H.
  destruct (H ltac:(lia) ltac:(lia)) as (health & Hh & Hk & _).
  exists health. split; assumption.
Defined.

(** ** Distances *)

Lemma round_canonical (m : positive) (e : Z) :
  2 ^ 52 <= Z.pos m < 2 ^ 53 -> -1074 <= e <= 971 ->
  binary_round_aux prec emax false (Z.pos m) e loc_Exact = S754_finite false m e.
Proof.
  intros Hm He.
  assert (Hdm : Z.pos (digits2_pos m) = 53) by (apply digits2_unique; exact Hm).
  pose proof (binary_round_aux_rounded m e) as H. cbv zeta in H.
  rewrite Hdm in H. unfold fexp64 in H.
  replace (Z.max (53 + e - 53) (-1074)) with e in H by lia.
  rewrite H by lia. rewrite Z.sub_diag, rne_0, rounded_fits.
  - destruct (e <=? 971) eqn:E; [reflexivity|]. apply Z.leb_gt in E. lia.
  - rewrite Hdm. unfold fexp64. lia.
Qed.

(** The square root of a perfect square below 2^53 is exact. *)
Lemma sqrt_square (k : Z) :
  0 < k -> k * k < 2 ^ 53 -> sqrt (of_Z (k * k)) = of_Z k.
Proof.
  intros Hk Hkk.
  assert (Hk53 : k < 2 ^ 53) by nia.
  destruct (normalize_exact (k * k) 0 ltac:(nia) ltac:(lia)) as (m & e & Hf & He & Hm & Hr).
  destruct (normalize_exact k 0 ltac:(lia) ltac:(lia)) as (mk & ek & Hfk & Hek & Hmk & Hrk).
  change (binary_normalize prec emax (k * k) 0 false) with (of_Z (k * k)) in Hf.
  change (binary_normalize prec emax k 0 false) with (of_Z k) in Hfk.
  rewrite Hf, Hfk. rewrite Z.sub_0_l in Hm, Hmk.
  set (t := - e) in *. set (u := - ek) in *.
  assert (Ht : 0 <= t <= 52) by (subst t; lia).
  assert (Hu : 0 <= u <= 52) by (subst u; lia).
  pose proof (pow2_pos t ltac:(lia)) as HA. pose proof (pow2_pos u ltac:(lia)) as HB.
  assert (Hsq : Z.pos mk * Z.pos mk = k * k * 2 ^ (2 * u)).
  { rewrite Hmk. replace (2 * u) with (u + u) by lia. rewrite Z.pow_add_r by lia. ring. }
  assert (Hmm : 2 ^ 104 <= Z.pos mk * Z.pos mk < 2 ^ 106).
  { change (2 ^ 104) with (2 ^ 52 * 2 ^ 52). change (2 ^ 106) with (2 ^ 53 * 2 ^ 53). nia. }
  assert (Hs : 52 <= 2 * u - t <= 53).
  { split.
    - destruct (Z_le_gt_dec 52 (2 * u - t)); [assumption|exfalso].
      assert (2 ^ (2 * u) <= 2 ^ (t + 51)) by (apply Z.pow_le_mono_r; lia).
      rewrite Z.pow_add_r in H by lia.
      assert (k * k * 2 ^ (2 * u) <= k * k * (2 ^ t * 2 ^ 51))
        by (apply Z.mul_le_mono_nonneg_l; nia).
      rewrite Z.mul_assoc, <- Hm in H0.
      change (2 ^ 104) with (2 ^ 53 * 2 ^ 51) in Hmm. nia.
    - destruct (Z_le_gt_dec (2 * u - t) 53); [assumption|exfalso].
      assert (2 ^ (t + 54) <= 2 ^ (2 * u)) by (apply Z.pow_le_mono_r; lia).
      rewrite Z.pow_add_r in H by lia.
      assert (k * k * (2 ^ t * 2 ^ 54) <= k * k * 2 ^ (2 * u))
        by (apply Z.mul_le_mono_nonneg_l; nia).
      rewrite Z.mul_assoc, <- Hm in H0.
      change (2 ^ 106) with (2 ^ 52 * 2 ^ 54) in Hmm. nia. }
  unfold sqrt, SFsqrt, SFsqrt_core_binary. cbn [Zdigits2].
  rewrite (digits2_unique m 53) by exact Hr. rewrite fexp_fexp64.
  assert (Hd2 : Z.div2 (53 + e + 1) = ek + 53).
  { rewrite Z.div2_div. symmetry.
    apply (Z.div_unique _ 2 (ek + 53) (2 * u - t - 52)); subst t u; lia. }
  rewrite Hd2. unfold fexp64.
  assert (He2 : ek <= Z.div2 e).
  { rewrite Z.div2_div. apply Z.div_le_lower_bound; subst t u; lia. }
  replace (Z.min (Z.max (ek + 53 - 53) (-1074)) (Z.div2 e)) with ek by lia.
  assert (Hshift : e - 2 * ek = 2 * u - t) by (subst t u; lia).
  rewrite Hshift.
  assert (Hm' : match 2 * u - t with
                | 0 => Z.pos m
                | Z.pos _ => Z.shiftl (Z.pos m) (2 * u - t)
                | Z.neg _ => 0
                end = Z.pos mk * Z.pos mk).
  { destruct (2 * u - t) as [|p|p] eqn:Ep; [lia| |lia].
    rewrite Z.shiftl_mul_pow2 by lia. rewrite Hm, Hsq, <- Ep, <- Z.mul_assoc.
    f_equal. rewrite <- Z.pow_add_r by lia. f_equal. lia. }
  rewrite Hm'.
  pose proof (Z.sqrtrem_spec (Z.pos mk * Z.pos mk) ltac:(lia)) as Hsr.
  destruct (Z.sqrtrem (Z.pos mk * Z.pos mk)) as [q r]. destruct Hsr as [Hq Hr2].
  assert (q = Z.pos mk) by nia. subst q.
  assert (r = 0) by lia. subst r. cbn [Z.eqb].
  apply round_canonical; [exact Hrk|lia].
Qed.

(** X16: [calculate_distance] is symmetric in its two points and is 0.0
    for a point and itself; when the squared distance is a perfect square
    below 2^53 (two points on a horizontal or vertical line, the sides 3 and
    4) the result is exactly its root: no rounding shows. *)
Theorem distance_symmetric_and_exact (point1 point2 : Z * Z) :
  utils.calculate_distance point1 point2 = utils.calculate_distance point2 point1 /\
  utils.calculate_distance point1 point1 = Some (S754_zero false) /\
  (forall k, 0 <= k -> k * k < 2 ^ 53 ->
     (fst point1 - fst point2) ^ 2 + (snd point1 - snd point2) ^ 2 = k * k ->
     utils.calculate_distance point1 point2 = Some (of_Z k)).
Proof.
  unfold utils.calculate_distance. split; [|split].
  - replace ((fst point2 - fst point1) ^ 2 + (snd point2 - snd point1) ^ 2)
      with ((fst point1 - fst point2) ^ 2 + (snd point1 - snd point2) ^ 2) by ring.
    reflexivity.
  - rewrite !Z.sub_diag. reflexivity.
  - intros k Hk Hkk ->. destruct (Z.eq_dec k 0) as [->|Hnz]; [reflexivity|].
    destruct (normalize_exact (k * k) 0 ltac:(nia) ltac:(lia)) as (m & e & Hf & _).
    change (binary_normalize prec emax (k * k) 0 false) with (of_Z (k * k)) in Hf.
    unfold of_int. pose proof (sqrt_square k ltac:(lia) Hkk) as Hs.
    rewrite Hf in Hs |- *. cbn [mbind option_bind]. f_equal. exact Hs.
Qed.

(** The sides 3 and 4: the distance is 5.0. *)
Lemma distance_3_4_example :
  0 <= 5 /\ 5 * 5 < 2 ^ 53 /\
  (fst (0, 0) - fst (3, 4)) ^ 2 + (snd (0, 0) - snd (3, 4)) ^ 2 = 5 * 5 /\
  utils.calculate_distance (0, 0) (3, 4) = Some (S754_finite false 5629499534213120 (-50)).
Proof.
  split; [lia|]. split; [lia|]. split; [reflexivity|].
  exact (proj2 (proj2 (distance_symmetric_and_exact (0, 0) (3, 4))) 5
           ltac:(lia) ltac:(lia) eq_refl).
Defined.
